(** * PhotoRename: extraction of capture timestamps and collision-safe renaming

    A shallow embedding of [main.py]: the date-time normalizer
    ([ExifWorker.format_datetime_string]), the tag search
    ([ExifWorker.parse_exif_with_pil]), the binary TIFF/IFD parser
    ([ExifWorker.parse_ifd] and its callers), the fallback chain
    ([ExifWorker.get_advanced_exif_data]), the scan loop
    ([ExifWorker.process_files]), the two unique-name generators, the rename
    worker and the rename guard of the main window.

    Modelling conventions.
    - Python [str] is a Rocq [string] that holds the UTF-8 bytes of the
      text.  [strip] knows the white space of [str.isspace] on every code
      point.  The classes of [strptime], white space and digits, are those of
      the ASCII range: of a text with other characters the library may parse
      what the model refuses.
    - Python [bytes] is a [list byte].
    - A [while True] loop takes a fuel argument and returns [None] when the
      fuel is used up; the theorems give the fuel that suffices.
    - What differs from one machine to the next is a [Platform]: how the C
      library writes a year below 1000, and whether [print] returns.
    - The file system is a finite set of existing paths; paths follow
      [posixpath]. *)

From Stdlib Require Import ZArith Lia List Ascii String.
From Stdlib.Strings Require Import Byte.
From stdpp Require Import base tactics option list gmap sets strings pretty
  sorting.

Local Open Scope Z_scope.
Local Open Scope nat_scope.

(** ** Strings *)

Module Text.

(** The marker the program returns where no time is known. *)
Definition UNKNOWN_TIME : string := "未知时间".
Definition UNKNOWN_MODEL : string := "Unknown".
Definition SENTINEL : string := "0000:00:00 00:00:00".

Definition code (c : ascii) : nat := nat_of_ascii c.

(** [str.isspace] below code point 128: TAB, LF, VT, FF, CR, FS, GS, RS, US
    and the space. *)
Definition isspace (c : ascii) : bool :=
  let n := code c in
  ((9 <=? n) && (n <=? 13)) || ((28 <=? n) && (n <=? 32)).

Definition isdigit (c : ascii) : bool :=
  let n := code c in (48 <=? n) && (n <=? 57).

(** The lower-case form of a character: A..Z go to a..z. *)
Definition lower_char (c : ascii) : ascii :=
  if (65 <=? code c) && (code c <=? 90) then ascii_of_nat (code c + 32) else c.

Fixpoint lstrip_by (p : ascii → bool) (s : string) : string :=
  match s with
  | String c s' => if p c then lstrip_by p s' else s
  | EmptyString => EmptyString
  end.

Definition strip_by (p : ascii → bool) (s : string) : string :=
  String.rev (lstrip_by p (String.rev (lstrip_by p s))).

(** The white space of [str.isspace] from code point 128 on, in UTF-8:
    U+0085 and U+00A0 in two bytes; U+1680, U+2000 to U+200A, U+2028, U+2029,
    U+202F, U+205F and U+3000 in three. *)
Definition wide_space2 (a b : ascii) : bool :=
  Nat.eqb (code a) 194 && (Nat.eqb (code b) 133 || Nat.eqb (code b) 160).

Definition wide_space3 (a b c : ascii) : bool :=
  (Nat.eqb (code a) 225 && Nat.eqb (code b) 154 && Nat.eqb (code c) 128)
  || (Nat.eqb (code a) 226 && Nat.eqb (code b) 128
      && (((128 <=? code c) && (code c <=? 138))
          || Nat.eqb (code c) 168 || Nat.eqb (code c) 169
          || Nat.eqb (code c) 175))
  || (Nat.eqb (code a) 226 && Nat.eqb (code b) 129 && Nat.eqb (code c) 159)
  || (Nat.eqb (code a) 227 && Nat.eqb (code b) 128 && Nat.eqb (code c) 128).

(** [s.lstrip()]: the white space characters at the head are dropped, of one,
    two or three bytes.  With [backwards] the text is read from its end, and
    the bytes of a character come last byte first. *)
Fixpoint lstrip_spaces (backwards : bool) (s : string) : string :=
  match s with
  | String a s1 =>
      if isspace a then lstrip_spaces backwards s1
      else
        match s1 with
        | String b s2 =>
            if (if backwards then wide_space2 b a else wide_space2 a b)
            then lstrip_spaces backwards s2
            else
              match s2 with
              | String c s3 =>
                  if (if backwards then wide_space3 c b a
                      else wide_space3 a b c)
                  then lstrip_spaces backwards s3
                  else s
              | EmptyString => s
              end
        | EmptyString => s
        end
  | EmptyString => EmptyString
  end.

(** [s.strip()] *)
Definition strip (s : string) : string :=
  String.rev (lstrip_spaces true (String.rev (lstrip_spaces false s))).

Definition is_nul (c : ascii) : bool := Nat.eqb (code c) 0.

(** [s.strip('\x00')] *)
Definition strip_nul (s : string) : string := strip_by is_nul s.

(** [s.replace(" ", "")] *)
Fixpoint remove_spaces (s : string) : string :=
  match s with
  | String c s' =>
      if Nat.eqb (code c) 32 then remove_spaces s' else String c (remove_spaces s')
  | EmptyString => EmptyString
  end.


(** Truth value of a string: non-empty. *)
Definition truthy (s : string) : bool :=
  match s with EmptyString => false | _ => true end.

Fixpoint starts_with (p s : string) : bool :=
  match p, s with
  | EmptyString, _ => true
  | String a p', String b s' => if Ascii.eqb a b then starts_with p' s' else false
  | String _ _, EmptyString => false
  end.

Fixpoint ends_with_char (c : ascii) (s : string) : bool :=
  match s with
  | EmptyString => false
  | String a EmptyString => Ascii.eqb a c
  | String _ s' => ends_with_char c s'
  end.

(** [p in s] *)
Fixpoint contains (p s : string) : bool :=
  starts_with p s ||
  match s with
  | EmptyString => false
  | String _ s' => contains p s'
  end.

End Text.

(** ** Paths, after [posixpath] *)

Module Path.
Import Text.

Definition sep : ascii := "/"%char.

Definition is_sep (c : ascii) : bool := Ascii.eqb c sep.

Definition is_dot (c : ascii) : bool := Ascii.eqb c "."%char.

Fixpoint has (p : ascii → bool) (s : string) : bool :=
  match s with
  | EmptyString => false
  | String c s' => p c || has p s'
  end.

Fixpoint all (p : ascii → bool) (s : string) : bool :=
  match s with
  | EmptyString => true
  | String c s' => p c && all p s'
  end.

Fixpoint prefix (n : nat) (s : string) : string :=
  match n, s with
  | S n', String c s' => String c (prefix n' s')
  | _, _ => EmptyString
  end.

(** [os.path.join(a, b)] *)
Definition join (a b : string) : string :=
  if starts_with "/" b then b
  else if negb (truthy a) || ends_with_char sep a then a +:+ b
  else a +:+ "/" +:+ b.

(** [os.path.basename(p)]: what follows the last separator. *)
Fixpoint basename (p : string) : string :=
  match p with
  | EmptyString => EmptyString
  | String c rest =>
      if has is_sep rest then basename rest
      else if is_sep c then rest
      else p
  end.

(** [os.path.dirname(p)]: what precedes the base name, without trailing
    separators unless it consists of separators only. *)
Definition dirname (p : string) : string :=
  let head := prefix (String.length p - String.length (basename p)) p in
  if truthy head && negb (all is_sep head)
  then String.rev (lstrip_by is_sep (String.rev head))
  else head.

(** The suffix of [s] that starts at its last dot. *)
Fixpoint last_dot_suffix (s : string) : option string :=
  match s with
  | EmptyString => None
  | String c rest =>
      match last_dot_suffix rest with
      | Some e => Some e
      | None => if is_dot c then Some s else None
      end
  end.

(** The second component of [os.path.splitext(p)]: the extension starts at the
    last dot of the base name, unless only dots precede it. *)
Definition splitext_ext (p : string) : string :=
  let b := basename p in
  match last_dot_suffix b with
  | None => EmptyString
  | Some e =>
      let stem := prefix (String.length b - String.length e) b in
      if all is_dot stem then EmptyString else e
  end.

(** [s.lower()] *)
Fixpoint lower (s : string) : string :=
  match s with
  | EmptyString => EmptyString
  | String c s' => String (lower_char c) (lower s')
  end.

End Path.

(** ** What the image library and the disk give for a file *)

Module Exif.

(** A tag value as the image library hands it over: bytes, text, or another
    object, of which only [str(value)] matters. *)
Inductive raw_value :=
| VBytes (b : list byte)
| VStr (s : string)
| VOther (str : string).

(** What an accessor of the decoded image yields: it raises, it is absent or
    gives nothing, or it gives a tag dictionary, listed in iteration order. *)
Inductive stage_source :=
| Raised
| Missing
| Tags (exifdata : list (Z * raw_value)).

(** A file on disk: the outcome of [Image.open(..).getexif()], of
    [._getexif()], of [._exif], and the bytes [open(.., 'rb')] reads ([None]
    when the file cannot be read). *)
Record image_file := {
  via_getexif : stage_source;
  via_getexif_legacy : stage_source;
  via_exif_attribute : stage_source;
  content : option (list byte)
}.

End Exif.

(** ** The platform *)

(** What the program takes from the machine it runs on.
    [pads_year]: the C library's [strftime] writes [%Y] with four digits, as
    the library of Windows does; glibc writes the number as it is, so that a
    year below 1000 has fewer digits.
    [prints old new]: [print] of the message about a failed rename of [old]
    to [new] returns; it raises where the standard output cannot take the
    text, as [UnicodeEncodeError] on an output whose encoding lacks a
    character of the message. *)
Class Platform := {
  pads_year : bool;
  prints : string → string → bool
}.

(** ** [datetime.strptime] and [strftime], for the directives of the program *)

Module Strptime.
Import Text.

(** One piece of the regular expression [_strptime] builds from a format:
    a literal character (matched ignoring case), a run of white space of the
    format (the expression [\s+]), or a directive.  The classes [\s] and
    [\d] are taken on the ASCII range, which is where the theorems about a
    parse are stated; the library's expression also takes the white space
    and the decimal digits Unicode has beyond it. *)
Inductive item :=
| Lit (c : ascii)
| Space
| Dir (d : ascii).

(** [_strptime.TimeRE.pattern]: white space runs become [\s+], [%x] becomes
    the group of directive [x]; a format ending in a lone [%] is refused. *)
Fixpoint pattern (format : string) : option (list item) :=
  match format with
  | EmptyString => Some []
  | String c rest =>
      if isspace c then
        match pattern rest with
        | Some (Space :: items) => Some (Space :: items)
        | Some items => Some (Space :: items)
        | None => None
        end
      else if Ascii.eqb c "%" then
        match rest with
        | String d rest' =>
            match pattern rest' with
            | Some items => Some (Dir d :: items)
            | None => None
            end
        | EmptyString => None
        end
      else
        match pattern rest with
        | Some items => Some (Lit c :: items)
        | None => None
        end
  end.

(** The digit classes [[a-b]] of the directive groups. *)
Definition digit_in (lo hi : nat) (c : ascii) : bool :=
  (48 + lo <=? code c) && (code c <=? 48 + hi).

Definition any_digit : ascii → bool := digit_in 0 9.

Definition blank (c : ascii) : bool := Nat.eqb (code c) 32.

(** The alternatives of a directive's group, in the order the expression
    lists them; each alternative is a sequence of character classes.
      %Y  \d\d\d\d
      %m  1[0-2]|0[1-9]|[1-9]
      %d  3[0-1]|[1-2]\d|0[1-9]|[1-9]| [1-9]
      %H  2[0-3]|[0-1]\d|\d
      %M  [0-5]\d|\d
      %S  6[0-1]|[0-5]\d|\d
      %f  [0-9]{1,6}  (greedy: the longest run first) *)
Definition alternatives (d : ascii) : option (list (list (ascii → bool))) :=
  if Ascii.eqb d "Y" then
    Some [[any_digit; any_digit; any_digit; any_digit]]
  else if Ascii.eqb d "m" then
    Some [[digit_in 1 1; digit_in 0 2]; [digit_in 0 0; digit_in 1 9];
          [digit_in 1 9]]
  else if Ascii.eqb d "d" then
    Some [[digit_in 3 3; digit_in 0 1]; [digit_in 1 2; any_digit];
          [digit_in 0 0; digit_in 1 9]; [digit_in 1 9]; [blank; digit_in 1 9]]
  else if Ascii.eqb d "H" then
    Some [[digit_in 2 2; digit_in 0 3]; [digit_in 0 1; any_digit]; [any_digit]]
  else if Ascii.eqb d "M" then
    Some [[digit_in 0 5; any_digit]; [any_digit]]
  else if Ascii.eqb d "S" then
    Some [[digit_in 6 6; digit_in 0 1]; [digit_in 0 5; any_digit]; [any_digit]]
  else if Ascii.eqb d "f" then
    Some [repeat any_digit 6; repeat any_digit 5; repeat any_digit 4;
          repeat any_digit 3; repeat any_digit 2; repeat any_digit 1]
  else None.

(** Matching a sequence of classes at the head of [s]: the matched text and
    the rest. *)
Fixpoint match_classes (cs : list (ascii → bool)) (s : string)
  : option (string * string) :=
  match cs with
  | [] => Some (EmptyString, s)
  | p :: cs' =>
      match s with
      | String c s' =>
          if p c then
            match match_classes cs' s' with
            | Some (m, rest) => Some (String c m, rest)
            | None => None
            end
          else None
      | EmptyString => None
      end
  end.

(** The ways [\s+] matches at the head of [s], the longest first. *)
Fixpoint space_runs (s : string) : list string :=
  match s with
  | String c s' => if isspace c then space_runs s' ++ [s'] else []
  | EmptyString => []
  end.

(** The groups captured so far, the last one first. *)
Definition groups := list (ascii * string).

(** All the ways the items match at the head of [s], in the order a
    backtracking matcher tries them; each with the groups and the unread
    rest. *)
Fixpoint match_items (items : list item) (s : string) (found : groups)
  : option (list (groups * string)) :=
  match items with
  | [] => Some [(found, s)]
  | Lit c :: items' =>
      match s with
      | String c' s' =>
          if Ascii.eqb (lower_char c) (lower_char c') then match_items items' s' found
          else Some []
      | EmptyString => Some []
      end
  | Space :: items' =>
      foldr (λ rest acc,
               match match_items items' rest found, acc with
               | Some l1, Some l2 => Some (l1 ++ l2)
               | _, _ => None
               end)
            (Some []) (space_runs s)
  | Dir d :: items' =>
      match alternatives d with
      | None => None
      | Some alts =>
          foldr (λ alt acc,
                   match match_classes alt s with
                   | None => acc
                   | Some (m, rest) =>
                       match match_items items' rest ((d, m) :: found), acc with
                       | Some l1, Some l2 => Some (l1 ++ l2)
                       | _, _ => None
                       end
                   end)
                (Some []) alts
      end
  end.

(** [int(s)] on the text of a group: leading white space is skipped, the
    digits are read in base ten. *)
Definition int_of (s : string) : N :=
  (fix go (s : string) (acc : N) : N :=
     match s with
     | String c s' =>
         if isdigit c then go s' (10 * acc + (N.of_nat (code c) - 48))%N
         else go s' acc
     | EmptyString => acc
     end) s 0%N.

Fixpoint group (d : ascii) (found : groups) : option string :=
  match found with
  | [] => None
  | (d', m) :: found' => if Ascii.eqb d d' then Some m else group d found'
  end.

Record datetime := {
  year : N; month : N; day : N;
  hour : N; minute : N; second : N; microsecond : N
}.

Definition is_leap (y : N) : bool :=
  (N.eqb (y mod 4) 0 && (negb (N.eqb (y mod 100) 0) || N.eqb (y mod 400) 0))%N.

Definition days_in_month (y m : N) : N :=
  (if N.eqb m 2 then (if is_leap y then 29 else 28)
   else if N.eqb m 4 || N.eqb m 6 || N.eqb m 9 || N.eqb m 11 then 30
   else 31)%N.

(** The fraction of [%f], padded with zeros on the right to six digits. *)
Definition fraction_of (s : string) : N :=
  (int_of s * 10 ^ (6 - N.of_nat (String.length s)))%N.

(** The fields read from the groups, with the defaults of [_strptime]; the
    constructor of [datetime] refuses year 0, a day the month does not have
    and a second above 59. *)
Definition build (found : groups) : option datetime :=
  let field d default := from_option int_of default (group d found) in
  let y := field "Y"%char 1900%N in
  let m := field "m"%char 1%N in
  let d := field "d"%char 1%N in
  let s := field "S"%char 0%N in
  if ((1 <=? y) && (y <=? 9999) && (1 <=? m) && (m <=? 12)
      && (1 <=? d) && (d <=? days_in_month y m) && (s <=? 59))%N
  then Some {| year := y; month := m; day := d;
               hour := field "H"%char 0%N; minute := field "M"%char 0%N;
               second := s;
               microsecond :=
                 from_option fraction_of 0%N (group "f"%char found) |}
  else None.

(** [datetime.strptime(data_string, format)]; [None] stands for the raised
    [ValueError]: the expression does not match, text remains after the
    match, or the fields are no date. *)
Definition strptime (data_string format : string) : option datetime :=
  match pattern format with
  | None => None
  | Some items =>
      match match_items items data_string [] with
      | Some ((found, rest) :: _) =>
          match rest with
          | EmptyString => build found
          | _ => None
          end
      | _ => None
      end
  end.

Definition digit_char (n : N) : ascii := ascii_of_N (48 + n mod 10)%N.

Definition pad2 (n : N) : string :=
  String (digit_char (n / 10)%N) (String (digit_char n) EmptyString).

Definition pad4 (n : N) : string :=
  String (digit_char (n / 1000)%N) (String (digit_char (n / 100)%N) (pad2 n)).

(** [%Y] of [strftime]: a year of four digits is written as it is; a year
    below 1000 gets its leading zeros only where the C library pads. *)
Definition year_text {platform : Platform} (y : N) : string :=
  if (1000 <=? y)%N || pads_year then pad4 y else pretty y.

(** [dt.strftime("%Y%m%d_%H%M%S")] *)
Definition strftime {platform : Platform} (dt : datetime) : string :=
  year_text (year dt) +:+ pad2 (month dt) +:+ pad2 (day dt) +:+ "_"
  +:+ pad2 (hour dt) +:+ pad2 (minute dt) +:+ pad2 (second dt).

End Strptime.

(** ** The date-time normalizer *)

Module Normalizer.
Import Text.

Section WithPlatform.
Context {platform : Platform}.

Definition formats : list string :=
  [ "%Y:%m:%d %H:%M:%S";
    "%Y-%m-%d %H:%M:%S";
    "%Y/%m/%d %H:%M:%S";
    "%Y:%m:%d %H:%M:%S.%f";
    "%Y-%m-%d %H:%M:%S.%f";
    "%Y-%m-%dT%H:%M:%S";
    "%Y-%m-%dT%H:%M:%SZ";
    "%Y:%m:%d %H:%M";
    "%Y-%m-%d %H:%M";
    "%Y/%m/%d %H:%M" ].

(** The [for fmt in formats] loop: the first format that parses decides. *)
Fixpoint try_formats (date_time_str : string) (fmts : list string) : string :=
  match fmts with
  | [] => UNKNOWN_TIME
  | fmt :: rest =>
      match Strptime.strptime (strip date_time_str) fmt with
      | Some dt_obj => Strptime.strftime dt_obj
      | None => try_formats date_time_str rest
      end
  end.

Definition format_datetime_string (date_time_str : string) : string :=
  if negb (truthy date_time_str) then UNKNOWN_TIME
  else try_formats date_time_str formats.



End WithPlatform.

End Normalizer.

(** ** Bytes *)

Module Bytes.

Definition len (data : list byte) : N := N.of_nat (length data).

(** [data[start:stop]] for non-negative bounds: both are cut to the length. *)
Definition slice (data : list byte) (start stop : N) : list byte :=
  let start' := N.min start (len data) in
  let stop' := N.min stop (len data) in
  take (N.to_nat (stop' - start')) (drop (N.to_nat start') data).

(** A continuation byte of UTF-8. *)
Definition continuation (x : byte) : bool :=
  ((128 <=? Byte.to_N x) && (Byte.to_N x <=? 191))%N.

(** The second byte a lead byte of three or four bytes admits: no overlong
    form, no surrogate, nothing above U+10FFFF. *)
Definition second_ok (lead : N) (x : byte) : bool :=
  (if lead =? 224 then (160 <=? Byte.to_N x) && (Byte.to_N x <=? 191)
   else if lead =? 237 then (128 <=? Byte.to_N x) && (Byte.to_N x <=? 159)
   else if lead =? 240 then (144 <=? Byte.to_N x) && (Byte.to_N x <=? 191)
   else if lead =? 244 then (128 <=? Byte.to_N x) && (Byte.to_N x <=? 143)
   else continuation x)%N.

(** [b.decode('utf-8', errors='ignore')]: the well-formed sequences are kept.
    A byte that starts none is left out; of a sequence that breaks off, the
    bytes before the offending byte are left out and decoding goes on at
    that byte; a sequence cut by the end of the data is left out. *)
Fixpoint decode_ignore (b : list byte) : string :=
  match b with
  | [] => EmptyString
  | x :: b1 =>
      let lead := Byte.to_N x in
      if (lead <? 128)%N then String (ascii_of_byte x) (decode_ignore b1)
      else if ((194 <=? lead) && (lead <=? 223))%N then
        match b1 with
        | [] => EmptyString
        | y :: b2 =>
            if continuation y then
              String (ascii_of_byte x) (String (ascii_of_byte y) (decode_ignore b2))
            else decode_ignore b1
        end
      else if ((224 <=? lead) && (lead <=? 239))%N then
        match b1 with
        | [] => EmptyString
        | y :: b2 =>
            if second_ok lead y then
              match b2 with
              | [] => EmptyString
              | z :: b3 =>
                  if continuation z then
                    String (ascii_of_byte x)
                      (String (ascii_of_byte y)
                         (String (ascii_of_byte z) (decode_ignore b3)))
                  else decode_ignore b2
              end
            else decode_ignore b1
        end
      else if ((240 <=? lead) && (lead <=? 244))%N then
        match b1 with
        | [] => EmptyString
        | y :: b2 =>
            if second_ok lead y then
              match b2 with
              | [] => EmptyString
              | z :: b3 =>
                  if continuation z then
                    match b3 with
                    | [] => EmptyString
                    | w :: b4 =>
                        if continuation w then
                          String (ascii_of_byte x)
                            (String (ascii_of_byte y)
                               (String (ascii_of_byte z)
                                  (String (ascii_of_byte w) (decode_ignore b4))))
                        else decode_ignore b3
                    end
                  else decode_ignore b2
              end
            else decode_ignore b1
        end
      else decode_ignore b1
  end.

Inductive endian := Little | Big.

(** The unsigned number the bytes spell, most significant byte first. *)
Definition be_number (bs : list byte) : N :=
  fold_left (λ acc b, (256 * acc + Byte.to_N b)%N) bs 0%N.

Definition number (e : endian) (bs : list byte) : N :=
  match e with
  | Big => be_number bs
  | Little => be_number (rev bs)
  end.

(** [struct.unpack(endian + 'H', bs)[0]]; [None] stands for [struct.error],
    raised unless [bs] has exactly two bytes. *)
Definition unpack_H (e : endian) (bs : list byte) : option N :=
  if Nat.eqb (length bs) 2 then Some (number e bs) else None.

(** [struct.unpack(endian + 'L', bs)[0]], for exactly four bytes. *)
Definition unpack_L (e : endian) (bs : list byte) : option N :=
  if Nat.eqb (length bs) 4 then Some (number e bs) else None.

Definition of_string (s : string) : list byte := list_byte_of_string s.

Definition eqb (a b : list byte) : bool :=
  bool_decide (map Byte.to_N a = map Byte.to_N b).

Fixpoint starts_with (p data : list byte) : bool :=
  match p, data with
  | [], _ => true
  | x :: p', y :: data' => N.eqb (Byte.to_N x) (Byte.to_N y) && starts_with p' data'
  | _ :: _, [] => false
  end.

End Bytes.

(** ** The binary parser: IFD, TIFF header, marker segments *)

Module Tiff.
Import Text Bytes.

Section WithPlatform.
Context {platform : Platform}.

Definition UNKNOWN_PAIR : string * string := (UNKNOWN_TIME, UNKNOWN_MODEL).

Definition differs (a b : string) : bool := negb (String.eqb a b).

(** The body of the [for i in range(num_entries)] loop of [parse_ifd], from
    the state [(date_time, camera_model)]; [None] stands for an exception
    that leaves the loop. *)
Definition ifd_entry (tiff_data : list byte) (entry_start : N) (e : endian)
    (st : string * string) (i : nat) : option (string * string) :=
  let '(date_time, camera_model) := st in
  let entry_offset := (entry_start + N.of_nat i * 12)%N in
  if (len tiff_data <? entry_offset + 12)%N then Some st
  else
    let entry_data := slice tiff_data entry_offset (entry_offset + 12) in
    if length entry_data <? 12 then Some st
    else
      tag_id ← unpack_H e (slice entry_data 0 2);
      data_type ← unpack_H e (slice entry_data 2 4);
      count ← unpack_L e (slice entry_data 4 8);
      value_offset ← unpack_L e (slice entry_data 8 12);
      if N.eqb tag_id 306 || N.eqb tag_id 36867 || N.eqb tag_id 36868 then
        if (count <? 20)%N then
          if (count <=? 4)%N then
            let value_data := slice entry_data 8 12 in
            Some st
          else if (value_offset <? len tiff_data)%N then
            let value_data := slice tiff_data value_offset (value_offset + count) in
            if (count <=? len value_data)%N then
              let date_str := strip_nul (decode_ignore value_data) in
              if truthy date_str && differs date_str SENTINEL then
                let formatted_time := Normalizer.format_datetime_string date_str in
                if differs formatted_time UNKNOWN_TIME
                then Some (formatted_time, camera_model)
                else Some st
              else Some st
            else Some st
          else Some st
        else Some st
      else if N.eqb tag_id 272 then
        if (count <=? 4)%N then
          let value_data := slice entry_data 8 12 in
          Some st
        else if (value_offset <? len tiff_data)%N then
          let value_data := slice tiff_data value_offset (value_offset + count) in
          if (count <=? len value_data)%N then
            let model_str :=
              remove_spaces (strip (strip_nul (decode_ignore value_data))) in
            if truthy model_str then Some (date_time, model_str) else Some st
          else Some st
        else Some st
      else if N.eqb tag_id 271 then
        if (count <=? 4)%N then
          let value_data := slice entry_data 8 12 in
          Some st
        else if (value_offset <? len tiff_data)%N then
          let value_data := slice tiff_data value_offset (value_offset + count) in
          if (count <=? len value_data)%N then
            let make_str :=
              remove_spaces (strip (strip_nul (decode_ignore value_data))) in
            if truthy make_str && String.eqb camera_model UNKNOWN_MODEL
            then Some (date_time, make_str)
            else Some st
          else Some st
        else Some st
      else Some st.

(** The entry loop: the state is threaded through the entry indices. *)
Fixpoint ifd_entries (tiff_data : list byte) (entry_start : N) (e : endian)
    (st : string * string) (indices : list nat) : option (string * string) :=
  match indices with
  | [] => Some st
  | i :: rest =>
      match ifd_entry tiff_data entry_start e st i with
      | Some st' => ifd_entries tiff_data entry_start e st' rest
      | None => None
      end
  end.

(** [parse_ifd(tiff_data, offset, endian)]; the [except] clause answers an
    exception with the unknown pair. *)
Definition parse_ifd (tiff_data : list byte) (offset : N) (e : endian)
  : string * string :=
  if (len tiff_data <? offset + 2)%N then UNKNOWN_PAIR
  else
    from_option id UNKNOWN_PAIR
      (num_entries ← unpack_H e (slice tiff_data offset (offset + 2));
       let entry_start := (offset + 2)%N in
       ifd_entries tiff_data entry_start e UNKNOWN_PAIR
         (seq 0 (N.to_nat num_entries))).

(** The time an IFD entry contributes, read off the entry alone: the entry
    lies in the block, its tag id is 306, 36867 or 36868, its count is above
    4 and below 20, its value lies in the block, and the value, decoded and
    freed of NUL characters at both ends, is not empty, not the sentinel, and
    normalizes. *)
Definition entry_time (tiff_data : list byte) (entry_start : N) (e : endian)
    (i : nat) : option string :=
  let entry_offset := (entry_start + N.of_nat i * 12)%N in
  if (len tiff_data <? entry_offset + 12)%N then None
  else
    let entry_data := slice tiff_data entry_offset (entry_offset + 12) in
    let tag_id := number e (slice entry_data 0 2) in
    let count := number e (slice entry_data 4 8) in
    let value_offset := number e (slice entry_data 8 12) in
    if (N.eqb tag_id 306 || N.eqb tag_id 36867 || N.eqb tag_id 36868)
       && (4 <? count)%N && (count <? 20)%N
       && (value_offset + count <=? len tiff_data)%N
    then
      let date_str :=
        strip_nul
          (decode_ignore (slice tiff_data value_offset (value_offset + count))) in
      let formatted_time := Normalizer.format_datetime_string date_str in
      if truthy date_str && differs date_str SENTINEL
         && differs formatted_time UNKNOWN_TIME
      then Some formatted_time
      else None
    else None.


(** The camera text an IFD entry contributes under the tag id [tag]: the
    entry lies in the block, its tag id is [tag], its count is above 4, its
    value lies in the block, and the value, decoded, freed of NUL characters
    and of white space at both ends and of its spaces, is not empty. *)
Definition entry_text (tag : N) (tiff_data : list byte) (entry_start : N)
    (e : endian) (i : nat) : option string :=
  let entry_offset := (entry_start + N.of_nat i * 12)%N in
  if (len tiff_data <? entry_offset + 12)%N then None
  else
    let entry_data := slice tiff_data entry_offset (entry_offset + 12) in
    let tag_id := number e (slice entry_data 0 2) in
    let count := number e (slice entry_data 4 8) in
    let value_offset := number e (slice entry_data 8 12) in
    if N.eqb tag_id tag && (4 <? count)%N
       && (value_offset + count <=? len tiff_data)%N
    then
      let text :=
        remove_spaces
          (strip
             (strip_nul
                (decode_ignore
                   (slice tiff_data value_offset (value_offset + count))))) in
      if truthy text then Some text else None
    else None.

(** The usable texts of the entries of an IFD with tag id [tag], in the
    stored order of their entries. *)
Definition ifd_texts (tag : N) (tiff_data : list byte) (offset : N)
    (e : endian) : list string :=
  if (len tiff_data <? offset + 2)%N then []
  else
    omap (entry_text tag tiff_data (offset + 2) e)
      (seq 0 (N.to_nat (number e (slice tiff_data offset (offset + 2))))).

(** [parse_tiff_data(tiff_data)] *)
Definition parse_tiff_data (tiff_data : list byte) : string * string :=
  if (len tiff_data <? 8)%N then UNKNOWN_PAIR
  else
    let byte_order := slice tiff_data 0 2 in
    let endian :=
      if eqb byte_order (of_string "II") then Some Little
      else if eqb byte_order (of_string "MM") then Some Big
      else None in
    match endian with
    | None => UNKNOWN_PAIR
    | Some e =>
        from_option id UNKNOWN_PAIR
          (tiff_id ← unpack_H e (slice tiff_data 2 4);
           if negb (N.eqb tiff_id 42) then Some UNKNOWN_PAIR
           else
             ifd_offset ← unpack_L e (slice tiff_data 4 8);
             Some (parse_ifd tiff_data ifd_offset e))
    end.

Definition EXIF_SIGNATURE : list byte :=
  [x45; x78; x69; x66; x00; x00]%byte.

(** The [while True] loop of [parse_raw_exif] with the file position [pos];
    the outer [None] is an exhausted fuel, the inner [None] an exception or a
    [break]: both end in the unknown pair. *)
Fixpoint walk_markers (fuel : nat) (data : list byte) (pos : N)
  : option (option (string * string)) :=
  match fuel with
  | 0 => None
  | S fuel' =>
      let marker := slice data pos (pos + 2) in
      match marker with
      | [m0; m1] =>
          if negb (N.eqb (Byte.to_N m0) 255) then Some None
          else if N.eqb (Byte.to_N m1) 225 then
            match unpack_H Big (slice data (pos + 2) (pos + 4)) with
            | None => Some None
            | Some length =>
                if N.eqb length 0 then Some None
                else
                  let exif_data :=
                    if N.eqb length 1 then slice data (pos + 4) (len data)
                    else slice data (pos + 4) (pos + 4 + (length - 2)) in
                  if starts_with EXIF_SIGNATURE exif_data
                  then Some (Some (parse_tiff_data (drop 6 exif_data)))
                  else walk_markers fuel' data (pos + 4 + len exif_data)
            end
          else if (224 <=? Byte.to_N m1)%N && (Byte.to_N m1 <=? 239)%N then
            match unpack_H Big (slice data (pos + 2) (pos + 4)) with
            | None => Some None
            | Some length => walk_markers fuel' data (pos + 2 + length)
            end
          else Some None
      | _ => Some None
      end
  end.

(** [parse_raw_exif(filepath)] on what [open(filepath, 'rb')] reads. *)
Definition parse_raw_exif (file : option (list byte)) : string * string :=
  match file with
  | None => UNKNOWN_PAIR
  | Some data =>
      let header := slice data 0 2 in
      if negb (eqb header [xff; xd8]%byte) then UNKNOWN_PAIR
      else
        match walk_markers (S (length data)) data 2 with
        | Some (Some r) => r
        | _ => UNKNOWN_PAIR
        end
  end.

End WithPlatform.

End Tiff.

(** ** Exceptions *)

Module Control.

(** The result of a statement sequence that may raise. *)
Inductive exc (A : Type) :=
| Ok (a : A)
| Raise.
Arguments Ok {A} a.
Arguments Raise {A}.

(** [try: body  except Exception: pass]: a raised exception is dropped and
    the code after the block goes on, as when the body ends without
    [return]. *)
Definition suppress {A : Type} (body : exc (option A)) : option A :=
  match body with
  | Ok r => r
  | Raise => None
  end.

End Control.

(** ** The worker that reads the files *)

Module ExifWorker.
Import Text Exif Control.

Section WithPlatform.
Context {platform : Platform}.

(** The priority order of the time fields. *)
Definition time_fields : list string :=
  [ "DateTimeOriginal"; "DateTime"; "DateTimeDigitized"; "CreateDate";
    "ModifyDate" ].

(** The three branches on the type of a raw value, before [.strip()]. *)
Definition text_of (raw_value : raw_value) : string :=
  match raw_value with
  | VBytes b => Bytes.decode_ignore b
  | VStr s => s
  | VOther str => str
  end.

(** [tag == name] for [tag = TAGS.get(tag_id, tag_id)]: an id without a name
    stays a number and equals no name. *)
Definition tag_is (TAGS : gmap Z string) (tag_id : Z) (name : string) : bool :=
  match TAGS !! tag_id with
  | Some tag => String.eqb tag name
  | None => false
  end.

Definition tag_in (TAGS : gmap Z string) (tag_id : Z) (names : list string)
  : bool :=
  existsb (tag_is TAGS tag_id) names.

(** A value that counts as a time: not empty, not the all-zero sentinel. *)
Definition usable (value : string) : bool :=
  truthy value && negb (String.eqb value SENTINEL).

(** The [Model] and [Make] branches, the same in both passes. *)
Definition note_camera (TAGS : gmap Z string) (tag_id : Z) (raw : raw_value)
    (camera_model : string) : string :=
  if tag_is TAGS tag_id "Model" then remove_spaces (strip (text_of raw))
  else if tag_is TAGS tag_id "Make" then
    let make := strip (text_of raw) in
    if truthy make && String.eqb camera_model UNKNOWN_MODEL
    then remove_spaces make
    else camera_model
  else camera_model.

(** The inner loop [for tag_id in exifdata] for one field; it ends at the
    first usable value of the field ([break]). *)
Fixpoint scan_field (TAGS : gmap Z string) (field : string)
    (exifdata : list (Z * raw_value)) (camera_model : string)
  : option string * string :=
  match exifdata with
  | [] => (None, camera_model)
  | (tag_id, raw) :: rest =>
      if tag_is TAGS tag_id field then
        let value := strip (text_of raw) in
        if usable value then (Some value, camera_model)
        else scan_field TAGS field rest camera_model
      else
        scan_field TAGS field rest (note_camera TAGS tag_id raw camera_model)
  end.

(** The outer loop [for field in time_fields]; it ends once a time is
    found. *)
Fixpoint scan_fields (TAGS : gmap Z string) (fields : list string)
    (exifdata : list (Z * raw_value)) (camera_model : string)
  : option string * string :=
  match fields with
  | [] => (None, camera_model)
  | field :: rest =>
      match scan_field TAGS field exifdata camera_model with
      | (Some value, camera_model') => (Some value, camera_model')
      | (None, camera_model') => scan_fields TAGS rest exifdata camera_model'
      end
  end.

(** The second pass, run when the first found no time: any time field. *)
Fixpoint scan_any (TAGS : gmap Z string) (exifdata : list (Z * raw_value))
    (camera_model : string) : option string * string :=
  match exifdata with
  | [] => (None, camera_model)
  | (tag_id, raw) :: rest =>
      if tag_in TAGS tag_id time_fields then
        let value := strip (text_of raw) in
        if usable value then (Some value, camera_model)
        else scan_any TAGS rest camera_model
      else scan_any TAGS rest (note_camera TAGS tag_id raw camera_model)
  end.

(** The raw time and the camera model the two passes end with. *)
Definition search_tags (TAGS : gmap Z string) (exifdata : list (Z * raw_value))
  : option string * string :=
  match scan_fields TAGS time_fields exifdata UNKNOWN_MODEL with
  | (Some value, camera_model) => (Some value, camera_model)
  | (None, camera_model) => scan_any TAGS exifdata camera_model
  end.

(** The search as the specification words it: within one priority level the
    first usable value among the tags of that name, and over the levels the
    first level that has one. *)
Fixpoint first_usable_of (TAGS : gmap Z string) (field : string)
    (exifdata : list (Z * raw_value)) : option string :=
  match exifdata with
  | [] => None
  | (tag_id, raw) :: rest =>
      if tag_is TAGS tag_id field && usable (strip (text_of raw))
      then Some (strip (text_of raw))
      else first_usable_of TAGS field rest
  end.

Fixpoint by_priority (TAGS : gmap Z string) (fields : list string)
    (exifdata : list (Z * raw_value)) : option string :=
  match fields with
  | [] => None
  | field :: rest =>
      match first_usable_of TAGS field exifdata with
      | Some value => Some value
      | None => by_priority TAGS rest exifdata
      end
  end.

(** [parse_exif_with_pil(exifdata)] *)
Definition parse_exif_with_pil (TAGS : gmap Z string)
    (exifdata : list (Z * raw_value)) : string * string :=
  match search_tags TAGS exifdata with
  | (Some date_time, camera_model) =>
      let formatted_datetime := Normalizer.format_datetime_string date_time in
      if Tiff.differs formatted_datetime UNKNOWN_TIME
      then (formatted_datetime, camera_model)
      else (UNKNOWN_TIME, camera_model)
  | (None, camera_model) => (UNKNOWN_TIME, camera_model)
  end.

(** The test [if date_time and date_time != "未知时间"] with its [return]. *)
Definition accept (r : string * string)
  : option (string * string * option string) :=
  let '(date_time, camera_model) := r in
  if truthy date_time && Tiff.differs date_time UNKNOWN_TIME
  then Some (date_time, camera_model, None)
  else None.

(** The body of one of the first three [try] blocks. *)
Definition tag_stage (TAGS : gmap Z string) (src : stage_source)
  : exc (option (string * string * option string)) :=
  match src with
  | Raised => Raise
  | Missing => Ok None
  | Tags [] => Ok None
  | Tags exifdata => Ok (accept (parse_exif_with_pil TAGS exifdata))
  end.

(** The body of the fourth [try] block. *)
Definition raw_stage (file : option (list byte))
  : exc (option (string * string * option string)) :=
  Ok (accept (Tiff.parse_raw_exif file)).

Definition NO_EXIF : string := "无EXIF信息".

(** [get_advanced_exif_data(filepath)] on what the file gives.  Every
    statement of the outer [try] but the last [return] lies in an inner
    [try], so the outer [except] is never entered. *)
Definition get_advanced_exif_data (TAGS : gmap Z string) (file : image_file)
  : string * string * option string :=
  match suppress (tag_stage TAGS (via_getexif file)) with
  | Some r => r
  | None =>
  match suppress (tag_stage TAGS (via_getexif_legacy file)) with
  | Some r => r
  | None =>
  match suppress (tag_stage TAGS (via_exif_attribute file)) with
  | Some r => r
  | None =>
  match suppress (raw_stage (content file)) with
  | Some r => r
  | None => (UNKNOWN_TIME, UNKNOWN_MODEL, Some NO_EXIF)
  end end end end.

(** A stage whose accessor gives a usable time that does not normalize. *)
Definition unparsed (TAGS : gmap Z string) (src : stage_source) : bool :=
  match src with
  | Tags exifdata =>
      match search_tags TAGS exifdata with
      | (Some date_time, _) =>
          String.eqb (Normalizer.format_datetime_string date_time) UNKNOWN_TIME
      | (None, _) => false
      end
  | _ => false
  end.

(** A result dictionary of [process_files].  The dictionaries with an error
    carry the keys of [Failed], those with [error = None] the keys of
    [Named]. *)
Inductive outcome :=
| Failed (filepath old_name : string) (date_time camera_model : option string)
    (error new_name : string)
| Named (filepath old_name date_time camera_model base_name extension : string).

Definition filepath (r : outcome) : string :=
  match r with
  | Failed filepath _ _ _ _ _ => filepath
  | Named filepath _ _ _ _ _ => filepath
  end.

(** What a path holds; a path that is not on disk opens to nothing. *)
Definition file_at (disk : gmap string image_file) (filepath : string)
  : image_file :=
  from_option id
    {| via_getexif := Raised; via_getexif_legacy := Raised;
       via_exif_attribute := Raised; content := None |}
    (disk !! filepath).

(** The body of the [try] block of [process_files], up to the value that is
    appended to [results]. *)
Definition examine (HEIC_SUPPORT : bool) (TAGS : gmap Z string)
    (disk : gmap string image_file) (filepath : string) : exc outcome :=
  let old_name := Path.basename filepath in
  let ext := Path.splitext_ext old_name in
  if (String.eqb (Path.lower ext) ".heic" || String.eqb (Path.lower ext) ".heif")
     && negb HEIC_SUPPORT
  then Ok (Failed filepath old_name None None "NO_HEIC_SUPPORT"
             ("NOHEIC_" +:+ old_name))
  else
    let '(date_time, camera_model, error_msg) :=
      get_advanced_exif_data TAGS (file_at disk filepath) in
    if from_option (contains "错误:") false error_msg
    then Ok (Failed filepath old_name None None "EXIF_ERROR"
               ("ERROR_" +:+ old_name))
    else if String.eqb date_time UNKNOWN_TIME
    then Ok (Failed filepath old_name (Some "无时间信息") (Some "无相机信息")
               "NO_EXIF_TIME" ("NOEXIF_" +:+ old_name))
    else
      let base_name := date_time +:+ "_" +:+ camera_model in
      Ok (Named filepath old_name date_time camera_model base_name ext).

(** The [except Exception] clause of [process_files]. *)
Definition recover (filepath : string) : outcome :=
  Failed filepath (Path.basename filepath) None None "PROCESS_ERROR"
    ("ERROR_" +:+ Path.basename filepath).

(** The loop of [process_files] from index [i], for any loop body: [results]
    and the emitted progress events grow by one per file; an exception that
    leaves the [except] clause would end the loop with [Raise]. *)
Fixpoint scan_loop (body : string → exc outcome) (handler : string → exc outcome)
    (total_files : nat) (i : nat) (file_paths : list string)
    (results : list outcome) (progress : list (nat * nat))
  : exc (list outcome * list (nat * nat)) :=
  match file_paths with
  | [] => Ok (results, progress)
  | filepath :: rest =>
      let appended :=
        match body filepath with
        | Ok result => Ok (results ++ [result])
        | Raise =>
            match handler filepath with
            | Ok result => Ok (results ++ [result])
            | Raise => Raise
            end
        end in
      match appended with
      | Ok results' =>
          scan_loop body handler total_files (S i) rest results'
            (progress ++ [(i + 1, total_files)])
      | Raise => Raise
      end
  end.

(** [process_files()]: the results handed to [finished] and the progress
    events. *)
Definition process_files (HEIC_SUPPORT : bool) (TAGS : gmap Z string)
    (disk : gmap string image_file) (file_paths : list string)
  : exc (list outcome * list (nat * nat)) :=
  scan_loop (examine HEIC_SUPPORT TAGS disk) (λ filepath, Ok (recover filepath))
    (length file_paths) 0 file_paths [] [].

End WithPlatform.

End ExifWorker.

(** ** The file system *)

Module FS.

(** [files]: the existing paths with what they hold.
    [locked]: the paths the operating system refuses to rename (missing
    permission, file in use). *)
Record t := { files : gmap string Exif.image_file; locked : gset string }.

Definition present (fs : t) : gset string := dom (files fs).

(** [os.path.exists(p)] *)
Definition path_exists (fs : t) (p : string) : bool :=
  bool_decide (p ∈ present fs).

(** [os.rename(old, new)]; [None] stands for a raised [OSError]. *)
Definition rename (fs : t) (old new : string) : option t :=
  match files fs !! old with
  | Some f =>
      if bool_decide (old ∈ locked fs) then None
      else Some {| files := <[new := f]> (delete old (files fs));
                   locked := locked fs |}
  | None => None
  end.

End FS.

(** ** Unique file names *)

Module Planner.

(** [f"{base_name}_{counter}{extension}"] *)
Definition suffixed (base_name : string) (counter : nat) (extension : string)
  : string :=
  base_name +:+ "_" +:+ pretty counter +:+ extension.

(** The [while True] loop of [generate_unique_filename_preview]. *)
Fixpoint preview_loop (fuel : nat) (base_name extension : string)
    (existing_names : gset string) (counter : nat) : option string :=
  match fuel with
  | 0 => None
  | S fuel' =>
      let candidate := suffixed base_name counter extension in
      if bool_decide (candidate ∉ existing_names) then Some candidate
      else preview_loop fuel' base_name extension existing_names (S counter)
  end.

Definition generate_unique_filename_preview (fuel : nat)
    (base_name extension : string) (existing_names : gset string)
  : option string :=
  let candidate := base_name +:+ extension in
  if bool_decide (candidate ∉ existing_names) then Some candidate
  else preview_loop fuel base_name extension existing_names 1.

(** The [while True] loop of [generate_unique_filename_actual]. *)
Fixpoint actual_loop (fuel : nat) (base_name extension folder_path : string)
    (used_names : gset string) (fs : FS.t) (counter : nat) : option string :=
  match fuel with
  | 0 => None
  | S fuel' =>
      let candidate := suffixed base_name counter extension in
      let full_path := Path.join folder_path candidate in
      if bool_decide (candidate ∉ used_names) && negb (FS.path_exists fs full_path)
      then Some candidate
      else actual_loop fuel' base_name extension folder_path used_names fs
             (S counter)
  end.

Definition generate_unique_filename_actual (fuel : nat)
    (base_name extension folder_path : string) (used_names : gset string)
    (fs : FS.t) : option string :=
  let candidate := base_name +:+ extension in
  let full_path := Path.join folder_path candidate in
  if bool_decide (candidate ∈ used_names) || FS.path_exists fs full_path
  then actual_loop fuel base_name extension folder_path used_names fs 1
  else Some candidate.

(** A candidate passes the test of the execution mode when it is neither
    claimed nor on disk. *)
Definition free_actual (folder_path : string) (used_names : gset string)
    (fs : FS.t) (c : string) : Prop :=
  (c ∉ used_names) ∧ FS.path_exists fs (Path.join folder_path c) = false.

(** The naming loop of [update_preview_table]: the rows without error get a
    name, which joins [used_names] before the next row. *)
Fixpoint preview_batch (fuel : nat) (rows : list (string * string))
    (used_names : gset string) : option (list string) :=
  match rows with
  | [] => Some []
  | (base_name, ext) :: rest =>
      match generate_unique_filename_preview fuel base_name ext used_names with
      | None => None
      | Some new_name =>
          match preview_batch fuel rest ({[new_name]} ∪ used_names) with
          | None => None
          | Some names => Some (new_name :: names)
          end
      end
  end.

End Planner.

(** ** The worker that renames the files *)

Module RenameWorker.
Import Control.

Section WithPlatform.
Context {platform : Platform}.

Record task := {
  filepath : string;
  new_path : string;
  base_name : string;
  extension : string
}.

(** The loop [while os.path.exists(new_path)]: the path it leaves with. *)
Fixpoint free_path (fuel : nat) (t : task) (fs : FS.t) (new_path : string)
    (counter : nat) : option string :=
  match fuel with
  | 0 => None
  | S fuel' =>
      if FS.path_exists fs new_path then
        let name_part := base_name t +:+ "_" +:+ pretty counter in
        free_path fuel' t fs
          (Path.join (Path.dirname (filepath t)) (name_part +:+ extension t))
          (S counter)
      else Some new_path
  end.

(** The body of the [try] block for one task: the disk after [os.rename], or
    the exception it raised. *)
Definition rename_one (fuel : nat) (t : task) (fs : FS.t) : option (exc FS.t) :=
  match free_path fuel t fs (new_path t) 1 with
  | None => None
  | Some target =>
      match FS.rename fs (filepath t) target with
      | Some fs' => Some (Ok fs')
      | None => Some Raise
      end
  end.

(** The counters, the emitted progress events and the disk; [raised]: an
    exception has left the method, so that [finished] is not emitted. *)
Record tally := {
  success_count : nat;
  error_count : nat;
  progress : list (nat * nat);
  disk : FS.t;
  raised : bool
}.

(** The [print] of the [except] clause for the task: the message names the
    file and, in the text of the error, the path [os.rename] was given. *)
Definition report (fuel : nat) (t : task) (fs : FS.t) : bool :=
  match free_path fuel t fs (new_path t) 1 with
  | Some target => prints (filepath t) target
  | None => true
  end.

(** The loop of [rename_files] from index [i].  In the [except] clause the
    failure is counted and then printed; when [print] raises, the exception
    leaves the loop before the progress event of the task. *)
Fixpoint rename_loop (fuel : nat) (total_files : nat) (i : nat)
    (rename_tasks : list task) (st : tally) : option tally :=
  match rename_tasks with
  | [] => Some st
  | t :: rest =>
      match rename_one fuel t (disk st) with
      | None => None
      | Some (Ok fs') =>
          rename_loop fuel total_files (S i) rest
            {| success_count := success_count st + 1;
               error_count := error_count st;
               progress := progress st ++ [(i + 1, total_files)];
               disk := fs';
               raised := raised st |}
      | Some Raise =>
          if report fuel t (disk st) then
            rename_loop fuel total_files (S i) rest
              {| success_count := success_count st;
                 error_count := error_count st + 1;
                 progress := progress st ++ [(i + 1, total_files)];
                 disk := disk st;
                 raised := raised st |}
          else
            Some {| success_count := success_count st;
                    error_count := error_count st + 1;
                    progress := progress st;
                    disk := disk st;
                    raised := true |}
      end
  end.

(** [rename_files()]: the counts, the progress events and the disk it
    leaves; the counts are handed to [finished] unless an exception has left
    the method. *)
Definition rename_files (fuel : nat) (rename_tasks : list task) (fs : FS.t)
  : option tally :=
  rename_loop fuel (length rename_tasks) 0 rename_tasks
    {| success_count := 0; error_count := 0; progress := []; disk := fs;
       raised := false |}.

End WithPlatform.

End RenameWorker.

(** ** The main window *)

Module App.
Import Control.

Section WithPlatform.
Context {platform : Platform}.

Definition image_extensions : list string :=
  [ ".jpg"; ".jpeg"; ".png"; ".gif"; ".bmp"; ".tiff"; ".webp";
    ".cr2"; ".nef"; ".arw"; ".dng"; ".orf"; ".rw2"; ".pef";
    ".heic"; ".heif" ].

(** What the user is told in a message box. *)
Inductive notice :=
| SelectFolderFirst
| AlreadyRenamed
| PreviewFirst
| NothingToRename
| RenameFinished (success_count error_count : nat).

(** The fields of the window the rename logic reads and writes, the disk, and
    the message boxes shown so far. *)
Record state := {
  selected_files : list string;
  preview_results : list ExifWorker.outcome;
  rename_completed : bool;
  rename_btn_enabled : bool;
  disk : FS.t;
  notices : list notice
}.

(** The runtime the window works in. *)
Record runtime := {
  HEIC_SUPPORT : bool;
  TAGS : gmap Z string;
  fuel : nat
}.

Definition init (fs : FS.t) : state :=
  {| selected_files := []; preview_results := []; rename_completed := false;
     rename_btn_enabled := false; disk := fs; notices := [] |}.

(** [reset_all()] *)
Definition reset_all (s : state) : state :=
  {| selected_files := []; preview_results := []; rename_completed := false;
     rename_btn_enabled := false; disk := disk s; notices := notices s |}.

Fixpoint insert_sorted (x : string) (l : list string) : list string :=
  match l with
  | [] => [x]
  | y :: l' => if String.leb x y then x :: l else y :: insert_sorted x l'
  end.

(** [sorted(files)] *)
Definition sorted (l : list string) : list string := foldr insert_sorted [] l.

(** [select_folder()]: the dialog gives the folder path, empty when it is
    cancelled; [listing] is what [os.listdir] answers. *)
Definition select_folder (folder_path : string) (listing : list string)
    (s : state) : state :=
  if Text.truthy folder_path then
    let s' := reset_all s in
    let files :=
      map (Path.join folder_path)
        (List.filter
           (λ filename,
              bool_decide (Path.lower (Path.splitext_ext filename)
                           ∈ image_extensions))
           listing) in
    {| selected_files := sorted files; preview_results := preview_results s';
       rename_completed := rename_completed s';
       rename_btn_enabled := rename_btn_enabled s';
       disk := disk s'; notices := notices s' |}
  else s.

(** [r['error'] is None] *)
Definition is_named (r : ExifWorker.outcome) : bool :=
  match r with
  | ExifWorker.Named _ _ _ _ _ _ => true
  | ExifWorker.Failed _ _ _ _ _ _ => false
  end.

(** [sum(1 for r in results if r['error'] is None)] *)
Definition count_named (results : list ExifWorker.outcome) : nat :=
  length (List.filter is_named results).

(** [on_preview_finished(results)] *)
Definition on_preview_finished (results : list ExifWorker.outcome) (s : state)
  : state :=
  {| selected_files := selected_files s; preview_results := results;
     rename_completed := rename_completed s;
     rename_btn_enabled :=
       if negb (rename_completed s) then bool_decide (0 < count_named results)
       else rename_btn_enabled s;
     disk := disk s; notices := notices s |}.

(** [preview_names()], with the worker run to its end. *)
Definition preview_names (rt : runtime) (s : state) : state :=
  match selected_files s with
  | [] =>
      {| selected_files := selected_files s;
         preview_results := preview_results s;
         rename_completed := rename_completed s;
         rename_btn_enabled := rename_btn_enabled s; disk := disk s;
         notices := notices s ++ [SelectFolderFirst] |}
  | _ =>
      match ExifWorker.process_files (HEIC_SUPPORT rt) (TAGS rt)
              (FS.files (disk s)) (selected_files s) with
      | Ok (results, _) => on_preview_finished results s
      | Raise => s
      end
  end.

(** The loop of [rename_files] that prepares the tasks. *)
Fixpoint plan_tasks (fuel : nat) (results : list ExifWorker.outcome)
    (used_names : gset string) (fs : FS.t) : option (list RenameWorker.task) :=
  match results with
  | [] => Some []
  | ExifWorker.Failed _ _ _ _ _ _ :: rest => plan_tasks fuel rest used_names fs
  | ExifWorker.Named filepath _ _ _ base_name ext :: rest =>
      let folder_path := Path.dirname filepath in
      match Planner.generate_unique_filename_actual fuel base_name ext
              folder_path used_names fs with
      | None => None
      | Some new_name =>
          match plan_tasks fuel rest ({[new_name]} ∪ used_names) fs with
          | None => None
          | Some tasks =>
              Some ({| RenameWorker.filepath := filepath;
                       RenameWorker.new_path := Path.join folder_path new_name;
                       RenameWorker.base_name := base_name;
                       RenameWorker.extension := ext |} :: tasks)
          end
      end
  end.

Definition say (n : notice) (s : state) : state :=
  {| selected_files := selected_files s; preview_results := preview_results s;
     rename_completed := rename_completed s;
     rename_btn_enabled := rename_btn_enabled s; disk := disk s;
     notices := notices s ++ [n] |}.

(** [rename_files()], with the answer to the confirmation dialog and the
    worker run to its end; [None] is an exhausted fuel.  The flag and the
    button are set before the worker starts; the message box of
    [on_rename_finished] is shown when the worker emits [finished].  A worker
    that an exception has left emits nothing: the window stays as the
    request left it (where the exception hook of the toolkit ends the
    program instead, no later state exists). *)
Definition rename_files (rt : runtime) (reply_yes : bool) (s : state)
  : option state :=
  if rename_completed s then Some (say AlreadyRenamed s)
  else
    match preview_results s with
    | [] => Some (say PreviewFirst s)
    | _ =>
        match plan_tasks (fuel rt) (preview_results s) ∅ (disk s) with
        | None => None
        | Some [] => Some (say NothingToRename s)
        | Some rename_tasks =>
            if negb reply_yes then Some s
            else
              match RenameWorker.rename_files (fuel rt) rename_tasks (disk s) with
              | None => None
              | Some final =>
                  Some {| selected_files := selected_files s;
                          preview_results := preview_results s;
                          rename_completed := true;
                          rename_btn_enabled := false;
                          disk := RenameWorker.disk final;
                          notices :=
                            notices s
                            ++ (if RenameWorker.raised final then []
                                else [RenameFinished
                                        (RenameWorker.success_count final)
                                        (RenameWorker.error_count final)]) |}
              end
        end
    end.

(** What happens to the window. *)
Inductive event :=
| SelectFolder (folder_path : string) (listing : list string)
| ResetAll
| PreviewNames
| RenameFiles (reply_yes : bool).

Definition step (rt : runtime) (s : state) (ev : event) : option state :=
  match ev with
  | SelectFolder folder_path listing => Some (select_folder folder_path listing s)
  | ResetAll => Some (reset_all s)
  | PreviewNames => Some (preview_names rt s)
  | RenameFiles reply_yes => rename_files rt reply_yes s
  end.

Fixpoint run (rt : runtime) (s : state) (evs : list event) : option state :=
  match evs with
  | [] => Some s
  | ev :: rest =>
      match step rt s ev with
      | Some s' => run rt s' rest
      | None => None
      end
  end.

(** An event that goes through [reset_all]. *)
Definition resets (ev : event) : bool :=
  match ev with
  | SelectFolder folder_path _ => Text.truthy folder_path
  | ResetAll => true
  | _ => false
  end.

End WithPlatform.

End App.

(** ** Sample inputs *)

Module Sample.
Import Exif.

Definition byte_of (n : N) : byte := from_option id x00%byte (Byte.of_N (n mod 256)).

(** A number written little-endian in [width] bytes. *)
Fixpoint le (width : nat) (n : N) : list byte :=
  match width with
  | 0 => []
  | S w => byte_of n :: le w (n / 256)
  end.

(** A 12-byte IFD entry, little-endian. *)
Definition entry (tag_id data_type count value : N) : list byte :=
  le 2 tag_id ++ le 2 data_type ++ le 4 count ++ le 4 value.

Definition ascii_bytes (s : string) : list byte := list_byte_of_string s.

(** The header of a little-endian TIFF block whose IFD starts at offset 8. *)
Definition tiff_header : list byte := ascii_bytes "II" ++ le 2 42 ++ le 4 8.

(** A TIFF block with DateTime (306) stored before DateTimeOriginal (36867),
    both with 19 characters stored at an offset. *)
Definition two_times : list byte :=
  tiff_header ++ le 2 2
  ++ entry 306 2 19 38 ++ entry 36867 2 19 57 ++ le 4 0
  ++ ascii_bytes "2021:05:01 10:00:00" ++ ascii_bytes "2021:04:30 09:00:00".


(** A TIFF block with a time stored at an offset and a camera model of three
    characters and a NUL, stored in the entry itself. *)
Definition inline_model : list byte :=
  tiff_header ++ le 2 2
  ++ entry 306 2 19 38 ++ entry 272 2 4 (Bytes.be_number (rev (ascii_bytes "X10")))
  ++ le 4 0 ++ ascii_bytes "2021:05:01 10:00:00".

(** The same camera model stored at an offset, as five bytes. *)
Definition offset_model : list byte :=
  tiff_header ++ le 2 2
  ++ entry 306 2 19 38 ++ entry 272 2 5 57
  ++ le 4 0 ++ ascii_bytes "2021:05:01 10:00:00" ++ ascii_bytes "X10" ++ le 2 0.


(** A TIFF block with Model (272) stored before Make (271), both at an
    offset and closed by a NUL. *)
Definition model_then_make : list byte :=
  tiff_header ++ le 2 2
  ++ entry 272 2 7 44 ++ entry 271 2 6 38 ++ le 4 0
  ++ ascii_bytes "Canon" ++ le 1 0 ++ ascii_bytes "EOS R5" ++ le 1 0.

(** A TIFF block with two Make entries and no Model. *)
Definition two_makes : list byte :=
  tiff_header ++ le 2 2
  ++ entry 271 2 6 38 ++ entry 271 2 6 44 ++ le 4 0
  ++ ascii_bytes "Canon" ++ le 1 0 ++ ascii_bytes "Nikon" ++ le 1 0.

(** A JPEG file: start of image, an APP1 segment that holds [tiff]. *)
Definition jpeg (tiff : list byte) : list byte :=
  [xff; xd8; xff; xe1]%byte
  ++ rev (le 2 (N.of_nat (length tiff) + 8))
  ++ Tiff.EXIF_SIGNATURE ++ tiff.

(** A marker segment: FF, the type byte, the big-endian length of what
    follows (itself included), the payload. *)
Definition segment (kind : byte) (payload : list byte) : list byte :=
  [xff; kind]%byte ++ rev (le 2 (N.of_nat (length payload) + 2)) ++ payload.

(** A TIFF block whose DateTime has the twenty bytes of the EXIF standard:
    nineteen characters and a NUL. *)
Definition standard_time : list byte :=
  tiff_header ++ le 2 1 ++ entry 306 2 20 26 ++ le 4 0
  ++ ascii_bytes "2021:05:01 10:00:00" ++ le 1 0.

(** The names of the tags the program looks for, as the image library's table
    has them. *)
Definition TAGS : gmap Z string :=
  list_to_map [ (271%Z, "Make"); (272%Z, "Model"); (306%Z, "DateTime");
                (36867%Z, "DateTimeOriginal"); (36868%Z, "DateTimeDigitized") ].

(** The tag dictionary of the specification's example. *)
Definition two_tags : list (Z * raw_value) :=
  [ (306%Z, VStr "2021:05:01 10:00:00");
    (36867%Z, VStr "2021:04:30 09:00:00") ].

(** A file whose first accessor gives a time that does not parse, together
    with a camera model, and whose other accessors give nothing. *)
Definition bad_time_with_model : image_file :=
  {| via_getexif := Tags [ (272%Z, VStr "Canon EOS"); (306%Z, VStr "yesterday") ];
     via_getexif_legacy := Missing;
     via_exif_attribute := Missing;
     content := Some [] |}.

(** The same, with a second accessor that gives a time and no camera. *)
Definition bad_time_then_good : image_file :=
  {| via_getexif := Tags [ (272%Z, VStr "Canon EOS"); (306%Z, VStr "yesterday") ];
     via_getexif_legacy := Tags [ (306%Z, VStr "2021:05:01 10:00:00") ];
     via_exif_attribute := Missing;
     content := Some [] |}.

(** A file whose first accessor gives the two tags of [two_tags]. *)
Definition dated : image_file :=
  {| via_getexif := Tags two_tags; via_getexif_legacy := Missing;
     via_exif_attribute := Missing; content := Some [] |}.

(** A disk with the files a.jpg and c.jpg in /p; b.jpg has gone. *)
Definition second_missing : FS.t :=
  {| FS.files := list_to_map [ ("/p/a.jpg", dated); ("/p/c.jpg", dated) ];
     FS.locked := ∅ |}.

(** Three plans, for a.jpg, b.jpg and c.jpg. *)
Definition three_tasks : list RenameWorker.task :=
  [ {| RenameWorker.filepath := "/p/a.jpg"; RenameWorker.new_path := "/p/x.jpg";
       RenameWorker.base_name := "x"; RenameWorker.extension := ".jpg" |};
    {| RenameWorker.filepath := "/p/b.jpg"; RenameWorker.new_path := "/p/x_1.jpg";
       RenameWorker.base_name := "x"; RenameWorker.extension := ".jpg" |};
    {| RenameWorker.filepath := "/p/c.jpg"; RenameWorker.new_path := "/p/x_2.jpg";
       RenameWorker.base_name := "x"; RenameWorker.extension := ".jpg" |} ].

(** A disk with one dated photograph. *)
Definition one_photo : FS.t :=
  {| FS.files := list_to_map [ ("/p/a.jpg", dated) ]; FS.locked := ∅ |}.

Definition runtime : App.runtime :=
  {| App.HEIC_SUPPORT := false; App.TAGS := TAGS; App.fuel := 5 |}.

(** A machine with glibc and a standard output that takes every text. *)
Definition linux : Platform :=
  {| pads_year := false; prints := λ _ _, true |}.

(** A machine whose C library pads the year and whose standard output
    cannot take the failure message, which starts with Chinese text. *)
Definition narrow_output : Platform :=
  {| pads_year := true; prints := λ _ _, false |}.

(** A window whose batch has been renamed. *)
Definition renamed : App.state :=
  {| App.selected_files := [ "/p/a.jpg" ]; App.preview_results := [];
     App.rename_completed := true; App.rename_btn_enabled := false;
     App.disk := one_photo; App.notices := [] |}.

(** Select the folder, preview, rename. *)
Definition first_pass : list App.event :=
  [ App.SelectFolder "/p" [ "a.jpg"; "notes.txt" ]; App.PreviewNames;
    App.RenameFiles true ].

(** Select the folder again, preview, rename. *)
Definition second_pass : list App.event :=
  [ App.SelectFolder "/p" [ "20210430_090000_Unknown.jpg" ]; App.PreviewNames;
    App.RenameFiles true ].

(** What is on disk after the events, from a fresh window. *)
Definition disk_after (evs : list App.event) : option (list string) :=
  (λ s, elements (FS.present (App.disk s)))
    <$> App.run (platform := linux) runtime (App.init one_photo) evs.

(** The window after the selection of the folder and the preview. *)
Definition previewed : App.state :=
  from_option id (App.init one_photo)
    (App.run (platform := linux) runtime (App.init one_photo)
       [ App.SelectFolder "/p" [ "a.jpg"; "notes.txt" ]; App.PreviewNames ]).

End Sample.

(** ** Shapes and views used to state properties *)

Module View.
Import Text.

(** [s] without its first [n] characters, when these are digits. *)
Fixpoint after_digits (n : nat) (s : string) : option string :=
  match n with
  | 0 => Some s
  | S n' =>
      match s with
      | String c s' => if isdigit c then after_digits n' s' else None
      | EmptyString => None
      end
  end.

(** The shape YYYYMMDD_HHMMSS: eight digits, an underscore, six digits. *)
Definition is_canonical (s : string) : bool :=
  match after_digits 8 s with
  | Some (String c rest) =>
      Ascii.eqb c "_"
      && match after_digits 6 rest with
         | Some EmptyString => true
         | _ => false
         end
  | _ => false
  end.

(** The digits at the head of [s], counted, and what follows them. *)
Fixpoint leading_digits (s : string) : nat * string :=
  match s with
  | String c s' =>
      if isdigit c then
        let '(n, rest) := leading_digits s' in (S n, rest)
      else (0, s)
  | EmptyString => (0, s)
  end.

(** The shape of a time whatever the C library does with the year: the year
    in one to four digits, two digits each for month and day, an underscore,
    six digits. *)
Definition is_stamp (s : string) : bool :=
  let '(n, rest) := leading_digits s in
  (5 <=? n) && (n <=? 8)
  && match rest with
     | String c rest' =>
         Ascii.eqb c "_"
         && match after_digits 6 rest' with
            | Some EmptyString => true
            | _ => false
            end
     | EmptyString => false
     end.

(** [s] is what [strftime] writes for a date-time whose year the calendar
    of [datetime] has. *)
Definition stamped {platform : Platform} (s : string) : Prop :=
  ∃ dt, (1 ≤ Strptime.year dt)%N ∧ (Strptime.year dt ≤ 9999)%N
        ∧ s = Strptime.strftime dt.

(** A date-time the calendar has, in the range of [datetime]. *)
Definition valid (dt : Strptime.datetime) : bool :=
  ((1 <=? Strptime.year dt) && (Strptime.year dt <=? 9999)
   && (1 <=? Strptime.month dt) && (Strptime.month dt <=? 12)
   && (1 <=? Strptime.day dt)
   && (Strptime.day dt
       <=? Strptime.days_in_month (Strptime.year dt) (Strptime.month dt))
   && (Strptime.hour dt <=? 23) && (Strptime.minute dt <=? 59)
   && (Strptime.second dt <=? 59))%N.

(** The text of a date-time with [sep] between the fields of the date:
    YYYY:MM:DD HH:MM:SS is what EXIF writes, with [sep] the colon. *)
Definition written (sep : ascii) (dt : Strptime.datetime) : string :=
  Strptime.pad4 (Strptime.year dt) +:+ String sep ""
  +:+ Strptime.pad2 (Strptime.month dt) +:+ String sep ""
  +:+ Strptime.pad2 (Strptime.day dt) +:+ " "
  +:+ Strptime.pad2 (Strptime.hour dt) +:+ ":"
  +:+ Strptime.pad2 (Strptime.minute dt) +:+ ":"
  +:+ Strptime.pad2 (Strptime.second dt).

(** No candidate for [base_name] and [extension] exists in the folder. *)
Definition clear_of (fs : FS.t) (folder_path base_name extension : string)
  : Prop :=
  FS.path_exists fs (Path.join folder_path (base_name +:+ extension)) = false
  ∧ ∀ n, FS.path_exists fs
           (Path.join folder_path (Planner.suffixed base_name n extension))
         = false.

(** The first match of the items at the head of [s]: the groups [g] and the
    unread rest [r]. *)
Definition hits (items : list Strptime.item) (s : string)
    (found : Strptime.groups) (g : Strptime.groups) (r : string) : Prop :=
  ∃ l, Strptime.match_items items s found = Some ((g, r) :: l).

(** Every directive of the items is one the model knows. *)
Definition known (items : list Strptime.item) : Prop :=
  ∀ d, Strptime.Dir d ∈ items → is_Some (Strptime.alternatives d).


(** The rows [update_preview_table] names: the results without error. *)
Fixpoint rows_of (results : list ExifWorker.outcome) : list (string * string) :=
  match results with
  | [] => []
  | ExifWorker.Failed _ _ _ _ _ _ :: rest => rows_of rest
  | ExifWorker.Named _ _ _ _ base_name ext :: rest =>
      (base_name, ext) :: rows_of rest
  end.

(** The paths of the results without error. *)
Fixpoint named_paths (results : list ExifWorker.outcome) : list string :=
  match results with
  | [] => []
  | ExifWorker.Failed _ _ _ _ _ _ :: rest => named_paths rest
  | ExifWorker.Named filepath _ _ _ _ _ :: rest => filepath :: named_paths rest
  end.

End View.

(** * Properties *)

Section Properties.
Context {platform : Platform}.

(** ** Strings and paths *)

Lemma string_app_nil (b : string) : "" +:+ b = b.
Proof. reflexivity. Qed.

Lemma string_app_cons (c : ascii) (a b : string) :
  String c a +:+ b = String c (a +:+ b).
Proof. reflexivity. Qed.

Lemma string_app_length (a b : string) :
  String.length (a +:+ b) = String.length a + String.length b.
Proof.
  induction a as [|c a IH]; [done|].
  rewrite string_app_cons. simpl. by rewrite IH.
Qed.

Lemma string_app_inj_r (s a b : string) : a +:+ s = b +:+ s → a = b.
Proof.
  revert b. induction a as [|c a IH]; intros [|d b] H;
    rewrite ?string_app_cons, ?string_app_nil in H.
  - done.
  - apply (f_equal String.length) in H. simpl in H.
    rewrite string_app_length in H. lia.
  - apply (f_equal String.length) in H. simpl in H.
    rewrite string_app_length in H. lia.
  - injection H as -> H. f_equal. by apply IH.
Qed.

Lemma suffixed_inj base ext : Inj (=) (=) (λ n, Planner.suffixed base n ext).
Proof.
  intros n m H. unfold Planner.suffixed in H.
  apply (inj (String.app base)) in H.
  apply (inj (String.app "_")) in H.
  apply string_app_inj_r in H.
  by apply (inj pretty) in H.
Qed.

Lemma join_suffixed_inj folder base ext :
  Inj (=) (=) (λ n, Path.join folder (Planner.suffixed base n ext)).
Proof.
  intros n m H. apply (suffixed_inj base ext). simpl.
  unfold Path.join in H.
  assert (Hsw : Text.starts_with "/" (Planner.suffixed base n ext)
                = Text.starts_with "/" (Planner.suffixed base m ext)).
  { unfold Planner.suffixed. destruct base as [|c base]; [done|].
    rewrite !string_app_cons. simpl. by destruct (Ascii.eqb "/" c). }
  rewrite <- Hsw in H.
  destruct (Text.starts_with "/" (Planner.suffixed base n ext)); [done|].
  destruct (negb (Text.truthy folder) || Text.ends_with_char Path.sep folder).
  - by apply (inj (String.app folder)) in H.
  - apply (inj (String.app folder)) in H. by apply (inj (String.app "/")) in H.
Qed.

(** ** Searching a free name *)

Lemma size_remove (A : gset string) (x : string) :
  x ∈ A → size A = S (size (A ∖ {[x]})).
Proof.
  intros Hx.
  assert (Hsub : ({[x]} : gset string) ⊆ A) by set_solver.
  pose proof (size_difference A {[x]} Hsub) as Hd.
  pose proof (subseteq_size _ _ Hsub) as Hle.
  rewrite size_singleton in Hd, Hle. lia.
Qed.

Section Search.
Context (c1 c2 : nat → string).
Context (Hc1 : Inj (=) (=) c1) (Hc2 : Inj (=) (=) c2).

(** Two injective enumerations cannot stay inside two finite sets. *)
Lemma free_slot (A B : gset string) (start : nat) :
  ∃ n, (start ≤ n ∧ n ≤ start + (size A + size B)) ∧ (c1 n ∉ A) ∧ (c2 n ∉ B).
Proof.
  remember (size A + size B) as k eqn:Hk.
  revert A B start Hk.
  induction k as [k IH] using lt_wf_ind; intros A B start Hk.
  destruct (decide (c1 start ∈ A)) as [HA|HA].
  - pose proof (size_remove A _ HA) as Hs.
    destruct (IH (size (A ∖ {[c1 start]}) + size B) ltac:(lia)
                (A ∖ {[c1 start]}) B (S start) eq_refl) as (n & Hn & H1 & H2).
    exists n. split; [lia|]. split; [|done].
    intros Hin. apply H1. apply elem_of_difference. split; [done|].
    rewrite elem_of_singleton. intros Heq. apply Hc1 in Heq. lia.
  - destruct (decide (c2 start ∈ B)) as [HB|HB].
    + pose proof (size_remove B _ HB) as Hs.
      destruct (IH (size A + size (B ∖ {[c2 start]})) ltac:(lia)
                  A (B ∖ {[c2 start]}) (S start) eq_refl) as (n & Hn & H1 & H2).
      exists n. split; [lia|]. split; [done|].
      intros Hin. apply H2. apply elem_of_difference. split; [done|].
      rewrite elem_of_singleton. intros Heq. apply Hc2 in Heq. lia.
    + exists start. split; [lia|done].
Qed.
End Search.

(** ** The execution-mode generator *)

Section Actual.
Variables (base_name extension folder_path : string).
Variables (used_names : gset string) (fs : FS.t).

Let cand (n : nat) : string := Planner.suffixed base_name n extension.

Let free_actual := Planner.free_actual folder_path used_names fs.

Lemma free_actual_test (c : string) :
  bool_decide (c ∉ used_names)
    && negb (FS.path_exists fs (Path.join folder_path c)) = true
  ↔ free_actual c.
Proof.
  unfold free_actual, Planner.free_actual.
  rewrite andb_true_iff, bool_decide_eq_true, negb_true_iff.
  done.
Qed.

Lemma actual_loop_sound fuel counter r :
  Planner.actual_loop fuel base_name extension folder_path used_names fs counter
    = Some r →
  ∃ m, counter ≤ m ∧ r = cand m ∧ free_actual r
       ∧ ∀ k, counter ≤ k → k < m → ¬ free_actual (cand k).
Proof.
  revert counter. induction fuel as [|fuel IH]; intros counter H; [done|].
  simpl in H.
  destruct (bool_decide _ && negb _) eqn:Ht.
  - injection H as <-. exists counter. split; [lia|]. split; [done|].
    split; [by apply free_actual_test | intros; lia].
  - destruct (IH _ H) as (m & Hm & -> & Hf & Hmin).
    exists m. split; [lia|]. split; [done|]. split; [done|].
    intros k Hk1 Hk2. destruct (decide (k = counter)) as [->|Hne].
    + intros Hc. apply free_actual_test in Hc. unfold cand in Hc. congruence.
    + apply Hmin; lia.
Qed.

Lemma actual_loop_complete fuel counter n :
  counter ≤ n → n < counter + fuel → free_actual (cand n) →
  is_Some (Planner.actual_loop fuel base_name extension folder_path
             used_names fs counter).
Proof.
  revert counter. induction fuel as [|fuel IH]; intros counter H1 H2 Hf; [lia|].
  simpl. destruct (bool_decide _ && negb _) eqn:Ht; [by eexists|].
  apply IH; [|lia|done].
  destruct (decide (n = counter)) as [->|]; [|lia].
  apply free_actual_test in Hf. unfold cand in Hf. congruence.
Qed.

Lemma actual_loop_terminates fuel :
  size used_names + size (FS.present fs) < fuel →
  is_Some (Planner.actual_loop fuel base_name extension folder_path
             used_names fs 1).
Proof.
  intros Hfuel.
  destruct (free_slot cand (λ n, Path.join folder_path (cand n))
              (suffixed_inj _ _) (join_suffixed_inj _ _ _)
              used_names (FS.present fs) 1) as (n & Hn & H1 & H2).
  apply (actual_loop_complete fuel 1 n); [lia|lia|].
  split; [done|]. unfold FS.path_exists. by apply bool_decide_eq_false.
Qed.
End Actual.

(** The preview loop is the execution loop run against an empty disk. *)
Lemma preview_loop_as_actual fuel base_name extension existing counter folder :
  Planner.preview_loop fuel base_name extension existing counter
  = Planner.actual_loop fuel base_name extension folder existing
      {| FS.files := ∅; FS.locked := ∅ |} counter.
Proof.
  revert counter. induction fuel as [|fuel IH]; intros counter; [done|].
  simpl. rewrite IH. unfold FS.path_exists, FS.present. cbn [FS.files].
  rewrite dom_empty_L.
  rewrite (bool_decide_eq_false_2 (_ ∈ ∅)) by apply not_elem_of_empty.
  simpl. by rewrite andb_true_r.
Qed.

Lemma preview_loop_sound fuel base_name extension existing counter r :
  Planner.preview_loop fuel base_name extension existing counter = Some r →
  ∃ m, counter ≤ m ∧ r = Planner.suffixed base_name m extension ∧ r ∉ existing.
Proof.
  rewrite (preview_loop_as_actual _ _ _ _ _ "").
  intros H. apply actual_loop_sound in H as (m & Hm & -> & [Hf _] & _).
  by exists m.
Qed.

Lemma preview_loop_terminates fuel base_name extension existing :
  size existing < fuel →
  is_Some (Planner.preview_loop fuel base_name extension existing 1).
Proof.
  intros Hfuel. rewrite (preview_loop_as_actual _ _ _ _ _ "").
  apply actual_loop_terminates. unfold FS.present. cbn [FS.files].
  rewrite dom_empty_L, size_empty. lia.
Qed.

Lemma preview_loop_fuel fuel fuel' base_name extension existing counter r :
  Planner.preview_loop fuel base_name extension existing counter = Some r →
  fuel ≤ fuel' →
  Planner.preview_loop fuel' base_name extension existing counter = Some r.
Proof.
  revert fuel' counter. induction fuel as [|fuel IH]; intros fuel' counter H Hle;
    [done|].
  destruct fuel' as [|fuel']; [lia|]. simpl in *.
  destruct (bool_decide _); [done|]. apply IH; [done|lia].
Qed.

Lemma actual_loop_fuel fuel fuel' base_name extension folder used fs counter r :
  Planner.actual_loop fuel base_name extension folder used fs counter = Some r →
  fuel ≤ fuel' →
  Planner.actual_loop fuel' base_name extension folder used fs counter = Some r.
Proof.
  revert fuel' counter. induction fuel as [|fuel IH]; intros fuel' counter H Hle;
    [done|].
  destruct fuel' as [|fuel']; [lia|]. simpl in *.
  destruct (bool_decide _ && negb _); [done|]. apply IH; [done|lia].
Qed.

Lemma preview_fuel fuel fuel' base_name extension existing r :
  Planner.generate_unique_filename_preview fuel base_name extension existing
    = Some r →
  fuel ≤ fuel' →
  Planner.generate_unique_filename_preview fuel' base_name extension existing
    = Some r.
Proof.
  unfold Planner.generate_unique_filename_preview.
  destruct (bool_decide _); [done|]. apply preview_loop_fuel.
Qed.

Lemma actual_fuel fuel fuel' base_name extension folder used fs r :
  Planner.generate_unique_filename_actual fuel base_name extension folder used fs
    = Some r →
  fuel ≤ fuel' →
  Planner.generate_unique_filename_actual fuel' base_name extension folder used
    fs = Some r.
Proof.
  unfold Planner.generate_unique_filename_actual.
  destruct (bool_decide _ || _); [|done]. apply actual_loop_fuel.
Qed.

Lemma preview_batch_fuel fuel fuel' rows used names :
  Planner.preview_batch fuel rows used = Some names →
  fuel ≤ fuel' →
  Planner.preview_batch fuel' rows used = Some names.
Proof.
  revert used names. induction rows as [|[b e] rows IH]; intros used names H Hle;
    simpl in *; [done|].
  destruct (Planner.generate_unique_filename_preview fuel b e used) as [x|] eqn:Hx;
    [|done].
  rewrite (preview_fuel _ _ _ _ _ _ Hx Hle).
  destruct (Planner.preview_batch fuel rows _) as [t|] eqn:Ht; [|done].
  by rewrite (IH _ _ Ht Hle).
Qed.

(** The name of the execution mode passes the test. *)
Lemma actual_sound fuel base_name extension folder used fs r :
  Planner.generate_unique_filename_actual fuel base_name extension folder used fs
    = Some r →
  Planner.free_actual folder used fs r.
Proof.
  unfold Planner.generate_unique_filename_actual.
  destruct (bool_decide _ || FS.path_exists _ _) eqn:Ht.
  - intros H. by apply actual_loop_sound in H as (m & _ & _ & Hf & _).
  - intros [= <-]. apply orb_false_iff in Ht as [Ht1 Ht2].
    apply bool_decide_eq_false in Ht1. by split.
Qed.

Lemma actual_terminates fuel base_name extension folder used fs :
  size used + size (FS.present fs) < fuel →
  is_Some (Planner.generate_unique_filename_actual fuel base_name extension
             folder used fs).
Proof.
  intros Hfuel. unfold Planner.generate_unique_filename_actual.
  destruct (bool_decide _ || _); [|by eexists].
  by apply actual_loop_terminates.
Qed.

(** ** Claims on the name generators *)

(** C1.  The execution-mode generator settles, for every fuel above the number
    of claimed names plus the number of existing paths, on one name.  That name
    is neither claimed nor the name of an existing file of the directory.  It
    is base_name+extension when that passes the test, and otherwise the
    suffixed candidate base_name_N+extension with the least N = 1, 2, ... that
    passes.  A candidate that exists on disk is never returned, also when it
    is absent from the claimed set. *)
Theorem C1_actual_first_free_name
    (base_name extension folder : string) (used : gset string) (fs : FS.t) :
  ∃ name,
    (∀ fuel, size used + size (FS.present fs) < fuel →
       Planner.generate_unique_filename_actual fuel base_name extension folder
         used fs = Some name)
    ∧ (∀ fuel r,
         Planner.generate_unique_filename_actual fuel base_name extension folder
           used fs = Some r → r = name)
    ∧ (name ∉ used)
    ∧ FS.path_exists fs (Path.join folder name) = false
    ∧ ((Planner.free_actual folder used fs (base_name +:+ extension)
        ∧ name = base_name +:+ extension)
       ∨ (¬ Planner.free_actual folder used fs (base_name +:+ extension)
          ∧ ∃ N, 1 ≤ N ∧ name = Planner.suffixed base_name N extension
                 ∧ ∀ M, 1 ≤ M → M < N →
                     ¬ Planner.free_actual folder used fs
                         (Planner.suffixed base_name M extension)))
    ∧ (∀ c, (c ∉ used) → FS.path_exists fs (Path.join folder c) = true →
         name ≠ c).
Proof.
  set (F := S (size used + size (FS.present fs))).
  destruct (actual_terminates F base_name extension folder used fs)
    as [name Hrun]; [unfold F; lia|].
  exists name.
  assert (Htot : ∀ fuel, size used + size (FS.present fs) < fuel →
            Planner.generate_unique_filename_actual fuel base_name extension
              folder used fs = Some name).
  { intros fuel Hfuel. eapply actual_fuel; [exact Hrun | unfold F; lia]. }
  split; [exact Htot|]. split.
  { intros fuel r Hr. destruct (Nat.le_ge_cases fuel F) as [Hle|Hle].
    - pose proof (actual_fuel _ _ _ _ _ _ _ _ Hr Hle). congruence.
    - pose proof (actual_fuel _ _ _ _ _ _ _ _ Hrun Hle). congruence. }
  destruct (actual_sound _ _ _ _ _ _ _ Hrun) as [Hu Hd].
  split; [done|]. split; [done|]. split.
  - unfold Planner.generate_unique_filename_actual in Hrun.
    destruct (bool_decide _ || FS.path_exists _ _) eqn:Ht.
    + right. split.
      * intros [Hu' Hd']. apply orb_true_iff in Ht as [Ht|Ht].
        -- by apply bool_decide_eq_true in Ht.
        -- congruence.
      * apply actual_loop_sound in Hrun as (m & Hm & Heq & _ & Hmin).
        exists m. split; [done|]. split; [done|]. exact Hmin.
    + injection Hrun as <-. left. by split.
  - intros c _ Hc ->. congruence.
Qed.

Lemma preview_result fuel base_name extension existing :
  size existing < fuel →
  ∃ name,
    Planner.generate_unique_filename_preview fuel base_name extension existing
      = Some name ∧ (name ∉ existing).
Proof.
  intros Hfuel. unfold Planner.generate_unique_filename_preview.
  destruct (bool_decide (_ ∉ existing)) eqn:Ht.
  - apply bool_decide_eq_true in Ht. eauto.
  - destruct (preview_loop_terminates fuel base_name extension existing Hfuel)
      as [name Hn].
    exists name. split; [done|].
    by apply preview_loop_sound in Hn as (m & _ & _ & Hf).
Qed.

(** The names given to a batch in preview mode. *)
Lemma preview_batch_distinct fuel rows used :
  size used + length rows < fuel →
  ∃ names,
    Planner.preview_batch fuel rows used = Some names
    ∧ length names = length rows
    ∧ NoDup names
    ∧ ∀ n, n ∈ names → n ∉ used.
Proof.
  revert used. induction rows as [|[b e] rows IH]; intros used Hfuel.
  - exists []. repeat split; [constructor | intros n Hn; by apply elem_of_nil in Hn].
  - simpl in *.
    destruct (preview_result fuel b e used ltac:(lia)) as (name & -> & Hfresh).
    destruct (IH ({[name]} ∪ used)) as (names & -> & Hlen & Hnd & Hout).
    { rewrite size_union by set_solver. rewrite size_singleton. lia. }
    exists (name :: names). split; [done|]. split; [simpl; lia|]. split.
    + constructor; [|done]. intros Hin. apply Hout in Hin. set_solver.
    + intros n Hn. apply elem_of_cons in Hn as [->|Hn]; [done|].
      apply Hout in Hn. set_solver.
Qed.

(** C10.  For finite sets of claimed names and of existing paths both
    generators return: a fuel above the size of the sets always suffices.  The
    preview result is not a member of the claimed set, and a batch whose
    results join the set one after the other gets pairwise distinct names. *)
Theorem C10_generators_terminate_and_names_distinct
    (base_name extension folder : string) (used : gset string) (fs : FS.t)
    (rows : list (string * string)) :
  (∃ name,
     (∀ fuel, size used < fuel →
        Planner.generate_unique_filename_preview fuel base_name extension used
          = Some name)
     ∧ (name ∉ used))
  ∧ (∃ name,
       ∀ fuel, size used + size (FS.present fs) < fuel →
         Planner.generate_unique_filename_actual fuel base_name extension
           folder used fs = Some name)
  ∧ (∃ names,
       (∀ fuel, size used + length rows < fuel →
          Planner.preview_batch fuel rows used = Some names)
       ∧ length names = length rows
       ∧ NoDup names
       ∧ ∀ n, n ∈ names → n ∉ used).
Proof.
  split; [|split].
  - destruct (preview_result (S (size used)) base_name extension used
                ltac:(lia)) as (name & Hn & Hf).
    exists name. split; [|done]. intros fuel Hfuel.
    eapply preview_fuel; [exact Hn | lia].
  - destruct (actual_terminates (S (size used + size (FS.present fs)))
                base_name extension folder used fs ltac:(lia)) as [name Hn].
    exists name. intros fuel Hfuel. eapply actual_fuel; [exact Hn | lia].
  - destruct (preview_batch_distinct (S (size used + length rows)) rows used
                ltac:(lia)) as (names & Hn & Hlen & Hnd & Hout).
    exists names. split; [|done]. intros fuel Hfuel.
    eapply preview_batch_fuel; [exact Hn | lia].
Qed.

(** ** The normalizer *)

Lemma differs_false (a b : string) : Tiff.differs a b = false ↔ a = b.
Proof. unfold Tiff.differs. rewrite negb_false_iff. apply String.eqb_eq. Qed.

Lemma differs_true (a b : string) : Tiff.differs a b = true ↔ a ≠ b.
Proof. unfold Tiff.differs. rewrite negb_true_iff. apply String.eqb_neq. Qed.



(** A year of four digits is written alike on every platform. *)
Lemma year_text_padded y :
  (1000 ≤ y)%N ∨ pads_year = true → Strptime.year_text y = Strptime.pad4 y.
Proof.
  unfold Strptime.year_text. intros [H|H].
  - apply N.leb_le in H. by rewrite H.
  - by rewrite H, orb_true_r.
Qed.

Lemma strftime_padded dt :
  (1000 ≤ Strptime.year dt)%N ∨ pads_year = true →
  Strptime.strftime dt
  = Strptime.pad4 (Strptime.year dt) +:+ Strptime.pad2 (Strptime.month dt)
    +:+ Strptime.pad2 (Strptime.day dt) +:+ "_"
    +:+ Strptime.pad2 (Strptime.hour dt) +:+ Strptime.pad2 (Strptime.minute dt)
    +:+ Strptime.pad2 (Strptime.second dt).
Proof. intros H. unfold Strptime.strftime. by rewrite (year_text_padded _ H). Qed.

Lemma strftime_length dt :
  (1000 ≤ Strptime.year dt)%N ∨ pads_year = true →
  String.length (Strptime.strftime dt) = 15.
Proof. intros H. by rewrite (strftime_padded _ H). Qed.

(** What the loop over the formats ends with. *)
Lemma try_formats_first data fmts :
  (Normalizer.try_formats data fmts = Text.UNKNOWN_TIME
   ∧ ∀ fmt, fmt ∈ fmts → Strptime.strptime (Text.strip data) fmt = None)
  ∨ (∃ i fmt dt,
       fmts !! i = Some fmt
       ∧ Strptime.strptime (Text.strip data) fmt = Some dt
       ∧ (∀ j g, j < i → fmts !! j = Some g →
            Strptime.strptime (Text.strip data) g = None)
       ∧ Normalizer.try_formats data fmts = Strptime.strftime dt).
Proof.
  induction fmts as [|f fmts IH]; simpl.
  - left. split; [done|]. intros fmt Hin. by apply elem_of_nil in Hin.
  - destruct (Strptime.strptime (Text.strip data) f) as [dt|] eqn:Hf.
    + right. exists 0, f, dt. repeat split; [done|]. intros; lia.
    + destruct IH as [[Hu Hall]|(i & fmt & dt & Hi & Hp & Hbefore & Hr)].
      * left. split; [done|]. intros fmt Hin.
        apply elem_of_cons in Hin as [->|Hin]; [done|by apply Hall].
      * right. exists (S i), fmt, dt. repeat split; [done..| |done].
        intros [|j] g Hj Hg; simpl in Hg; [congruence|].
        apply (Hbefore j); [lia|done].
Qed.



(** ** The tag search *)

Section TagSearch.
Variable TAGS : gmap Z string.

Lemma scan_field_first field exifdata camera_model :
  (ExifWorker.scan_field TAGS field exifdata camera_model).1
  = ExifWorker.first_usable_of TAGS field exifdata.
Proof.
  revert camera_model.
  induction exifdata as [|[tag_id raw] rest IH]; intros camera_model; [done|].
  simpl. destruct (ExifWorker.tag_is TAGS tag_id field); simpl; [|apply IH].
  destruct (ExifWorker.usable _); [done|apply IH].
Qed.

Lemma scan_fields_priority fields exifdata camera_model :
  (ExifWorker.scan_fields TAGS fields exifdata camera_model).1
  = ExifWorker.by_priority TAGS fields exifdata.
Proof.
  revert camera_model. induction fields as [|field rest IH]; intros camera_model;
    [done|].
  simpl. rewrite <- (scan_field_first field exifdata camera_model).
  destruct (ExifWorker.scan_field TAGS field exifdata camera_model) as [[v|] cm];
    [done|apply IH].
Qed.

Lemma by_priority_none fields exifdata :
  ExifWorker.by_priority TAGS fields exifdata = None →
  ∀ field, field ∈ fields → ExifWorker.first_usable_of TAGS field exifdata = None.
Proof.
  induction fields as [|f rest IH]; intros H field Hin;
    [by apply elem_of_nil in Hin|].
  simpl in H.
  destruct (ExifWorker.first_usable_of TAGS f exifdata) eqn:Hf; [done|].
  apply elem_of_cons in Hin as [->|Hin]; [done|by apply IH].
Qed.

(** The second pass finds nothing the first pass has not found. *)
Lemma scan_any_none exifdata camera_model :
  (∀ field, field ∈ ExifWorker.time_fields →
     ExifWorker.first_usable_of TAGS field exifdata = None) →
  (ExifWorker.scan_any TAGS exifdata camera_model).1 = None.
Proof.
  revert camera_model.
  induction exifdata as [|[tag_id raw] rest IH]; intros camera_model Hnone;
    [done|].
  assert (Hrest : ∀ field, field ∈ ExifWorker.time_fields →
            ExifWorker.first_usable_of TAGS field rest = None).
  { intros field Hin. specialize (Hnone field Hin). simpl in Hnone.
    by destruct (_ && _)%bool. }
  cbn [ExifWorker.scan_any].
  destruct (ExifWorker.tag_in TAGS tag_id ExifWorker.time_fields) eqn:Ht;
    [|by apply IH].
  destruct (ExifWorker.usable _) eqn:Hu; [|by apply IH].
  exfalso. unfold ExifWorker.tag_in in Ht.
  apply existsb_exists in Ht as (field & Hin & Hf).
  apply list_elem_of_In in Hin. specialize (Hnone field Hin). simpl in Hnone.
  by rewrite Hf, Hu in Hnone.
Qed.

Lemma search_tags_priority exifdata :
  (ExifWorker.search_tags TAGS exifdata).1
  = ExifWorker.by_priority TAGS ExifWorker.time_fields exifdata.
Proof.
  unfold ExifWorker.search_tags.
  pose proof (scan_fields_priority ExifWorker.time_fields exifdata
                Text.UNKNOWN_MODEL) as H.
  destruct (ExifWorker.scan_fields _ _ _ _) as [[v|] cm]; cbn [fst] in H;
    [done|].
  rewrite <- H. apply scan_any_none. by apply by_priority_none.
Qed.

Lemma parse_exif_time exifdata :
  (ExifWorker.parse_exif_with_pil TAGS exifdata).1
  = match ExifWorker.by_priority TAGS ExifWorker.time_fields exifdata with
    | Some value => Normalizer.format_datetime_string value
    | None => Text.UNKNOWN_TIME
    end.
Proof.
  unfold ExifWorker.parse_exif_with_pil.
  rewrite <- search_tags_priority.
  destruct (ExifWorker.search_tags TAGS exifdata) as [[v|] cm]; [|done].
  simpl. destruct (Tiff.differs _ _) eqn:Hd; [done|].
  simpl. symmetry. by apply differs_false.
Qed.

Lemma by_priority_level fields exifdata i field value :
  fields !! i = Some field →
  ExifWorker.first_usable_of TAGS field exifdata = Some value →
  (∀ j g, j < i → fields !! j = Some g →
     ExifWorker.first_usable_of TAGS g exifdata = None) →
  ExifWorker.by_priority TAGS fields exifdata = Some value.
Proof.
  revert i. induction fields as [|f rest IH]; intros i Hi Hv Hhigher; [done|].
  destruct i as [|i]; simpl in *.
  - injection Hi as ->. by rewrite Hv.
  - rewrite (Hhigher 0 f); [|lia|done].
    apply (IH i); [done..|]. intros j g Hj Hg. apply (Hhigher (S j)); [lia|done].
Qed.

End TagSearch.

(** C2.  For every tag dictionary the structured stage takes its time from
    the priority order DateTimeOriginal, DateTime, DateTimeDigitized,
    CreateDate, ModifyDate: the level of highest priority that has a usable
    value decides, and within a level the first usable occurrence in
    iteration order; the stage's result is that value normalized.  With
    DateTime 2021:05:01 10:00:00 listed before DateTimeOriginal
    2021:04:30 09:00:00 the result is 20210430_090000. *)
Theorem C2_tag_priority_order
    (TAGS : gmap Z string) (exifdata : list (Z * Exif.raw_value)) :
  ExifWorker.time_fields
  = [ "DateTimeOriginal"; "DateTime"; "DateTimeDigitized"; "CreateDate";
      "ModifyDate" ]
  ∧ (ExifWorker.parse_exif_with_pil TAGS exifdata).1
    = match ExifWorker.by_priority TAGS ExifWorker.time_fields exifdata with
      | Some value => Normalizer.format_datetime_string value
      | None => Text.UNKNOWN_TIME
      end
  ∧ (∀ i field value,
       ExifWorker.time_fields !! i = Some field →
       ExifWorker.first_usable_of TAGS field exifdata = Some value →
       (∀ j g, j < i → ExifWorker.time_fields !! j = Some g →
          ExifWorker.first_usable_of TAGS g exifdata = None) →
       (ExifWorker.search_tags TAGS exifdata).1 = Some value
       ∧ (ExifWorker.parse_exif_with_pil TAGS exifdata).1
         = Normalizer.format_datetime_string value)
  ∧ (ExifWorker.parse_exif_with_pil Sample.TAGS Sample.two_tags).1
    = "20210430_090000".
Proof.
  split; [reflexivity|]. split; [apply parse_exif_time|]. split.
  - intros i field value Hi Hv Hhigher.
    pose proof (by_priority_level TAGS _ _ _ _ _ Hi Hv Hhigher) as Hp.
    split.
    + by rewrite search_tags_priority.
    + by rewrite parse_exif_time, Hp.
  - by vm_compute.
Qed.

(** ** The fallback chain *)

Lemma accept_known r date_time camera_model err :
  ExifWorker.accept r = Some (date_time, camera_model, err) →
  date_time ≠ Text.UNKNOWN_TIME.
Proof.
  destruct r as [d c]. unfold ExifWorker.accept.
  destruct (Text.truthy d && Tiff.differs d Text.UNKNOWN_TIME) eqn:Ht; [|done].
  intros [= <- _ _]. apply andb_true_iff in Ht as [_ Ht]. by apply differs_true.
Qed.

Lemma tag_stage_known TAGS src date_time camera_model err :
  Control.suppress (ExifWorker.tag_stage TAGS src)
    = Some (date_time, camera_model, err) →
  date_time ≠ Text.UNKNOWN_TIME.
Proof.
  destruct src as [| |[|entry exifdata]]; simpl; try done.
  apply accept_known.
Qed.

(** A stage whose time does not normalize returns nothing. *)
Lemma unparsed_stage_falls_through TAGS src :
  ExifWorker.unparsed TAGS src = true →
  Control.suppress (ExifWorker.tag_stage TAGS src) = None.
Proof.
  destruct src as [| |exifdata]; simpl; try done.
  intros Hu. destruct exifdata as [|entry exifdata]; [done|].
  cbn [ExifWorker.tag_stage Control.suppress].
  unfold ExifWorker.parse_exif_with_pil.
  destruct (ExifWorker.search_tags TAGS (entry :: exifdata)) as [[v|] cm];
    [|done].
  apply String.eqb_eq in Hu.
  assert (Hd : Tiff.differs (Normalizer.format_datetime_string v)
                 Text.UNKNOWN_TIME = false) by by apply differs_false.
  rewrite Hd. reflexivity.
Qed.

(** Only the last [return] of the chain gives the unknown marker. *)
Lemma outcome_without_time TAGS file date_time camera_model err :
  ExifWorker.get_advanced_exif_data TAGS file = (date_time, camera_model, err) →
  date_time = Text.UNKNOWN_TIME →
  camera_model = Text.UNKNOWN_MODEL ∧ err = Some ExifWorker.NO_EXIF.
Proof.
  unfold ExifWorker.get_advanced_exif_data.
  destruct (Control.suppress (ExifWorker.tag_stage TAGS (Exif.via_getexif file)))
    as [[[d1 m1] e1]|] eqn:H1.
  { intros [= <- <- <-] Hd. by apply tag_stage_known in H1. }
  destruct (Control.suppress
              (ExifWorker.tag_stage TAGS (Exif.via_getexif_legacy file)))
    as [[[d2 m2] e2]|] eqn:H2.
  { intros [= <- <- <-] Hd. by apply tag_stage_known in H2. }
  destruct (Control.suppress
              (ExifWorker.tag_stage TAGS (Exif.via_exif_attribute file)))
    as [[[d3 m3] e3]|] eqn:H3.
  { intros [= <- <- <-] Hd. by apply tag_stage_known in H3. }
  destruct (Control.suppress (ExifWorker.raw_stage (Exif.content file)))
    as [[[d4 m4] e4]|] eqn:H4.
  { intros [= <- <- <-] Hd. by apply accept_known in H4. }
  by intros [= <- <- <-] _.
Qed.

(** C3, amended.  When a stage finds a time whose normalization fails,
    extraction goes on with the next stage, and the outcome is the one the
    other stages give without it: nothing of the failed stage, its camera
    model or make included, reaches a later stage or the outcome.  An outcome
    without time names the camera Unknown. *)
Theorem C3_failed_stage_is_skipped
    (TAGS : gmap Z string) (s1 s2 s3 : Exif.stage_source)
    (c : option (list byte)) :
  (ExifWorker.unparsed TAGS s1 = true →
     ExifWorker.get_advanced_exif_data TAGS
       {| Exif.via_getexif := s1; Exif.via_getexif_legacy := s2;
          Exif.via_exif_attribute := s3; Exif.content := c |}
     = ExifWorker.get_advanced_exif_data TAGS
         {| Exif.via_getexif := Exif.Missing; Exif.via_getexif_legacy := s2;
            Exif.via_exif_attribute := s3; Exif.content := c |})
  ∧ (ExifWorker.unparsed TAGS s2 = true →
       ExifWorker.get_advanced_exif_data TAGS
         {| Exif.via_getexif := s1; Exif.via_getexif_legacy := s2;
            Exif.via_exif_attribute := s3; Exif.content := c |}
       = ExifWorker.get_advanced_exif_data TAGS
           {| Exif.via_getexif := s1; Exif.via_getexif_legacy := Exif.Missing;
              Exif.via_exif_attribute := s3; Exif.content := c |})
  ∧ (ExifWorker.unparsed TAGS s3 = true →
       ExifWorker.get_advanced_exif_data TAGS
         {| Exif.via_getexif := s1; Exif.via_getexif_legacy := s2;
            Exif.via_exif_attribute := s3; Exif.content := c |}
       = ExifWorker.get_advanced_exif_data TAGS
           {| Exif.via_getexif := s1; Exif.via_getexif_legacy := s2;
              Exif.via_exif_attribute := Exif.Missing; Exif.content := c |})
  ∧ (∀ date_time camera_model err,
       ExifWorker.get_advanced_exif_data TAGS
         {| Exif.via_getexif := s1; Exif.via_getexif_legacy := s2;
            Exif.via_exif_attribute := s3; Exif.content := c |}
       = (date_time, camera_model, err) →
       date_time = Text.UNKNOWN_TIME →
       camera_model = Text.UNKNOWN_MODEL ∧ err = Some ExifWorker.NO_EXIF).
Proof.
  split; [|split; [|split]].
  - intros Hu. unfold ExifWorker.get_advanced_exif_data. cbn [Exif.via_getexif].
    by rewrite (unparsed_stage_falls_through _ _ Hu).
  - intros Hu. unfold ExifWorker.get_advanced_exif_data.
    cbn [Exif.via_getexif_legacy].
    by rewrite (unparsed_stage_falls_through _ _ Hu).
  - intros Hu. unfold ExifWorker.get_advanced_exif_data.
    cbn [Exif.via_exif_attribute].
    by rewrite (unparsed_stage_falls_through _ _ Hu).
  - intros date_time camera_model err. apply outcome_without_time.
Qed.

(** ** The IFD parser *)

Lemma slice_length data a b :
  length (Bytes.slice data a b)
  = N.to_nat (N.min b (Bytes.len data) - N.min a (Bytes.len data)).
Proof.
  unfold Bytes.slice, Bytes.len. rewrite length_take, length_drop. lia.
Qed.

Lemma slice_len data a b :
  Bytes.len (Bytes.slice data a b)
  = (N.min b (Bytes.len data) - N.min a (Bytes.len data))%N.
Proof. unfold Bytes.len at 1. rewrite slice_length. lia. Qed.

Lemma unpack_H_two e bs :
  length bs = 2 → Bytes.unpack_H e bs = Some (Bytes.number e bs).
Proof. intros H. unfold Bytes.unpack_H. by rewrite H. Qed.

Lemma unpack_L_four e bs :
  length bs = 4 → Bytes.unpack_L e bs = Some (Bytes.number e bs).
Proof. intros H. unfold Bytes.unpack_L. by rewrite H. Qed.

Section Ifd.
Variables (tiff_data : list byte) (entry_start : N) (e : Bytes.endian).

(** An entry leaves the time as it is or replaces it by its own; no
    exception leaves the loop body. *)
Lemma ifd_entry_time date_time camera_model i :
  ∃ camera_model',
    Tiff.ifd_entry tiff_data entry_start e (date_time, camera_model) i
    = Some (from_option id date_time (Tiff.entry_time tiff_data entry_start e i),
            camera_model').
Proof.
  unfold Tiff.ifd_entry, Tiff.entry_time.
  set (entry_offset := (entry_start + N.of_nat i * 12)%N).
  destruct (Bytes.len tiff_data <? entry_offset + 12)%N eqn:Hin; [by eexists|].
  apply N.ltb_ge in Hin.
  set (entry_data := Bytes.slice tiff_data entry_offset (entry_offset + 12)).
  assert (Hlen : length entry_data = 12).
  { unfold entry_data. rewrite slice_length. lia. }
  assert (Hl : Bytes.len entry_data = 12%N) by (unfold Bytes.len; lia).
  rewrite Hlen. simpl (12 <? 12).
  rewrite !unpack_H_two by (rewrite slice_length, Hl; lia).
  rewrite !unpack_L_four by (rewrite slice_length, Hl; lia).
  cbn [mbind option_bind].
  set (tag_id := Bytes.number e (Bytes.slice entry_data 0 2)).
  set (count := Bytes.number e (Bytes.slice entry_data 4 8)).
  set (value_offset := Bytes.number e (Bytes.slice entry_data 8 12)).
  destruct (N.eqb tag_id 306 || N.eqb tag_id 36867 || N.eqb tag_id 36868)
    eqn:Htag.
  - cbn [andb].
    destruct (count <? 20)%N eqn:H20;
      [|rewrite andb_false_r; by eexists].
    destruct (count <=? 4)%N eqn:H4.
    { apply N.leb_le in H4.
      assert ((4 <? count)%N = false) as -> by (apply N.ltb_ge; lia).
      by eexists. }
    apply N.leb_gt in H4.
    assert ((4 <? count)%N = true) as -> by (apply N.ltb_lt; lia).
    cbn [andb].
    destruct (value_offset <? Bytes.len tiff_data)%N eqn:Hvo.
    + apply N.ltb_lt in Hvo. rewrite slice_len.
      destruct (value_offset + count <=? Bytes.len tiff_data)%N eqn:Hfit.
      * apply N.leb_le in Hfit.
        assert ((count <=? N.min (value_offset + count) (Bytes.len tiff_data)
                           - N.min value_offset (Bytes.len tiff_data))%N = true)
          as -> by (apply N.leb_le; lia).
        destruct (Text.truthy _ && Tiff.differs _ Text.SENTINEL); [|by eexists].
        cbn [andb]. destruct (Tiff.differs _ Text.UNKNOWN_TIME); by eexists.
      * apply N.leb_gt in Hfit.
        assert ((count <=? N.min (value_offset + count) (Bytes.len tiff_data)
                           - N.min value_offset (Bytes.len tiff_data))%N = false)
          as -> by (apply N.leb_gt; lia).
        by eexists.
    + apply N.ltb_ge in Hvo.
      assert ((value_offset + count <=? Bytes.len tiff_data)%N = false) as ->
        by (apply N.leb_gt; lia).
      by eexists.
  - cbn [andb]. destruct (N.eqb tag_id 272).
    { repeat (match goal with |- context [if ?b then _ else _] => destruct b end);
        by eexists. }
    destruct (N.eqb tag_id 271); [|by eexists].
    repeat (match goal with |- context [if ?b then _ else _] => destruct b end);
      by eexists.
Qed.

Lemma ifd_entries_last st indices :
  ∃ camera_model',
    Tiff.ifd_entries tiff_data entry_start e st indices
    = Some (from_option id st.1
              (last (omap (Tiff.entry_time tiff_data entry_start e) indices)),
            camera_model').
Proof.
  revert st. induction indices as [|i rest IH]; intros [date_time camera_model].
  - by eexists.
  - cbn [Tiff.ifd_entries].
    destruct (ifd_entry_time date_time camera_model i) as [cm' ->].
    destruct (IH (from_option id date_time
                    (Tiff.entry_time tiff_data entry_start e i), cm'))
      as [cm'' ->].
    exists cm''. f_equal. f_equal. cbn [omap list_omap fst].
    destruct (Tiff.entry_time tiff_data entry_start e i) as [t|]; [|done].
    cbn [from_option id].
    destruct (omap _ rest) as [|t' ts] eqn:Ho; [done|].
    rewrite last_cons_cons.
    destruct (last (t' :: ts)) eqn:Hl; [done|]. by apply last_None in Hl.
Qed.

End Ifd.

(** The marker walk of [parse_raw_exif] ends within the fuel it is given:
    every round that goes on has read a whole marker and moves the position
    forward. *)
Lemma walk_markers_fuel_suffices fuel data pos :
  N.to_nat (Bytes.len data - pos) < fuel →
  Tiff.walk_markers fuel data pos ≠ None.
Proof.
  revert pos. induction fuel as [|fuel IH]; intros pos Hfuel; [lia|].
  cbn [Tiff.walk_markers].
  destruct (Bytes.slice data pos (pos + 2)) as [|m0 [|m1 [|m2 ms]]] eqn:Hm;
    try done.
  assert (Hin : (pos + 2 ≤ Bytes.len data)%N).
  { pose proof (slice_length data pos (pos + 2)) as Hl. rewrite Hm in Hl.
    simpl in Hl. lia. }
  destruct (negb _); [done|]. destruct (N.eqb (Byte.to_N m1) 225).
  - destruct (Bytes.unpack_H _ _) as [length|]; [|done].
    destruct (N.eqb length 0); [done|].
    destruct (Bytes.starts_with _ _); [done|]. apply IH. lia.
  - destruct (_ && _); [|done].
    destruct (Bytes.unpack_H _ _) as [length|]; [|done]. apply IH. lia.
Qed.

Lemma parse_raw_exif_fuel data :
  Tiff.walk_markers (S (length data)) data 2 ≠ None.
Proof. apply walk_markers_fuel_suffices. unfold Bytes.len. lia. Qed.


(** An entry whose count is at most 4 changes neither the time nor the
    camera model, whatever its tag id and its four value bytes. *)
Lemma ifd_entry_inline_ignored tiff_data entry_start e st i :
  (entry_start + N.of_nat i * 12 + 12 ≤ Bytes.len tiff_data)%N →
  (Bytes.number e
     (Bytes.slice
        (Bytes.slice tiff_data (entry_start + N.of_nat i * 12)
           (entry_start + N.of_nat i * 12 + 12)) 4 8) ≤ 4)%N →
  Tiff.ifd_entry tiff_data entry_start e st i = Some st.
Proof.
  intros Hin Hcount. destruct st as [date_time camera_model].
  unfold Tiff.ifd_entry.
  set (entry_offset := (entry_start + N.of_nat i * 12)%N) in *.
  assert ((Bytes.len tiff_data <? entry_offset + 12)%N = false) as ->
    by (apply N.ltb_ge; lia).
  set (entry_data := Bytes.slice tiff_data entry_offset (entry_offset + 12)) in *.
  assert (Hlen : length entry_data = 12).
  { unfold entry_data. rewrite slice_length. lia. }
  assert (Hl : Bytes.len entry_data = 12%N) by (unfold Bytes.len; lia).
  rewrite Hlen. simpl (12 <? 12).
  rewrite !unpack_H_two by (rewrite slice_length, Hl; lia).
  rewrite !unpack_L_four by (rewrite slice_length, Hl; lia).
  cbn [mbind option_bind].
  apply N.leb_le in Hcount. rewrite Hcount.
  repeat (match goal with |- context [if ?b then _ else _] => destruct b end);
    done.
Qed.

(** C5.  The camera model X10 with its NUL, four bytes stored in the entry
    itself, is not adopted: the parse ends with the model Unknown.  The same
    model stored at an offset is adopted. *)
Theorem C5_inline_value_is_not_used :
  Tiff.parse_tiff_data Sample.inline_model = ("20210501_100000", "Unknown")
  ∧ Tiff.parse_tiff_data Sample.offset_model = ("20210501_100000", "X10")
  ∧ Tiff.parse_raw_exif (Some (Sample.jpeg Sample.inline_model))
    = ("20210501_100000", "Unknown").
Proof. by vm_compute. Qed.

(** ** The scan loop *)

(** However the body behaves, a handler that returns makes the loop add one
    result and one progress event per file. *)
Lemma scan_loop_total (body : string → Control.exc ExifWorker.outcome)
    (h : string → ExifWorker.outcome) total i file_paths results progress :
  ExifWorker.scan_loop body (λ f, Control.Ok (h f)) total i file_paths results
    progress
  = Control.Ok
      (results
       ++ map (λ f, match body f with
                    | Control.Ok r => r
                    | Control.Raise => h f
                    end) file_paths,
       progress ++ map (λ k, (k + 1, total)) (seq i (length file_paths))).
Proof.
  revert i results progress.
  induction file_paths as [|f rest IH]; intros i results progress.
  - simpl. by rewrite !app_nil_r.
  - cbn [ExifWorker.scan_loop].
    destruct (body f) as [r|] eqn:Hb; rewrite IH; simpl; rewrite ?Hb;
      by rewrite <- !(assoc_L (++) results), <- !(assoc_L (++) progress).
Qed.







(** ** The rename worker *)

Lemma string_app_assoc (a b c : string) : (a +:+ b) +:+ c = a +:+ (b +:+ c).
Proof.
  induction a as [|x a IH]; [done|]. rewrite !string_app_cons. by rewrite IH.
Qed.

Section FreePath.
Variables (t : RenameWorker.task) (fs : FS.t).

Let cand (n : nat) : string :=
  Path.join (Path.dirname (RenameWorker.filepath t))
    ((RenameWorker.base_name t +:+ "_" +:+ pretty n) +:+ RenameWorker.extension t).

Lemma cand_inj : Inj (=) (=) cand.
Proof.
  intros n m H. unfold cand in H.
  rewrite !string_app_assoc in H.
  by apply (join_suffixed_inj _ (RenameWorker.base_name t)
              (RenameWorker.extension t)) in H.
Qed.

Lemma free_path_sound fuel p c r :
  RenameWorker.free_path fuel t fs p c = Some r → FS.path_exists fs r = false.
Proof.
  revert p c. induction fuel as [|fuel IH]; intros p c H; [done|].
  simpl in H. destruct (FS.path_exists fs p) eqn:Hp.
  - by apply IH in H.
  - by injection H as <-.
Qed.

Lemma free_path_fuel fuel fuel' p c r :
  RenameWorker.free_path fuel t fs p c = Some r → fuel ≤ fuel' →
  RenameWorker.free_path fuel' t fs p c = Some r.
Proof.
  revert fuel' p c. induction fuel as [|fuel IH]; intros fuel' p c H Hle; [done|].
  destruct fuel' as [|fuel']; [lia|]. simpl in *.
  destruct (FS.path_exists fs p); [|done]. apply IH; [done|lia].
Qed.

Lemma free_path_complete fuel p c n :
  c ≤ n → n + 1 < c + fuel → FS.path_exists fs (cand n) = false →
  is_Some (RenameWorker.free_path fuel t fs p c).
Proof.
  revert p c. induction fuel as [|fuel IH]; intros p c Hc Hn Hfree; [lia|].
  simpl. destruct (FS.path_exists fs p); [|by eexists].
  destruct (decide (c = n)) as [->|Hne].
  - destruct fuel as [|fuel]; [lia|]. simpl. fold (cand n). rewrite Hfree.
    by eexists.
  - apply IH; [lia|lia|done].
Qed.

Lemma free_path_terminates fuel p :
  size (FS.present fs) + 1 < fuel →
  is_Some (RenameWorker.free_path fuel t fs p 1).
Proof.
  intros Hfuel.
  destruct (free_slot cand cand cand_inj cand_inj ∅ (FS.present fs) 1)
    as (n & Hn & _ & Hfree).
  rewrite size_empty in Hn.
  apply (free_path_complete fuel p 1 n); [lia|lia|].
  unfold FS.path_exists. by apply bool_decide_eq_false.
Qed.
End FreePath.

Lemma size_insert_le (X : gset string) (x : string) :
  size ({[x]} ∪ X) ≤ S (size X).
Proof.
  rewrite size_union_alt, size_singleton.
  assert (Hsub : X ∖ {[x]} ⊆ X).
  { intros y Hy. by apply elem_of_difference in Hy as [? _]. }
  pose proof (subseteq_size _ _ Hsub). lia.
Qed.

(** A rename leaves no more paths on disk than there were. *)
Lemma rename_size fs old new fs' :
  FS.rename fs old new = Some fs' →
  size (FS.present fs') ≤ size (FS.present fs).
Proof.
  unfold FS.rename, FS.present.
  destruct (FS.files fs !! old) as [f|] eqn:Hold; [|done].
  destruct (bool_decide _); [done|]. intros [= <-]. cbn [FS.files].
  rewrite dom_insert_L, dom_delete_L.
  assert (Hin : old ∈ dom (FS.files fs)) by (apply elem_of_dom; eauto).
  pose proof (size_remove _ _ Hin).
  pose proof (size_insert_le (dom (FS.files fs) ∖ {[old]}) new). lia.
Qed.

Lemma rename_one_total fuel t fs :
  size (FS.present fs) + 1 < fuel →
  ∃ r, RenameWorker.rename_one fuel t fs = Some r
       ∧ match r with
         | Control.Ok fs' => size (FS.present fs') ≤ size (FS.present fs)
         | Control.Raise => True
         end.
Proof.
  intros Hfuel. unfold RenameWorker.rename_one.
  destruct (free_path_terminates t fs fuel (RenameWorker.new_path t) Hfuel)
    as [target ->].
  destruct (FS.rename fs (RenameWorker.filepath t) target) as [fs'|] eqn:Hr.
  - eexists. split; [done|]. by eapply rename_size.
  - by eexists.
Qed.

Lemma rename_one_fuel fuel fuel' t fs r :
  RenameWorker.rename_one fuel t fs = Some r → fuel ≤ fuel' →
  RenameWorker.rename_one fuel' t fs = Some r.
Proof.
  unfold RenameWorker.rename_one. intros H Hle.
  destruct (RenameWorker.free_path fuel t fs _ 1) as [target|] eqn:Hp; [|done].
  by rewrite (free_path_fuel _ _ _ _ _ _ _ Hp Hle).
Qed.

Lemma report_fuel fuel fuel' t fs r :
  RenameWorker.rename_one fuel t fs = Some r → fuel ≤ fuel' →
  RenameWorker.report fuel' t fs = RenameWorker.report fuel t fs.
Proof.
  unfold RenameWorker.rename_one, RenameWorker.report. intros H Hle.
  destruct (RenameWorker.free_path fuel t fs _ 1) as [target|] eqn:Hp; [|done].
  by rewrite (free_path_fuel _ _ _ _ _ _ _ Hp Hle).
Qed.

Lemma report_prints fuel t fs :
  (∀ old new, prints old new = true) → RenameWorker.report fuel t fs = true.
Proof.
  intros Hp. unfold RenameWorker.report.
  by destruct (RenameWorker.free_path fuel t fs _ 1).
Qed.

Lemma rename_loop_fuel fuel fuel' total i tasks st final :
  RenameWorker.rename_loop fuel total i tasks st = Some final → fuel ≤ fuel' →
  RenameWorker.rename_loop fuel' total i tasks st = Some final.
Proof.
  revert i st. induction tasks as [|t rest IH]; intros i st H Hle; [done|].
  simpl in *.
  destruct (RenameWorker.rename_one fuel t (RenameWorker.disk st)) as [r|] eqn:Hr;
    [|done].
  rewrite (rename_one_fuel _ _ _ _ _ Hr Hle).
  destruct r; [by apply IH|].
  rewrite (report_fuel _ _ _ _ _ Hr Hle).
  destruct (RenameWorker.report fuel t (RenameWorker.disk st)); [by apply IH|done].
Qed.

(** The loop ends.  Either no exception has left it: then every task is
    counted and has its progress event.  Or [print] has raised at the task of
    index [k]: then the tasks before it and the task itself are counted, and
    the progress events are those of the tasks before it. *)
Lemma rename_loop_total fuel total i tasks st :
  size (FS.present (RenameWorker.disk st)) + 1 < fuel →
  ∃ final,
    RenameWorker.rename_loop fuel total i tasks st = Some final
    ∧ ((RenameWorker.raised final = RenameWorker.raised st
        ∧ RenameWorker.success_count final + RenameWorker.error_count final
          = RenameWorker.success_count st + RenameWorker.error_count st
            + length tasks
        ∧ RenameWorker.progress final
          = RenameWorker.progress st
            ++ map (λ k, (k + 1, total)) (seq i (length tasks)))
       ∨ (RenameWorker.raised final = true
          ∧ ∃ k, k < length tasks
                 ∧ RenameWorker.success_count final
                   + RenameWorker.error_count final
                   = RenameWorker.success_count st
                     + RenameWorker.error_count st + k + 1
                 ∧ 1 ≤ RenameWorker.error_count final
                 ∧ RenameWorker.progress final
                   = RenameWorker.progress st
                     ++ map (λ j, (j + 1, total)) (seq i k)))
    ∧ ((∀ old new, prints old new = true) →
       RenameWorker.raised final = RenameWorker.raised st).
Proof.
  revert i st. induction tasks as [|t rest IH]; intros i st Hfuel.
  - exists st. split; [done|]. split; [|done]. left.
    split; [done|]. split; [simpl; lia|]. simpl. by rewrite app_nil_r.
  - cbn [RenameWorker.rename_loop].
    destruct (rename_one_total fuel t (RenameWorker.disk st) Hfuel)
      as (r & -> & Hsize).
    destruct r as [fs'|].
    + edestruct IH as (final & -> & Hcases & Hp);
        [|exists final; split; [done|]; split; [|exact Hp]].
      * cbn [RenameWorker.disk]. lia.
      * destruct Hcases as [(Hr & Hcount & Hprog)|(Hr & k & Hk & Hcount & He & Hprog)].
        -- left. split; [done|]. split; [rewrite Hcount; simpl; lia|].
           rewrite Hprog. simpl. by rewrite <- (assoc_L (++)).
        -- right. split; [done|]. exists (S k).
           split; [simpl; lia|]. split; [rewrite Hcount; simpl; lia|].
           split; [done|]. rewrite Hprog. simpl. by rewrite <- (assoc_L (++)).
    + destruct (RenameWorker.report fuel t (RenameWorker.disk st)) eqn:Hrep.
      * edestruct IH as (final & -> & Hcases & Hp);
          [|exists final; split; [done|]; split; [|exact Hp]].
        -- cbn [RenameWorker.disk]. lia.
        -- destruct Hcases
             as [(Hr & Hcount & Hprog)|(Hr & k & Hk & Hcount & He & Hprog)].
           ++ left. split; [done|]. split; [rewrite Hcount; simpl; lia|].
              rewrite Hprog. simpl. by rewrite <- (assoc_L (++)).
           ++ right. split; [done|]. exists (S k).
              split; [simpl; lia|]. split; [rewrite Hcount; simpl; lia|].
              split; [done|]. rewrite Hprog. simpl.
              by rewrite <- (assoc_L (++)).
      * eexists. split; [done|]. split.
        -- right. split; [done|]. exists 0. cbn.
           split; [lia|]. split; [lia|]. split; [lia|]. by rewrite app_nil_r.
        -- intros Hp. by rewrite (report_prints _ _ _ Hp) in Hrep.
Qed.

(** C8.  The claim holds of the code as long as [print] returns: the worker
    ends, for every fuel above the number of existing paths plus one, with
    the same tally, every plan counted once as a success or as a failure and
    one progress event per plan, in order.  The [except] clause, however,
    prints after it has counted the failure, and where that [print] raises
    the exception leaves the loop: the plans after the failed one are not
    processed, the failed plan has no progress event, and [finished] is not
    emitted.  With three plans of which the second has lost its source, a
    standard output that takes the message gives 2 successes, 1 failure and
    three events, the third file renamed; a standard output that cannot take
    it gives one event and leaves the third file where it was. *)
Theorem C8_failed_print_ends_the_batch
    (rename_tasks : list RenameWorker.task) (fs : FS.t) :
  (∃ final,
     (∀ fuel, size (FS.present fs) + 1 < fuel →
        RenameWorker.rename_files fuel rename_tasks fs = Some final)
     ∧ (RenameWorker.raised final = false →
          RenameWorker.success_count final + RenameWorker.error_count final
          = length rename_tasks
          ∧ RenameWorker.progress final
            = map (λ k, (k + 1, length rename_tasks))
                (seq 0 (length rename_tasks)))
     ∧ (RenameWorker.raised final = true →
          ∃ k, k < length rename_tasks
               ∧ RenameWorker.success_count final
                 + RenameWorker.error_count final = k + 1
               ∧ 1 ≤ RenameWorker.error_count final
               ∧ RenameWorker.progress final
                 = map (λ j, (j + 1, length rename_tasks)) (seq 0 k))
     ∧ ((∀ old new, prints old new = true) →
        RenameWorker.raised final = false))
  ∧ (∀ fuel total i t rest st,
       RenameWorker.rename_one fuel t (RenameWorker.disk st)
       = Some Control.Raise →
       RenameWorker.report fuel t (RenameWorker.disk st) = false →
       RenameWorker.rename_loop fuel total i (t :: rest) st
       = Some {| RenameWorker.success_count := RenameWorker.success_count st;
                 RenameWorker.error_count := RenameWorker.error_count st + 1;
                 RenameWorker.progress := RenameWorker.progress st;
                 RenameWorker.disk := RenameWorker.disk st;
                 RenameWorker.raised := true |})
  ∧ (λ d, (RenameWorker.success_count d, RenameWorker.error_count d,
           RenameWorker.progress d, RenameWorker.raised d,
           FS.path_exists (RenameWorker.disk d) "/p/c.jpg",
           FS.path_exists (RenameWorker.disk d) "/p/x_2.jpg"))
      <$> RenameWorker.rename_files (platform := Sample.linux) 3
            Sample.three_tasks Sample.second_missing
    = Some (2, 1, [(1, 3); (2, 3); (3, 3)], false, false, true)
  ∧ (λ d, (RenameWorker.success_count d, RenameWorker.error_count d,
           RenameWorker.progress d, RenameWorker.raised d,
           FS.path_exists (RenameWorker.disk d) "/p/c.jpg",
           FS.path_exists (RenameWorker.disk d) "/p/x_2.jpg"))
      <$> RenameWorker.rename_files (platform := Sample.narrow_output) 3
            Sample.three_tasks Sample.second_missing
    = Some (1, 1, [(1, 3)], true, true, false).
Proof.
  split; [|split; [|split]].
  - unfold RenameWorker.rename_files.
    set (st0 := {| RenameWorker.success_count := 0;
                   RenameWorker.error_count := 0;
                   RenameWorker.progress := []; RenameWorker.disk := fs;
                   RenameWorker.raised := false |}).
    destruct (rename_loop_total (S (S (size (FS.present fs))))
                (length rename_tasks) 0 rename_tasks st0)
      as (final & Hrun & Hcases & Hp); [simpl; lia|].
    exists final. split; [|split; [|split]].
    + intros fuel Hfuel. eapply rename_loop_fuel; [exact Hrun|lia].
    + intros Hr.
      destruct Hcases as [(_ & Hcount & Hprog)|(Hr' & _)]; [|congruence].
      split; [rewrite Hcount; simpl; lia|by rewrite Hprog].
    + intros Hr.
      destruct Hcases as [(Hr' & _)|(_ & k & Hk & Hcount & He & Hprog)].
      { simpl in Hr'. congruence. }
      exists k. split; [done|]. split; [rewrite Hcount; simpl; lia|].
      split; [done|]. by rewrite Hprog.
    + intros Hall. by rewrite (Hp Hall).
  - intros fuel total i t rest st Hr Hrep. simpl. by rewrite Hr, Hrep.
  - by vm_compute.
  - by vm_compute.
Qed.

(** ** The rename guard of the window *)

Lemma rename_request_rejected rt reply_yes s :
  App.rename_completed s = true →
  App.rename_files rt reply_yes s = Some (App.say App.AlreadyRenamed s).
Proof. intros H. unfold App.rename_files. by rewrite H. Qed.

(** A rename request changes the disk only on its way to the completed
    state. *)
Lemma rename_request_effect rt reply_yes s0 s1 :
  App.rename_files rt reply_yes s0 = Some s1 →
  App.disk s1 = App.disk s0
  ∨ (App.rename_completed s0 = false ∧ App.rename_completed s1 = true).
Proof.
  unfold App.rename_files.
  destruct (App.rename_completed s0) eqn:Hc; [intros [= <-]; by left|].
  destruct (App.preview_results s0) as [|r rs]; [intros [= <-]; by left|].
  destruct (App.plan_tasks _ _ _ _) as [[|t ts]|]; [intros [= <-]; by left| |done].
  destruct reply_yes; simpl; [|intros [= <-]; by left].
  destruct (RenameWorker.rename_files _ _ _) as [final|]; [|done].
  intros [= <-]. by right.
Qed.

Lemma step_keeps_completed rt s ev :
  App.rename_completed s = true → App.resets ev = false →
  ∃ s', App.step rt s ev = Some s'
        ∧ App.rename_completed s' = true ∧ App.disk s' = App.disk s.
Proof.
  intros Hc Hr. destruct ev as [folder_path listing| | |reply_yes]; simpl in *.
  - unfold App.select_folder. rewrite Hr. by eexists.
  - done.
  - unfold App.preview_names.
    destruct (App.selected_files s); [by eexists|].
    destruct (ExifWorker.process_files _ _ _ _) as [[results progress]|];
      by eexists.
  - rewrite (rename_request_rejected _ _ _ Hc). by eexists.
Qed.

Lemma run_keeps_completed rt s evs :
  App.rename_completed s = true →
  forallb (λ ev, negb (App.resets ev)) evs = true →
  ∃ s', App.run rt s evs = Some s'
        ∧ App.rename_completed s' = true ∧ App.disk s' = App.disk s.
Proof.
  revert s. induction evs as [|ev evs IH]; intros s Hc Hall; [by eexists|].
  simpl in Hall. apply andb_true_iff in Hall as [Hev Hall].
  apply negb_true_iff in Hev.
  destruct (step_keeps_completed rt s ev Hc Hev) as (s1 & Hs & Hc1 & Hd1).
  destruct (IH s1 Hc1 Hall) as (s' & Hrun & Hc' & Hd').
  exists s'. simpl. rewrite Hs. split; [done|]. split; [done|]. congruence.
Qed.

(** C9.  From a state whose batch has been renamed a rename request is
    rejected: the user is told so and nothing else changes.  Through every
    sequence of events without a reset (neither the reset button nor a chosen
    folder) the state stays completed and the disk stays as it is.  A reset
    clears the completed flag, and a request that changes the disk sets it.
    In the sample run the second request changes nothing, while a new
    selection of the folder lets a rename go through again. *)
Theorem C9_rename_at_most_once
    (rt : App.runtime) (s : App.state) (evs : list App.event) :
  App.rename_completed s = true →
  forallb (λ ev, negb (App.resets ev)) evs = true →
  (∀ reply_yes,
     App.rename_files rt reply_yes s = Some (App.say App.AlreadyRenamed s))
  ∧ (∃ s', App.run rt s evs = Some s'
           ∧ App.rename_completed s' = true ∧ App.disk s' = App.disk s)
  ∧ App.rename_completed (App.reset_all s) = false
  ∧ (∀ s0 reply_yes s1,
       App.rename_files rt reply_yes s0 = Some s1 →
       App.disk s1 = App.disk s0
       ∨ (App.rename_completed s0 = false ∧ App.rename_completed s1 = true))
  ∧ Sample.disk_after Sample.first_pass
    = Some [ "/p/20210430_090000_Unknown.jpg" ]
  ∧ Sample.disk_after (Sample.first_pass ++ [ App.RenameFiles true ])
    = Some [ "/p/20210430_090000_Unknown.jpg" ]
  ∧ Sample.disk_after (Sample.first_pass ++ Sample.second_pass)
    = Some [ "/p/20210430_090000_Unknown_1.jpg" ].
Proof.
  intros Hc Hall. split.
  { intros reply_yes. by apply rename_request_rejected. }
  split; [by apply run_keeps_completed|]. split; [done|]. split.
  { intros s0 reply_yes s1. apply rename_request_effect. }
  by vm_compute.
Qed.

(** * Further properties of the code *)

(** ** The shape of a normalized time *)

Lemma code_digit_char n :
  Text.code (Strptime.digit_char n) = 48 + N.to_nat (n mod 10).
Proof.
  unfold Text.code, Strptime.digit_char, nat_of_ascii.
  pose proof (N.mod_lt n 10 ltac:(lia)) as Hlt.
  set (k := (n mod 10)%N) in *.
  rewrite N_ascii_embedding by lia. lia.
Qed.

Lemma digit_char_isdigit n : Text.isdigit (Strptime.digit_char n) = true.
Proof.
  unfold Text.isdigit. rewrite code_digit_char.
  pose proof (N.mod_lt n 10 ltac:(lia)) as Hlt.
  set (k := (n mod 10)%N) in *.
  apply andb_true_iff. split; apply Nat.leb_le; lia.
Qed.

(** With its four digits the year gives the canonical shape. *)
Lemma strftime_canonical dt :
  (1000 ≤ Strptime.year dt)%N ∨ pads_year = true →
  View.is_canonical (Strptime.strftime dt) = true.
Proof.
  intros H. rewrite (strftime_padded _ H).
  unfold View.is_canonical, Strptime.pad4, Strptime.pad2.
  rewrite !string_app_cons, !string_app_nil.
  cbn [View.after_digits]. rewrite !digit_char_isdigit. reflexivity.
Qed.

(** The decimal digits of a year below 1000, as the library that does not
    pad writes them. *)
Lemma pretty_year y :
  (y < 1000)%N →
  pretty y
  = if (y <? 10)%N then String (Strptime.digit_char y) ""
    else if (y <? 100)%N then
      String (Strptime.digit_char (y / 10)) (String (Strptime.digit_char y) "")
    else
      String (Strptime.digit_char (y / 100))
        (String (Strptime.digit_char (y / 10))
           (String (Strptime.digit_char y) "")).
Proof.
  intros Hy.
  assert (Hall :
    forallb
      (λ n : nat,
         String.eqb (pretty (N.of_nat n))
           (if (N.of_nat n <? 10)%N
            then String (Strptime.digit_char (N.of_nat n)) ""
            else if (N.of_nat n <? 100)%N then
              String (Strptime.digit_char (N.of_nat n / 10))
                (String (Strptime.digit_char (N.of_nat n)) "")
            else
              String (Strptime.digit_char (N.of_nat n / 100))
                (String (Strptime.digit_char (N.of_nat n / 10))
                   (String (Strptime.digit_char (N.of_nat n)) ""))))
      (seq 0 1000) = true) by (vm_compute; reflexivity).
  rewrite forallb_forall in Hall.
  specialize (Hall (N.to_nat y)). rewrite N2Nat.id in Hall.
  apply String.eqb_eq, Hall, in_seq. lia.
Qed.

Lemma leading_digits_digit n s :
  View.leading_digits (String (Strptime.digit_char n) s)
  = (S (View.leading_digits s).1, (View.leading_digits s).2).
Proof.
  cbn [View.leading_digits]. rewrite digit_char_isdigit.
  by destruct (View.leading_digits s).
Qed.

(** Whatever the library does with the year, the time is a stamp. *)
Lemma strftime_stamp dt :
  (Strptime.year dt ≤ 9999)%N → View.is_stamp (Strptime.strftime dt) = true.
Proof.
  assert (Htail : ∀ a b c d e f,
    View.leading_digits
      (String "_"
         (String (Strptime.digit_char a) (String (Strptime.digit_char b)
         (String (Strptime.digit_char c) (String (Strptime.digit_char d)
         (String (Strptime.digit_char e) (String (Strptime.digit_char f) "")))))))
    = (0, String "_"
         (String (Strptime.digit_char a) (String (Strptime.digit_char b)
         (String (Strptime.digit_char c) (String (Strptime.digit_char d)
         (String (Strptime.digit_char e) (String (Strptime.digit_char f) "")))))))
    ∧ match View.after_digits 6
              (String (Strptime.digit_char a) (String (Strptime.digit_char b)
              (String (Strptime.digit_char c) (String (Strptime.digit_char d)
              (String (Strptime.digit_char e)
                 (String (Strptime.digit_char f) "")))))) with
      | Some EmptyString => true
      | _ => false
      end = true).
  { intros a b c d e f. split; [reflexivity|].
    cbn [View.after_digits]. by rewrite !digit_char_isdigit. }
  intros Hy. unfold Strptime.strftime, Strptime.year_text.
  destruct ((1000 <=? Strptime.year dt)%N || pads_year) eqn:Hpad.
  - unfold View.is_stamp, Strptime.pad4, Strptime.pad2.
    rewrite !string_app_cons, !string_app_nil.
    rewrite !leading_digits_digit, (proj1 (Htail _ _ _ _ _ _)).
    cbn [fst snd]. by rewrite (proj2 (Htail _ _ _ _ _ _)).
  - apply orb_false_iff in Hpad as [Hlt _]. apply N.leb_gt in Hlt.
    rewrite (pretty_year _ Hlt).
    unfold View.is_stamp, Strptime.pad2.
    destruct (Strptime.year dt <? 10)%N; [|destruct (Strptime.year dt <? 100)%N];
      rewrite !string_app_cons, !string_app_nil;
      rewrite !leading_digits_digit, (proj1 (Htail _ _ _ _ _ _));
      cbn [fst snd]; by rewrite (proj2 (Htail _ _ _ _ _ _)).
Qed.

Lemma strptime_year data fmt dt :
  Strptime.strptime data fmt = Some dt →
  (1 ≤ Strptime.year dt)%N ∧ (Strptime.year dt ≤ 9999)%N.
Proof.
  unfold Strptime.strptime, Strptime.build.
  destruct (Strptime.pattern fmt) as [items|]; [|done].
  destruct (Strptime.match_items items data []) as [[|[found rest] l]|];
    [done| |done].
  destruct rest; [|done].
  destruct (_ && _)%bool eqn:Hc; [|done]. intros [= <-]. cbn [Strptime.year].
  rewrite !andb_true_iff, !N.leb_le in Hc. tauto.
Qed.

Lemma stamped_known s : View.stamped s → s ≠ Text.UNKNOWN_TIME.
Proof.
  intros (dt & _ & Hy & ->) Hu.
  pose proof (strftime_stamp dt Hy) as Hs. by rewrite Hu in Hs.
Qed.

(** What a stamped text looks like. *)
Lemma stamped_shape s :
  View.stamped s →
  ∃ dt, s = Strptime.strftime dt
        ∧ (1 ≤ Strptime.year dt)%N ∧ (Strptime.year dt ≤ 9999)%N
        ∧ View.is_stamp s = true
        ∧ ((1000 ≤ Strptime.year dt)%N ∨ pads_year = true →
           View.is_canonical s = true ∧ String.length s = 15).
Proof.
  intros (dt & Hy1 & Hy2 & ->). exists dt.
  split; [done|]. split; [done|]. split; [done|].
  split; [by apply strftime_stamp|].
  intros H. split; [by apply strftime_canonical|by apply strftime_length].
Qed.

(** The normalizer answers the unknown marker or a stamped time. *)
Lemma format_shape raw :
  Normalizer.format_datetime_string raw = Text.UNKNOWN_TIME
  ∨ View.stamped (Normalizer.format_datetime_string raw).
Proof.
  unfold Normalizer.format_datetime_string.
  destruct (negb (Text.truthy raw)); [by left|].
  destruct (try_formats_first raw Normalizer.formats)
    as [[Hu _]|(i & fmt & dt & _ & Hp & _ & Hr)]; [by left|].
  right. rewrite Hr. apply strptime_year in Hp as [Hy1 Hy2]. by exists dt.
Qed.

Lemma entry_time_shape tiff_data entry_start e i t :
  Tiff.entry_time tiff_data entry_start e i = Some t →
  View.stamped t.
Proof.
  unfold Tiff.entry_time.
  destruct (_ <? _)%N; [done|]. destruct (_ && _ && _ && _); [|done].
  destruct (_ && _ && Tiff.differs _ Text.UNKNOWN_TIME) eqn:Hc; [|done].
  intros [= <-]. apply andb_true_iff in Hc as [_ Hd]. apply differs_true in Hd.
  match goal with
  | |- View.stamped (Normalizer.format_datetime_string ?x) =>
      by destruct (format_shape x)
  end.
Qed.

Lemma parse_ifd_shape tiff_data offset e :
  (Tiff.parse_ifd tiff_data offset e).1 = Text.UNKNOWN_TIME
  ∨ View.stamped (Tiff.parse_ifd tiff_data offset e).1.
Proof.
  unfold Tiff.parse_ifd.
  destruct (Bytes.len tiff_data <? offset + 2)%N eqn:Hin; [by left|].
  apply N.ltb_ge in Hin.
  rewrite unpack_H_two by (rewrite slice_length; lia).
  cbn [mbind option_bind].
  destruct (ifd_entries_last tiff_data (offset + 2) e Tiff.UNKNOWN_PAIR
              (seq 0 (N.to_nat
                        (Bytes.number e
                           (Bytes.slice tiff_data offset (offset + 2))))))
    as [cm ->].
  cbn [from_option id fst Tiff.UNKNOWN_PAIR].
  destruct (last _) as [t|] eqn:Hl; [|by left].
  right. cbn [from_option id].
  apply last_Some in Hl as [l' Hl].
  assert (Hin' : t ∈ omap (Tiff.entry_time tiff_data (offset + 2) e)
                        (seq 0 (N.to_nat
                                  (Bytes.number e
                                     (Bytes.slice tiff_data offset (offset + 2)))))).
  { rewrite Hl. apply elem_of_app. right. by left. }
  apply list_elem_of_omap in Hin' as (i & _ & Hi).
  by eapply entry_time_shape.
Qed.

Lemma parse_tiff_data_shape tiff_data :
  (Tiff.parse_tiff_data tiff_data).1 = Text.UNKNOWN_TIME
  ∨ View.stamped (Tiff.parse_tiff_data tiff_data).1.
Proof.
  unfold Tiff.parse_tiff_data.
  destruct (_ <? _)%N; [by left|].
  destruct (if Bytes.eqb _ _ then _ else _) as [e|]; [|by left].
  destruct (Bytes.unpack_H e _) as [tiff_id|]; [|by left].
  cbn [mbind option_bind]. destruct (negb _); [by left|].
  destruct (Bytes.unpack_L e _) as [ifd_offset|]; [|by left].
  apply parse_ifd_shape.
Qed.

Lemma parse_raw_exif_shape file :
  (Tiff.parse_raw_exif file).1 = Text.UNKNOWN_TIME
  ∨ View.stamped (Tiff.parse_raw_exif file).1.
Proof.
  unfold Tiff.parse_raw_exif. destruct file as [data|]; [|by left].
  destruct (negb _); [by left|].
  generalize (S (length data)) as fuel. generalize 2%N as pos.
  intros pos fuel. revert pos.
  induction fuel as [|fuel IH]; intros pos; [by left|].
  cbn [Tiff.walk_markers].
  destruct (Bytes.slice data pos (pos + 2)) as [|m0 [|m1 [|m2 ms]]];
    try (by left).
  destruct (negb _); [by left|]. destruct (N.eqb (Byte.to_N m1) 225).
  - destruct (Bytes.unpack_H _ _) as [length|]; [|by left].
    destruct (N.eqb length 0); [by left|].
    destruct (Bytes.starts_with _ _); [apply parse_tiff_data_shape|apply IH].
  - destruct (_ && _); [|by left].
    destruct (Bytes.unpack_H _ _) as [length|]; [by apply IH|by left].
Qed.

Lemma parse_exif_shape TAGS exifdata :
  (ExifWorker.parse_exif_with_pil TAGS exifdata).1 = Text.UNKNOWN_TIME
  ∨ View.stamped (ExifWorker.parse_exif_with_pil TAGS exifdata).1.
Proof.
  rewrite parse_exif_time.
  destruct (ExifWorker.by_priority _ _ _); [apply format_shape|by left].
Qed.

Lemma accept_shape r date_time camera_model err :
  r.1 = Text.UNKNOWN_TIME ∨ View.stamped r.1 →
  ExifWorker.accept r = Some (date_time, camera_model, err) →
  View.stamped date_time ∧ err = None.
Proof.
  destruct r as [d c]. unfold ExifWorker.accept. cbn [fst]. intros Hs.
  destruct (Text.truthy d && Tiff.differs d Text.UNKNOWN_TIME) eqn:Ht; [|done].
  intros [= <- _ <-]. apply andb_true_iff in Ht as [_ Ht].
  apply differs_true in Ht. by destruct Hs.
Qed.

Lemma tag_stage_shape TAGS src date_time camera_model err :
  Control.suppress (ExifWorker.tag_stage TAGS src)
    = Some (date_time, camera_model, err) →
  View.stamped date_time ∧ err = None.
Proof.
  destruct src as [| |[|entry exifdata]]; simpl; try done.
  apply accept_shape, parse_exif_shape.
Qed.

(** X1.  The outcome of the fallback chain is either the failure triple
    (unknown time, camera Unknown, the no-EXIF message) or, without message,
    the time of a date-time with a year from 1 to 9999 as [strftime] writes
    it: five to eight digits, an underscore and six digits.  It has the
    15 characters of YYYYMMDD_HHMMSS when the year has four digits or the
    C library pads the year.  No stage lets a partial or unnormalized time
    through. *)
Theorem X1_extraction_outcome_shape
    (TAGS : gmap Z string) (file : Exif.image_file) :
  ExifWorker.get_advanced_exif_data TAGS file
  = (Text.UNKNOWN_TIME, Text.UNKNOWN_MODEL, Some ExifWorker.NO_EXIF)
  ∨ ∃ date_time camera_model dt,
      ExifWorker.get_advanced_exif_data TAGS file
      = (date_time, camera_model, None)
      ∧ date_time = Strptime.strftime dt
      ∧ (1 ≤ Strptime.year dt)%N ∧ (Strptime.year dt ≤ 9999)%N
      ∧ View.is_stamp date_time = true
      ∧ ((1000 ≤ Strptime.year dt)%N ∨ pads_year = true →
         View.is_canonical date_time = true ∧ String.length date_time = 15).
Proof.
  assert (Hfound : ∀ d m : string,
    View.stamped d →
    ∃ date_time camera_model dt,
      (d, m, @None string) = (date_time, camera_model, None)
      ∧ date_time = Strptime.strftime dt
      ∧ (1 ≤ Strptime.year dt)%N ∧ (Strptime.year dt ≤ 9999)%N
      ∧ View.is_stamp date_time = true
      ∧ ((1000 ≤ Strptime.year dt)%N ∨ pads_year = true →
         View.is_canonical date_time = true ∧ String.length date_time = 15)).
  { intros d m Hs. apply stamped_shape in Hs as (dt & Hs). by exists d, m, dt. }
  unfold ExifWorker.get_advanced_exif_data.
  destruct (Control.suppress (ExifWorker.tag_stage TAGS (Exif.via_getexif file)))
    as [[[d m] err]|] eqn:H1.
  { apply tag_stage_shape in H1 as [Hc ->]. right. by apply Hfound. }
  destruct (Control.suppress
              (ExifWorker.tag_stage TAGS (Exif.via_getexif_legacy file)))
    as [[[d m] err]|] eqn:H2.
  { apply tag_stage_shape in H2 as [Hc ->]. right. by apply Hfound. }
  destruct (Control.suppress
              (ExifWorker.tag_stage TAGS (Exif.via_exif_attribute file)))
    as [[[d m] err]|] eqn:H3.
  { apply tag_stage_shape in H3 as [Hc ->]. right. by apply Hfound. }
  destruct (Control.suppress (ExifWorker.raw_stage (Exif.content file)))
    as [[[d m] err]|] eqn:H4; [|by left].
  apply accept_shape in H4 as [Hc ->]; [|apply parse_raw_exif_shape].
  right. by apply Hfound.
Qed.

Lemma outcome_time_shape TAGS file date_time camera_model err :
  ExifWorker.get_advanced_exif_data TAGS file = (date_time, camera_model, err) →
  date_time = Text.UNKNOWN_TIME ∨ View.stamped date_time.
Proof.
  unfold ExifWorker.get_advanced_exif_data.
  destruct (Control.suppress (ExifWorker.tag_stage TAGS (Exif.via_getexif file)))
    as [[[d m] e]|] eqn:H1.
  { intros [= <- <- <-]. right. by apply tag_stage_shape in H1 as [Hc _]. }
  destruct (Control.suppress
              (ExifWorker.tag_stage TAGS (Exif.via_getexif_legacy file)))
    as [[[d m] e]|] eqn:H2.
  { intros [= <- <- <-]. right. by apply tag_stage_shape in H2 as [Hc _]. }
  destruct (Control.suppress
              (ExifWorker.tag_stage TAGS (Exif.via_exif_attribute file)))
    as [[[d m] e]|] eqn:H3.
  { intros [= <- <- <-]. right. by apply tag_stage_shape in H3 as [Hc _]. }
  destruct (Control.suppress (ExifWorker.raw_stage (Exif.content file)))
    as [[[d m] e]|] eqn:H4.
  { intros [= <- <- <-]. right.
    by apply accept_shape in H4 as [Hc _]; [|apply parse_raw_exif_shape]. }
  intros [= <- _ _]. by left.
Qed.

Lemma examine_named HEIC_SUPPORT TAGS disk f fp old d m b e :
  ExifWorker.examine HEIC_SUPPORT TAGS disk f
    = Control.Ok (ExifWorker.Named fp old d m b e) →
  fp = f ∧ old = Path.basename f ∧ e = Path.splitext_ext old
  ∧ View.stamped d ∧ b = d +:+ "_" +:+ m.
Proof.
  unfold ExifWorker.examine.
  destruct (_ && negb HEIC_SUPPORT); [done|].
  destruct (ExifWorker.get_advanced_exif_data TAGS _) as [[d' m'] err] eqn:Hg.
  destruct (from_option _ _ _); [done|].
  destruct (String.eqb d' Text.UNKNOWN_TIME) eqn:Hd; [done|].
  intros [= <- <- <- <- <- <-]. apply String.eqb_neq in Hd.
  apply outcome_time_shape in Hg as [Hg|Hg]; [done|]. by repeat split.
Qed.

(** X2.  Every result of the scan without error belongs to one of the input
    files and carries the file's base name, the extension [splitext] gives
    for it in its original case, the time of a date-time as [strftime]
    writes it (five to eight digits, an underscore, six digits; the shape
    YYYYMMDD_HHMMSS when the year has four digits or the C library pads the
    year) and the new base name time_camera built from the two. *)
Theorem X2_named_result_fields
    (HEIC_SUPPORT : bool) (TAGS : gmap Z string)
    (disk : gmap string Exif.image_file) (file_paths : list string)
    (results : list ExifWorker.outcome) (progress : list (nat * nat))
    (fp old d m b e : string) :
  ExifWorker.process_files HEIC_SUPPORT TAGS disk file_paths
    = Control.Ok (results, progress) →
  ExifWorker.Named fp old d m b e ∈ results →
  fp ∈ file_paths ∧ old = Path.basename fp ∧ e = Path.splitext_ext old
  ∧ (∃ dt, d = Strptime.strftime dt
           ∧ (1 ≤ Strptime.year dt)%N ∧ (Strptime.year dt ≤ 9999)%N
           ∧ View.is_stamp d = true
           ∧ ((1000 ≤ Strptime.year dt)%N ∨ pads_year = true →
              View.is_canonical d = true ∧ String.length d = 15))
  ∧ b = d +:+ "_" +:+ m.
Proof.
  unfold ExifWorker.process_files. rewrite scan_loop_total. cbn [app].
  intros [= <- _] Hin.
  apply list_elem_of_In, in_map_iff in Hin as (f & Hf & Hin).
  apply list_elem_of_In in Hin.
  destruct (ExifWorker.examine HEIC_SUPPORT TAGS disk f) as [r|] eqn:He;
    [|done].
  subst r. apply examine_named in He as (-> & -> & -> & Hc & ->).
  apply stamped_shape in Hc. by repeat split.
Qed.

(** ** Preview mode and execution mode *)

(** X3.  The preview generator settles on base_name+extension when that is
    unclaimed, and otherwise on base_name_N+extension for the least
    N = 1, 2, ... that is unclaimed. *)
Theorem X3_preview_first_unclaimed_name
    (base_name extension : string) (existing : gset string) :
  ∃ name,
    (∀ fuel, size existing < fuel →
       Planner.generate_unique_filename_preview fuel base_name extension existing
       = Some name)
    ∧ (((base_name +:+ extension ∉ existing) ∧ name = base_name +:+ extension)
       ∨ ((base_name +:+ extension ∈ existing)
          ∧ ∃ N, 1 ≤ N ∧ name = Planner.suffixed base_name N extension
                 ∧ (name ∉ existing)
                 ∧ ∀ M, 1 ≤ M → M < N →
                     Planner.suffixed base_name M extension ∈ existing)).
Proof.
  destruct (preview_result (S (size existing)) base_name extension existing
              ltac:(lia)) as (name & Hrun & Hfresh).
  exists name. split.
  { intros fuel Hfuel. eapply preview_fuel; [exact Hrun|lia]. }
  unfold Planner.generate_unique_filename_preview in Hrun.
  destruct (bool_decide (base_name +:+ extension ∉ existing)) eqn:Ht.
  - injection Hrun as <-. left. by split.
  - right. apply bool_decide_eq_false in Ht. split.
    { by destruct (decide (base_name +:+ extension ∈ existing)). }
    rewrite (preview_loop_as_actual _ _ _ _ _ "") in Hrun.
    apply actual_loop_sound in Hrun as (m & Hm & -> & [Hf _] & Hmin).
    exists m. split; [done|]. split; [done|]. split; [done|].
    intros M HM1 HM2. specialize (Hmin M HM1 HM2).
    destruct (decide (Planner.suffixed base_name M extension ∈ existing))
      as [|Hout]; [done|].
    exfalso. apply Hmin. split; [done|].
    unfold FS.path_exists, FS.present. cbn [FS.files]. rewrite dom_empty_L.
    by apply bool_decide_eq_false.
Qed.

Lemma actual_loop_as_preview fuel base_name extension folder used fs counter :
  (∀ n, FS.path_exists fs
          (Path.join folder (Planner.suffixed base_name n extension)) = false) →
  Planner.actual_loop fuel base_name extension folder used fs counter
  = Planner.preview_loop fuel base_name extension used counter.
Proof.
  intros Hclear. revert counter.
  induction fuel as [|fuel IH]; intros counter; [done|].
  simpl. rewrite Hclear, IH. simpl. by rewrite andb_true_r.
Qed.

Lemma actual_as_preview fuel base_name extension folder used fs :
  View.clear_of fs folder base_name extension →
  Planner.generate_unique_filename_actual fuel base_name extension folder used fs
  = Planner.generate_unique_filename_preview fuel base_name extension used.
Proof.
  intros [Hplain Hsuff].
  unfold Planner.generate_unique_filename_actual,
    Planner.generate_unique_filename_preview.
  rewrite Hplain, orb_false_r, (actual_loop_as_preview _ _ _ _ _ _ _ Hsuff).
  destruct (decide (base_name +:+ extension ∈ used)) as [Hin|Hout].
  - rewrite (bool_decide_eq_true_2 _ Hin).
    by rewrite (bool_decide_eq_false_2 (_ ∉ used)) by auto.
  - rewrite (bool_decide_eq_false_2 _ Hout).
    by rewrite (bool_decide_eq_true_2 (_ ∉ used)) by auto.
Qed.

(** X4.  When no candidate name of the results exists in their folders, the
    rename plans exactly the names the preview table shows: from the same
    claimed set and for every fuel, the target paths of the tasks are the
    preview names joined to the folders of the files. *)
Theorem X4_rename_plans_the_preview_names
    (fuel : nat) (results : list ExifWorker.outcome) (used : gset string)
    (fs : FS.t) :
  (∀ fp old d m b e, ExifWorker.Named fp old d m b e ∈ results →
     View.clear_of fs (Path.dirname fp) b e) →
  map RenameWorker.new_path <$> App.plan_tasks fuel results used fs
  = zip_with (λ fp name, Path.join (Path.dirname fp) name)
      (View.named_paths results)
    <$> Planner.preview_batch fuel (View.rows_of results) used.
Proof.
  revert used. induction results as [|r results IH]; intros used Hclear; [done|].
  assert (Hrest : ∀ fp old d m b e,
            ExifWorker.Named fp old d m b e ∈ results →
            View.clear_of fs (Path.dirname fp) b e).
  { intros fp old d m b e Hin. eapply Hclear. right. exact Hin. }
  destruct r as [fp old d m err nn|fp old d m b e];
    cbn [App.plan_tasks View.rows_of View.named_paths Planner.preview_batch].
  - by apply IH.
  - rewrite (actual_as_preview fuel b e (Path.dirname fp) used fs)
      by (eapply Hclear; by left).
    destruct (Planner.generate_unique_filename_preview fuel b e used)
      as [name|]; [|done].
    specialize (IH ({[name]} ∪ used) Hrest).
    destruct (App.plan_tasks fuel results _ fs) as [tasks|];
      destruct (Planner.preview_batch fuel (View.rows_of results) _)
        as [names|]; simpl in *; try done.
    by injection IH as ->.
Qed.

(** ** The plans of a rename *)

Lemma plan_tasks_fuel fuel fuel' results used fs tasks :
  App.plan_tasks fuel results used fs = Some tasks → fuel ≤ fuel' →
  App.plan_tasks fuel' results used fs = Some tasks.
Proof.
  revert used tasks.
  induction results as [|[fp old d m err nn|fp old d m b e] results IH];
    intros used tasks H Hle; cbn [App.plan_tasks] in *; [done|by eapply IH|].
  destruct (Planner.generate_unique_filename_actual fuel b e _ used fs)
    as [name|] eqn:Hn; [|done].
  rewrite (actual_fuel _ _ _ _ _ _ _ _ Hn Hle).
  destruct (App.plan_tasks fuel results _ fs) as [ts|] eqn:Ht; [|done].
  by rewrite (IH _ _ Ht Hle).
Qed.

Lemma plan_tasks_total fuel results used fs :
  size used + size (FS.present fs) + length results < fuel →
  ∃ tasks names,
    App.plan_tasks fuel results used fs = Some tasks
    ∧ map RenameWorker.filepath tasks = View.named_paths results
    ∧ map RenameWorker.new_path tasks
      = zip_with (λ fp name, Path.join (Path.dirname fp) name)
          (View.named_paths results) names
    ∧ length names = length tasks
    ∧ NoDup names
    ∧ (∀ n, n ∈ names → n ∉ used)
    ∧ Forall (λ t, FS.path_exists fs (RenameWorker.new_path t) = false) tasks.
Proof.
  revert used.
  induction results as [|[fp old d m err nn|fp old d m b e] results IH];
    intros used Hfuel; cbn [App.plan_tasks View.named_paths].
  - exists [], []. repeat split; try done; [constructor|].
    intros n Hn. by apply elem_of_nil in Hn.
  - apply IH. simpl in Hfuel. lia.
  - simpl in Hfuel.
    destruct (actual_terminates fuel b e (Path.dirname fp) used fs ltac:(lia))
      as [name Hn].
    rewrite Hn. destruct (actual_sound _ _ _ _ _ _ _ Hn) as [Hfresh Hdisk].
    destruct (IH ({[name]} ∪ used))
      as (tasks & names & -> & Hsrc & Hdst & Hlen & Hnd & Hout & Hfree).
    { rewrite size_union by set_solver. rewrite size_singleton. lia. }
    eexists _, (name :: names). split; [done|].
    cbn [map RenameWorker.filepath RenameWorker.new_path zip_with length].
    rewrite Hsrc, Hdst, Hlen. repeat split; try done.
    + constructor; [|done]. intros Hin. apply Hout in Hin. set_solver.
    + intros n Hin. apply elem_of_cons in Hin as [->|Hin]; [done|].
      apply Hout in Hin. set_solver.
    + by constructor.
Qed.

(** X5.  The planning loop of the rename ends for every fuel above the number
    of results plus the number of existing paths, with one task per result
    without error, in the order of the results.  The planned names are
    pairwise distinct, each target is the planned name in the folder of its
    file, and no target exists on disk at the time of planning. *)
Theorem X5_rename_plan_is_collision_free
    (results : list ExifWorker.outcome) (fs : FS.t) :
  ∃ tasks names,
    (∀ fuel, size (FS.present fs) + length results < fuel →
       App.plan_tasks fuel results ∅ fs = Some tasks)
    ∧ map RenameWorker.filepath tasks = View.named_paths results
    ∧ length tasks = App.count_named results
    ∧ map RenameWorker.new_path tasks
      = zip_with (λ fp name, Path.join (Path.dirname fp) name)
          (View.named_paths results) names
    ∧ length names = length tasks
    ∧ NoDup names
    ∧ Forall (λ t, FS.path_exists fs (RenameWorker.new_path t) = false) tasks.
Proof.
  destruct (plan_tasks_total (S (size (FS.present fs) + length results))
              results ∅ fs)
    as (tasks & names & Hrun & Hsrc & Hdst & Hlen & Hnd & _ & Hfree).
  { rewrite size_empty. lia. }
  exists tasks, names. split.
  { intros fuel Hfuel. eapply plan_tasks_fuel; [exact Hrun|lia]. }
  split; [done|]. split; [|done].
  rewrite <- (length_map RenameWorker.filepath), Hsrc.
  clear. unfold App.count_named.
  induction results as [|[]]; simpl; [done|done|]. by f_equal.
Qed.

(** ** What a rename does to the disk *)

Lemma rename_one_effect fuel t fs fs' :
  RenameWorker.rename_one fuel t fs = Some (Control.Ok fs') →
  ∃ target f,
    FS.files fs !! RenameWorker.filepath t = Some f
    ∧ FS.files fs !! target = None
    ∧ FS.files fs'
      = <[target := f]> (delete (RenameWorker.filepath t) (FS.files fs))
    ∧ FS.locked fs' = FS.locked fs.
Proof.
  unfold RenameWorker.rename_one.
  destruct (RenameWorker.free_path fuel t fs _ 1) as [target|] eqn:Hp; [|done].
  apply free_path_sound in Hp. unfold FS.rename.
  destruct (FS.files fs !! RenameWorker.filepath t) as [f|] eqn:Hold; [|done].
  destruct (bool_decide _); [done|]. intros [= <-].
  exists target, f. split; [done|]. split; [|done].
  unfold FS.path_exists, FS.present in Hp. apply bool_decide_eq_false in Hp.
  by apply not_elem_of_dom in Hp.
Qed.

Lemma rename_loop_keeps fuel total i tasks st final :
  RenameWorker.rename_loop fuel total i tasks st = Some final →
  size (FS.files (RenameWorker.disk final))
  = size (FS.files (RenameWorker.disk st))
  ∧ FS.locked (RenameWorker.disk final) = FS.locked (RenameWorker.disk st)
  ∧ (∀ p f, p ∉ map RenameWorker.filepath tasks →
       FS.files (RenameWorker.disk st) !! p = Some f →
       FS.files (RenameWorker.disk final) !! p = Some f)
  ∧ (∀ p f, FS.files (RenameWorker.disk st) !! p = Some f →
       ∃ q, FS.files (RenameWorker.disk final) !! q = Some f).
Proof.
  revert i st. induction tasks as [|t rest IH]; intros i st Hrun.
  - injection Hrun as <-. repeat split; eauto.
  - cbn [RenameWorker.rename_loop] in Hrun.
    destruct (RenameWorker.rename_one fuel t (RenameWorker.disk st))
      as [[fs'|]|] eqn:Hone; [| |done].
    + apply rename_one_effect in Hone as (target & f0 & Hold & Hnew & Hfiles & Hl).
      apply IH in Hrun as (Hsize & Hlock & Hkeep & Hsome).
      cbn [RenameWorker.disk] in *.
      assert (Hne : target ≠ RenameWorker.filepath t) by congruence.
      split; [|split; [congruence|split]].
      * rewrite Hsize, Hfiles.
        rewrite map_size_insert_None by (by rewrite lookup_delete_ne).
        rewrite map_size_delete_Some by eauto.
        pose proof (map_size_ne_0_lookup_2 (FS.files (RenameWorker.disk st))
                      (RenameWorker.filepath t) ltac:(eauto)).
        lia.
      * intros p f Hp Hf. apply Hkeep.
        { intros Hin. apply Hp. right. exact Hin. }
        rewrite Hfiles.
        assert (p ≠ RenameWorker.filepath t)
          by (intros ->; apply Hp; by left).
        assert (p ≠ target) by congruence.
        by rewrite lookup_insert_ne, lookup_delete_ne.
      * intros p f Hf.
        destruct (decide (p = RenameWorker.filepath t)) as [->|Hp].
        -- apply (Hsome target). rewrite Hfiles, lookup_insert_eq. congruence.
        -- apply (Hsome p). rewrite Hfiles.
           assert (p ≠ target) by congruence.
           by rewrite lookup_insert_ne, lookup_delete_ne.
    + destruct (RenameWorker.report fuel t (RenameWorker.disk st)).
      * apply IH in Hrun as (Hsize & Hlock & Hkeep & Hsome).
        cbn [RenameWorker.disk] in *.
        split; [done|]. split; [done|]. split; [|done].
        intros p f Hp Hf. apply Hkeep; [|done].
        intros Hin. apply Hp. right. exact Hin.
      * injection Hrun as <-. cbn [RenameWorker.disk]. repeat split; eauto.
Qed.

(** X6.  The rename worker neither deletes nor overwrites: for every fuel
    above the number of existing paths plus one it ends with a disk that has
    as many files as before, on which every file outside the batch is where
    it was with what it held, and on which the content of every file of the
    batch is still found, under its old or its new path. *)
Theorem X6_rename_keeps_every_file
    (rename_tasks : list RenameWorker.task) (fs : FS.t) :
  ∃ final,
    (∀ fuel, size (FS.present fs) + 1 < fuel →
       RenameWorker.rename_files fuel rename_tasks fs = Some final)
    ∧ size (FS.files (RenameWorker.disk final)) = size (FS.files fs)
    ∧ (∀ p f, p ∉ map RenameWorker.filepath rename_tasks →
         FS.files fs !! p = Some f →
         FS.files (RenameWorker.disk final) !! p = Some f)
    ∧ (∀ p f, FS.files fs !! p = Some f →
         ∃ q, FS.files (RenameWorker.disk final) !! q = Some f).
Proof.
  unfold RenameWorker.rename_files.
  set (st0 := {| RenameWorker.success_count := 0;
                 RenameWorker.error_count := 0;
                 RenameWorker.progress := []; RenameWorker.disk := fs;
                 RenameWorker.raised := false |}).
  destruct (rename_loop_total (S (S (size (FS.present fs))))
              (length rename_tasks) 0 rename_tasks st0)
    as (final & Hrun & _); [simpl; lia|].
  exists final. split.
  { intros fuel Hfuel. eapply rename_loop_fuel; [exact Hrun|lia]. }
  apply rename_loop_keeps in Hrun as (Hsize & _ & Hkeep & Hsome).
  by repeat split.
Qed.

(** ** The rename button *)

Lemma step_keeps_button_rule rt s ev s' :
  (App.rename_btn_enabled s = true →
   App.rename_completed s = false ∧ 0 < App.count_named (App.preview_results s)) →
  App.step rt s ev = Some s' →
  App.rename_btn_enabled s' = true →
  App.rename_completed s' = false ∧ 0 < App.count_named (App.preview_results s').
Proof.
  intros Hinv. destruct ev as [folder_path listing| | |reply_yes]; simpl.
  - unfold App.select_folder. destruct (Text.truthy folder_path).
    + intros [= <-]. simpl. done.
    + by intros [= <-].
  - intros [= <-]. simpl. done.
  - unfold App.preview_names. destruct (App.selected_files s).
    + intros [= <-]. simpl. exact Hinv.
    + destruct (ExifWorker.process_files _ _ _ _) as [[results progress]|].
      * intros [= <-]. unfold App.on_preview_finished. simpl.
        destruct (App.rename_completed s) eqn:Hc; simpl.
        -- intros Hb. by destruct (Hinv Hb).
        -- intros Hb. apply bool_decide_eq_true in Hb. done.
      * by intros [= <-].
  - unfold App.rename_files.
    destruct (App.rename_completed s) eqn:Hc.
    { intros [= <-]. simpl. intros Hb. by destruct (Hinv Hb). }
    destruct (App.preview_results s) as [|r rs] eqn:Hr.
    { intros [= <-]. simpl. rewrite Hc, Hr. exact Hinv. }
    destruct (App.plan_tasks _ _ _ _) as [[|t ts]|]; [| |done].
    { intros [= <-]. simpl. rewrite Hc, Hr. exact Hinv. }
    destruct reply_yes; simpl.
    + destruct (RenameWorker.rename_files _ _ _); [|done].
      intros [= <-]. simpl. done.
    + intros [= <-]. rewrite Hc, Hr. exact Hinv.
Qed.

(** X7.  In every state the window reaches from its start, the rename button
    is enabled only while the batch has not been renamed and the last
    preview holds at least one result without error. *)
Theorem X7_button_enabled_only_with_work
    (rt : App.runtime) (fs : FS.t) (evs : list App.event) (s : App.state) :
  App.run rt (App.init fs) evs = Some s →
  App.rename_btn_enabled s = true →
  App.rename_completed s = false ∧ 0 < App.count_named (App.preview_results s).
Proof.
  assert (Hgen : ∀ s0,
            (App.rename_btn_enabled s0 = true →
             App.rename_completed s0 = false
             ∧ 0 < App.count_named (App.preview_results s0)) →
            App.run rt s0 evs = Some s →
            App.rename_btn_enabled s = true →
            App.rename_completed s = false
            ∧ 0 < App.count_named (App.preview_results s)).
  { induction evs as [|ev evs IH]; intros s0 Hinv Hrun.
    - by injection Hrun as <-.
    - simpl in Hrun. destruct (App.step rt s0 ev) as [s1|] eqn:Hs; [|done].
      apply (IH s1); [|done]. by eapply step_keeps_button_rule. }
  apply Hgen. simpl. done.
Qed.

(** ** The selection of a folder *)

Lemma insert_sorted_perm x l : App.insert_sorted x l ≡ₚ x :: l.
Proof.
  induction l as [|y l IH]; simpl; [done|].
  destruct (String.leb x y); [done|]. rewrite IH. apply perm_swap.
Qed.

Lemma insert_sorted_sorted x l :
  StronglySorted String.le l → StronglySorted String.le (App.insert_sorted x l).
Proof.
  induction 1 as [|y l Hs IH Hall]; simpl.
  - repeat constructor.
  - destruct (String.leb x y) eqn:Hxy.
    + constructor; [by constructor|]. constructor.
      * unfold String.le. by rewrite Hxy.
      * eapply Forall_impl; [exact Hall|]. intros z Hz.
        transitivity y; [|done]. unfold String.le. by rewrite Hxy.
    + constructor; [done|]. rewrite insert_sorted_perm. constructor; [|done].
      destruct (total String.le x y) as [Hle|Hle]; [|done].
      unfold String.le in Hle. by rewrite Hxy in Hle.
Qed.

Lemma sorted_sorts l :
  App.sorted l ≡ₚ l ∧ StronglySorted String.le (App.sorted l).
Proof.
  induction l as [|x l [IHp IHs]]; simpl; [by repeat constructor|]. split.
  - by rewrite insert_sorted_perm, IHp.
  - by apply insert_sorted_sorted.
Qed.

(** X8.  The selection of a folder resets the window and keeps, of what the
    folder lists, exactly the names with one of the sixteen image extensions
    (compared in lower case), as paths in the folder, in ascending order; the
    disk is not touched.  A cancelled dialog leaves the window as it is. *)
Theorem X8_selected_files_are_the_sorted_images
    (c : ascii) (folder : string) (listing : list string) (s : App.state) :
  let s' := App.select_folder (String c folder) listing s in
  App.selected_files s'
    ≡ₚ map (Path.join (String c folder))
         (List.filter
            (λ filename,
               bool_decide (Path.lower (Path.splitext_ext filename)
                            ∈ App.image_extensions)) listing)
  ∧ StronglySorted String.le (App.selected_files s')
  ∧ (∀ p, p ∈ App.selected_files s' →
       ∃ filename, filename ∈ listing
                   ∧ p = Path.join (String c folder) filename
                   ∧ Path.lower (Path.splitext_ext filename)
                     ∈ App.image_extensions)
  ∧ App.preview_results s' = [] ∧ App.rename_completed s' = false
  ∧ App.rename_btn_enabled s' = false ∧ App.disk s' = App.disk s
  ∧ App.select_folder "" listing s = s.
Proof.
  intros s'. unfold s', App.select_folder. cbn [Text.truthy App.selected_files].
  set (files := map _ _).
  destruct (sorted_sorts files) as [Hp Hs].
  split; [done|]. split; [done|]. split; [|done].
  intros p Hin. rewrite Hp in Hin. unfold files in Hin.
  apply list_elem_of_In, in_map_iff in Hin as (filename & <- & Hin).
  apply filter_In in Hin as [Hin Hext]. apply bool_decide_eq_true in Hext.
  exists filename. by rewrite list_elem_of_In.
Qed.

(** ** What the tag search reads *)

Lemma scan_field_cut TAGS field pre tag_id raw post camera_model :
  ExifWorker.tag_is TAGS tag_id field = true →
  ExifWorker.usable (Text.strip (ExifWorker.text_of raw)) = true →
  ExifWorker.scan_field TAGS field (pre ++ (tag_id, raw) :: post) camera_model
  = ExifWorker.scan_field TAGS field (pre ++ [(tag_id, raw)]) camera_model
  ∧ is_Some (ExifWorker.scan_field TAGS field (pre ++ [(tag_id, raw)])
               camera_model).1.
Proof.
  intros Htag Hus. revert camera_model.
  induction pre as [|[id0 raw0] pre IH]; intros camera_model; simpl.
  - rewrite Htag, Hus. split; [done|]. by eexists.
  - destruct (ExifWorker.tag_is TAGS id0 field); [|apply IH].
    destruct (ExifWorker.usable (Text.strip (ExifWorker.text_of raw0)));
      [|apply IH].
    split; [done|]. by eexists.
Qed.

(** X9.  Once the tag search meets a usable DateTimeOriginal it stops
    reading: the tags that follow it in iteration order, a camera Model or
    Make among them, do not reach the result. *)
Theorem X9_tags_after_the_original_time_are_not_read
    (TAGS : gmap Z string) (pre post : list (Z * Exif.raw_value))
    (tag_id : Z) (raw : Exif.raw_value) :
  ExifWorker.tag_is TAGS tag_id "DateTimeOriginal" = true →
  ExifWorker.usable (Text.strip (ExifWorker.text_of raw)) = true →
  ExifWorker.parse_exif_with_pil TAGS (pre ++ (tag_id, raw) :: post)
  = ExifWorker.parse_exif_with_pil TAGS (pre ++ [(tag_id, raw)]).
Proof.
  intros Htag Hus.
  unfold ExifWorker.parse_exif_with_pil, ExifWorker.search_tags.
  unfold ExifWorker.time_fields. cbn [ExifWorker.scan_fields].
  destruct (scan_field_cut TAGS "DateTimeOriginal" pre tag_id raw post
              Text.UNKNOWN_MODEL Htag Hus) as [-> [v Hv]].
  destruct (ExifWorker.scan_field TAGS "DateTimeOriginal"
              (pre ++ [(tag_id, raw)]) Text.UNKNOWN_MODEL) as [[v'|] cm];
    [done|]. simpl in Hv. done.
Qed.

(** ** Bytes and marker segments *)

Lemma len_app a b : Bytes.len (a ++ b) = (Bytes.len a + Bytes.len b)%N.
Proof. unfold Bytes.len. rewrite length_app. lia. Qed.

(** A slice behind a prefix is the slice of what follows the prefix. *)
Lemma slice_shift pre d a b :
  Bytes.slice (pre ++ d) (Bytes.len pre + a) (Bytes.len pre + b)
  = Bytes.slice d a b.
Proof.
  unfold Bytes.slice. rewrite len_app.
  rewrite !N.add_min_distr_l.
  replace (N.to_nat (Bytes.len pre + N.min a (Bytes.len d)))
    with (length pre + N.to_nat (N.min a (Bytes.len d)))
    by (unfold Bytes.len; lia).
  rewrite drop_app_add. f_equal. lia.
Qed.

Lemma slice_middle pre mid post a b :
  a = Bytes.len pre → b = (Bytes.len pre + Bytes.len mid)%N →
  Bytes.slice (pre ++ mid ++ post) a b = mid.
Proof.
  intros -> ->. rewrite <- (N.add_0_r (Bytes.len pre)) at 1.
  rewrite slice_shift. unfold Bytes.slice. rewrite len_app.
  replace (N.to_nat (N.min 0 (Bytes.len mid + Bytes.len post))) with 0 by lia.
  replace (N.to_nat (N.min (Bytes.len mid) (Bytes.len mid + Bytes.len post)
                     - N.min 0 (Bytes.len mid + Bytes.len post)))
    with (length mid) by (unfold Bytes.len; lia).
  simpl. apply take_app_length.
Qed.

Lemma to_N_byte_of n : Byte.to_N (Sample.byte_of n) = (n mod 256)%N.
Proof.
  unfold Sample.byte_of.
  pose proof (N.mod_lt n 256 ltac:(lia)) as Hlt.
  destruct (Byte.of_N (n mod 256)) as [b|] eqn:Hb.
  - by apply Byte.to_of_N in Hb.
  - apply Byte.of_N_None_iff in Hb. lia.
Qed.

(** Two bytes written most significant first are read back. *)
Lemma unpack_be16 n :
  (n < 65536)%N → Bytes.unpack_H Bytes.Big (rev (Sample.le 2 n)) = Some n.
Proof.
  intros Hn. unfold Bytes.unpack_H, Bytes.number, Bytes.be_number. simpl.
  rewrite !to_N_byte_of. f_equal.
  rewrite (N.mod_small (n / 256) 256)
    by (apply N.Div0.div_lt_upper_bound; lia).
  pose proof (N.div_mod n 256 ltac:(lia)). lia.
Qed.

Lemma walk_markers_fuel fuel fuel' data pos r :
  Tiff.walk_markers fuel data pos = Some r → fuel ≤ fuel' →
  Tiff.walk_markers fuel' data pos = Some r.
Proof.
  revert fuel' pos. induction fuel as [|fuel IH]; intros fuel' pos H Hle; [done|].
  destruct fuel' as [|fuel']; [lia|]. cbn [Tiff.walk_markers] in *.
  destruct (Bytes.slice data pos (pos + 2)) as [|m0 [|m1 [|m2 ms]]]; try done.
  destruct (negb _); [done|]. destruct (N.eqb (Byte.to_N m1) 225).
  - destruct (Bytes.unpack_H _ _) as [length|]; [|done].
    destruct (N.eqb length 0); [done|].
    destruct (Bytes.starts_with _ _); [done|]. apply IH; [done|lia].
  - destruct (_ && _); [|done].
    destruct (Bytes.unpack_H _ _) as [length|]; [|done]. apply IH; [done|lia].
Qed.

Lemma walk_markers_agree fuel fuel' data pos :
  N.to_nat (Bytes.len data - pos) < fuel →
  N.to_nat (Bytes.len data - pos) < fuel' →
  Tiff.walk_markers fuel data pos = Tiff.walk_markers fuel' data pos.
Proof.
  intros H1 H2.
  pose proof (walk_markers_fuel_suffices fuel data pos H1) as Hs1.
  pose proof (walk_markers_fuel_suffices fuel' data pos H2) as Hs2.
  destruct (Tiff.walk_markers fuel data pos) as [r|] eqn:Hr; [|done].
  destruct (Tiff.walk_markers fuel' data pos) as [r'|] eqn:Hr'; [|done].
  destruct (Nat.le_ge_cases fuel fuel') as [Hle|Hle].
  - pose proof (walk_markers_fuel _ _ _ _ _ Hr Hle). congruence.
  - pose proof (walk_markers_fuel _ _ _ _ _ Hr' Hle). congruence.
Qed.

(** The walk behind a prefix is the walk over what follows the prefix. *)
Lemma walk_markers_shift fuel pre d pos :
  Tiff.walk_markers fuel (pre ++ d) (Bytes.len pre + pos)
  = Tiff.walk_markers fuel d pos.
Proof.
  revert pos. induction fuel as [|fuel IH]; intros pos; [done|].
  cbn [Tiff.walk_markers].
  rewrite <- !N.add_assoc, !slice_shift.
  destruct (Bytes.slice d pos (pos + 2)) as [|m0 [|m1 [|m2 ms]]]; try done.
  destruct (negb _); [done|]. destruct (N.eqb (Byte.to_N m1) 225).
  - destruct (Bytes.unpack_H _ _) as [length|]; [|done].
    destruct (N.eqb length 0); [done|].
    rewrite len_app, slice_shift.
    replace (Bytes.len pre + (pos + 4) + (length - 2))%N
      with (Bytes.len pre + (pos + 4 + (length - 2)))%N by lia.
    rewrite slice_shift.
    destruct (Bytes.starts_with _ _); [done|].
    rewrite <- N.add_assoc. apply IH.
  - destruct (_ && _); [|done].
    destruct (Bytes.unpack_H _ _) as [length|]; [|done].
    rewrite <- ?N.add_assoc. apply IH.
Qed.

Lemma segment_length kind payload :
  Bytes.len (Sample.segment kind payload) = (4 + Bytes.len payload)%N.
Proof. unfold Sample.segment, Bytes.len. simpl. lia. Qed.

(** One round of the walk at a segment: what the length field announces is
    read or skipped. *)
Lemma walk_markers_segment fuel kind payload rest :
  (Bytes.len payload + 2 < 65536)%N →
  (224 <= Byte.to_N kind)%N → (Byte.to_N kind <= 239)%N →
  Tiff.walk_markers (S fuel) (Sample.segment kind payload ++ rest) 0
  = if N.eqb (Byte.to_N kind) 225
       && Bytes.starts_with Tiff.EXIF_SIGNATURE payload
    then Some (Some (Tiff.parse_tiff_data (drop 6 payload)))
    else Tiff.walk_markers fuel rest 0.
Proof.
  intros Hlen Hlo Hhi.
  set (L := (N.of_nat (length payload) + 2)%N).
  assert (HL : (L < 65536)%N) by (unfold L, Bytes.len in *; lia).
  pose proof (unpack_be16 L HL) as Hunpack.
  pose proof (walk_markers_shift fuel (Sample.segment kind payload) rest 0)
    as Hshift.
  rewrite segment_length in Hshift.
  unfold Sample.segment in *. fold L in Hunpack, Hshift |- *.
  set (field := rev (Sample.le 2 L)) in *.
  assert (Hfield : Bytes.len field = 2%N) by reflexivity.
  set (data := ([xff; kind]%byte ++ field ++ payload) ++ rest) in *.
  assert (H1 : Bytes.slice data 0 (0 + 2) = [xff; kind]%byte).
  { unfold data. rewrite <- !app_assoc.
    apply (slice_middle [] [xff; kind]%byte); reflexivity. }
  assert (H2 : Bytes.slice data (0 + 2) (0 + 4) = field).
  { unfold data. rewrite <- !app_assoc.
    apply (slice_middle [xff; kind]%byte field); reflexivity. }
  assert (H3 : Bytes.slice data (0 + 4) (0 + 4 + (L - 2)) = payload).
  { unfold data. rewrite <- !app_assoc.
    rewrite (app_assoc [xff; kind]%byte field).
    apply slice_middle; [reflexivity|]. rewrite len_app, Hfield.
    unfold L, Bytes.len. simpl. lia. }
  cbn [Tiff.walk_markers]. rewrite H1. cbn [Byte.to_N negb N.eqb Pos.eqb].
  rewrite H2, Hunpack.
  assert (N.eqb L 0 = false) as -> by (apply N.eqb_neq; unfold L; lia).
  assert (N.eqb L 1 = false) as -> by (apply N.eqb_neq; unfold L; lia).
  rewrite H3.
  destruct (N.eqb (Byte.to_N kind) 225) eqn:Hk; cbn [andb].
  - destruct (Bytes.starts_with _ _); [done|].
    rewrite <- Hshift. f_equal. lia.
  - assert ((224 <=? Byte.to_N kind)%N && (Byte.to_N kind <=? 239)%N = true)
      as ->.
    { apply andb_true_iff. split; by apply N.leb_le. }
    rewrite <- Hshift. f_equal. unfold L, Bytes.len. lia.
Qed.

Lemma header_of_jpeg rest :
  Bytes.eqb (Bytes.slice ([xff; xd8]%byte ++ rest) 0 2) [xff; xd8]%byte = true.
Proof.
  rewrite (slice_middle [] [xff; xd8]%byte rest) by reflexivity.
  reflexivity.
Qed.

Lemma walk_after_header fuel rest :
  Tiff.walk_markers fuel ([xff; xd8]%byte ++ rest) 2
  = Tiff.walk_markers fuel rest 0.
Proof. apply (walk_markers_shift fuel [xff; xd8]%byte rest 0). Qed.

(** X10.  A file that starts with the start-of-image marker and an APP1
    segment holding the EXIF signature and a TIFF block is read as that TIFF
    block, whatever follows the segment.  The length field of the segment
    has two bytes, so the block has fewer than 65528 bytes. *)
Theorem X10_exif_segment_is_handed_to_the_tiff_parser
    (tiff rest : list byte) :
  (Bytes.len tiff + 8 < 65536)%N →
  Tiff.parse_raw_exif
    (Some ([xff; xd8]%byte
           ++ Sample.segment xe1 (Tiff.EXIF_SIGNATURE ++ tiff) ++ rest))
  = Tiff.parse_tiff_data tiff.
Proof.
  intros Hlen. unfold Tiff.parse_raw_exif.
  rewrite header_of_jpeg. cbn [negb].
  rewrite walk_after_header.
  rewrite walk_markers_segment; [|rewrite len_app; reflexivity + (
    unfold Bytes.len in *; simpl; lia)|done|done].
  done.
Qed.

(** X11.  A segment APP0 or APP2..APP15, and an APP1 segment without the
    EXIF signature, is skipped by its announced length: the file is read as
    if the segment were not there. *)
Theorem X11_other_segments_are_skipped
    (kind : byte) (payload rest : list byte) :
  (Bytes.len payload + 2 < 65536)%N →
  (224 <= Byte.to_N kind)%N → (Byte.to_N kind <= 239)%N →
  N.eqb (Byte.to_N kind) 225
    && Bytes.starts_with Tiff.EXIF_SIGNATURE payload = false →
  Tiff.parse_raw_exif
    (Some ([xff; xd8]%byte ++ Sample.segment kind payload ++ rest))
  = Tiff.parse_raw_exif (Some ([xff; xd8]%byte ++ rest)).
Proof.
  intros Hlen Hlo Hhi Hskip. unfold Tiff.parse_raw_exif.
  rewrite !header_of_jpeg. cbn [negb]. rewrite !walk_after_header.
  rewrite walk_markers_segment by done. rewrite Hskip.
  rewrite (walk_markers_agree _ (S (length ([xff; xd8]%byte ++ rest))) rest 0);
    [done| |].
  - rewrite !length_app. unfold Bytes.len. simpl. lia.
  - rewrite !length_app. unfold Bytes.len. simpl. lia.
Qed.

(** X12.  The marker walk of the binary scan ends on every file: the rounds
    the scan allows, one more than the file has bytes, always suffice, and
    more rounds give the same answer.  A file that does not start with the
    start-of-image marker is answered with the unknown pair without a
    walk. *)
Theorem X12_marker_walk_terminates (data : list byte) :
  ∃ r,
    (∀ fuel, length data < fuel → Tiff.walk_markers fuel data 2 = Some r)
    ∧ Tiff.parse_raw_exif (Some data)
      = (if Bytes.eqb (Bytes.slice data 0 2) [xff; xd8]%byte
         then from_option id Tiff.UNKNOWN_PAIR r
         else Tiff.UNKNOWN_PAIR)
    ∧ Tiff.parse_raw_exif None = Tiff.UNKNOWN_PAIR.
Proof.
  destruct (Tiff.walk_markers (S (length data)) data 2) as [r|] eqn:Hr.
  - exists r. split; [|split; [|done]].
    + intros fuel Hfuel. eapply walk_markers_fuel; [exact Hr|lia].
    + unfold Tiff.parse_raw_exif. rewrite Hr.
      destruct (Bytes.eqb _ _); [|done]. by destruct r.
  - exfalso. revert Hr. apply walk_markers_fuel_suffices.
    unfold Bytes.len. lia.
Qed.

(** ** Bounds in the IFD parser *)

Lemma ifd_entry_outside tiff_data entry_start e st i :
  (Bytes.len tiff_data < entry_start + N.of_nat i * 12 + 12)%N →
  Tiff.ifd_entry tiff_data entry_start e st i = Some st.
Proof.
  intros Hout. destruct st as [date_time camera_model].
  unfold Tiff.ifd_entry.
  by assert ((Bytes.len tiff_data <? entry_start + N.of_nat i * 12 + 12)%N
             = true) as -> by (by apply N.ltb_lt).
Qed.

Lemma ifd_entries_outside tiff_data entry_start e st from count :
  (Bytes.len tiff_data < entry_start + N.of_nat from * 12 + 12)%N →
  Tiff.ifd_entries tiff_data entry_start e st (seq from count) = Some st.
Proof.
  revert from. induction count as [|count IH]; intros from Hout; [done|].
  simpl. rewrite ifd_entry_outside by done. apply IH. lia.
Qed.

Lemma ifd_entries_app tiff_data entry_start e st l1 l2 :
  Tiff.ifd_entries tiff_data entry_start e st (l1 ++ l2)
  = match Tiff.ifd_entries tiff_data entry_start e st l1 with
    | Some st' => Tiff.ifd_entries tiff_data entry_start e st' l2
    | None => None
    end.
Proof.
  revert st. induction l1 as [|i l1 IH]; intros st; [done|].
  simpl. destruct (Tiff.ifd_entry _ _ _ _ _); [apply IH|done].
Qed.

(** The entries the block cannot hold change nothing. *)
Lemma ifd_entries_inside tiff_data entry_start e st announced :
  ∃ st',
    Tiff.ifd_entries tiff_data entry_start e st (seq 0 announced) = Some st'
    ∧ Tiff.ifd_entries tiff_data entry_start e st
        (seq 0 (Nat.min announced
                  (N.to_nat ((Bytes.len tiff_data - entry_start) / 12))))
      = Some st'.
Proof.
  set (inside := N.to_nat ((Bytes.len tiff_data - entry_start) / 12)).
  destruct (ifd_entries_last tiff_data entry_start e st
              (seq 0 (Nat.min announced inside))) as [cm Hin].
  eexists. split; [|exact Hin].
  destruct (Nat.le_ge_cases announced inside) as [Hle|Hge].
  - rewrite Nat.min_l in Hin |- * by done. exact Hin.
  - rewrite Nat.min_r in Hin |- * by done.
    replace announced with (inside + (announced - inside)) at 1 by lia.
    rewrite seq_app, ifd_entries_app, Hin. simpl.
    apply ifd_entries_outside. unfold inside.
    pose proof (N.mod_lt (Bytes.len tiff_data - entry_start) 12 ltac:(lia)).
    pose proof (N.div_mod (Bytes.len tiff_data - entry_start) 12 ltac:(lia)).
    lia.
Qed.

(** X13.  The IFD parse raises no exception and tolerates an entry count
    that the block cannot hold: for every block, offset and byte order the
    entry loop runs to its end, and the result of the parse is the one of
    the entries that lie whole inside the block, however many entries the
    count field announces.  An offset that leaves no room for the count
    field gives the unknown pair. *)
Theorem X13_entry_count_beyond_the_block_is_harmless
    (tiff_data : list byte) (offset : N) (e : Bytes.endian) :
  let announced :=
    N.to_nat (Bytes.number e (Bytes.slice tiff_data offset (offset + 2))) in
  let inside := N.to_nat ((Bytes.len tiff_data - (offset + 2)) / 12) in
  ∃ st,
    Tiff.ifd_entries tiff_data (offset + 2) e Tiff.UNKNOWN_PAIR
      (seq 0 (Nat.min announced inside)) = Some st
    ∧ Tiff.parse_ifd tiff_data offset e
      = (if (Bytes.len tiff_data <? offset + 2)%N then Tiff.UNKNOWN_PAIR
         else st).
Proof.
  intros announced inside.
  destruct (ifd_entries_inside tiff_data (offset + 2) e Tiff.UNKNOWN_PAIR
              announced) as (st & Hall & Hin).
  exists st. split; [exact Hin|].
  unfold Tiff.parse_ifd.
  destruct (Bytes.len tiff_data <? offset + 2)%N eqn:Hlt; [done|].
  apply N.ltb_ge in Hlt.
  rewrite unpack_H_two by (rewrite slice_length; lia).
  cbn [mbind option_bind]. fold announced. by rewrite Hall.
Qed.

(** X14.  A time entry whose count is 20 or more is passed over: the loop
    body leaves the time and the camera model as they are.  The twenty bytes
    of a standard EXIF DateTime, nineteen characters and a NUL, are such an
    entry. *)
Theorem X14_time_of_twenty_bytes_is_passed_over
    (tiff_data : list byte) (entry_start : N) (e : Bytes.endian)
    (st : string * string) (i : nat) :
  let entry_offset := (entry_start + N.of_nat i * 12)%N in
  let entry_data := Bytes.slice tiff_data entry_offset (entry_offset + 12) in
  (entry_offset + 12 ≤ Bytes.len tiff_data)%N →
  Bytes.number e (Bytes.slice entry_data 0 2) ∈ [ 306; 36867; 36868 ]%N →
  (20 ≤ Bytes.number e (Bytes.slice entry_data 4 8))%N →
  Tiff.ifd_entry tiff_data entry_start e st i = Some st.
Proof.
  intros entry_offset entry_data Hin Htag Hcount.
  destruct st as [date_time camera_model]. unfold Tiff.ifd_entry.
  fold entry_offset. fold entry_data.
  assert ((Bytes.len tiff_data <? entry_offset + 12)%N = false) as ->
    by (apply N.ltb_ge; lia).
  assert (Hlen : length entry_data = 12).
  { unfold entry_data. rewrite slice_length. lia. }
  assert (Hl : Bytes.len entry_data = 12%N) by (unfold Bytes.len; lia).
  rewrite Hlen. simpl (12 <? 12).
  rewrite !unpack_H_two by (rewrite slice_length, Hl; lia).
  rewrite !unpack_L_four by (rewrite slice_length, Hl; lia).
  cbn [mbind option_bind].
  assert (N.eqb (Bytes.number e (Bytes.slice entry_data 0 2)) 306
          || N.eqb (Bytes.number e (Bytes.slice entry_data 0 2)) 36867
          || N.eqb (Bytes.number e (Bytes.slice entry_data 0 2)) 36868 = true)
    as ->.
  { apply list_elem_of_In in Htag. simpl in Htag.
    destruct Htag as [<-|[<-|[<-|[]]]]; reflexivity. }
  by assert ((Bytes.number e (Bytes.slice entry_data 4 8) <? 20)%N = false)
    as -> by (apply N.ltb_ge; lia).
Qed.

(** ** The normalizer on the text EXIF writes *)

Lemma match_items_total items s found :
  View.known items → is_Some (Strptime.match_items items s found).
Proof.
  revert s found. induction items as [|it items IH]; intros s found Hk.
  - by eexists.
  - assert (Hk' : View.known items) by (intros d Hd; apply Hk; by right).
    destruct it as [c| |d]; simpl.
    + destruct s as [|c' s]; [by eexists|].
      destruct (Ascii.eqb _ _); [by apply IH|by eexists].
    + induction (Strptime.space_runs s) as [|r runs IHr]; simpl; [by eexists|].
      destruct (IH r found Hk') as [l1 ->]. by destruct IHr as [l2 ->].
    + destruct (Hk d ltac:(by left)) as [alts ->].
      induction alts as [|alt alts IHa]; simpl; [by eexists|].
      destruct (Strptime.match_classes alt s) as [[m r]|]; [|done].
      destruct (IH r ((d, m) :: found) Hk') as [l1 ->].
      by destruct IHa as [l2 ->].
Qed.

Lemma digit_in_true lo hi x :
  Strptime.digit_in lo hi (Strptime.digit_char x) = true →
  lo ≤ N.to_nat (x mod 10) ∧ N.to_nat (x mod 10) ≤ hi.
Proof.
  unfold Strptime.digit_in. rewrite code_digit_char.
  intros [H1 H2]%andb_true_iff. apply Nat.leb_le in H1, H2. lia.
Qed.

Lemma digit_in_false lo hi x :
  Strptime.digit_in lo hi (Strptime.digit_char x) = false →
  N.to_nat (x mod 10) < lo ∨ hi < N.to_nat (x mod 10).
Proof.
  unfold Strptime.digit_in. rewrite code_digit_char.
  intros [H|H]%andb_false_iff; apply Nat.leb_gt in H; lia.
Qed.

Lemma isspace_digit_char x : Text.isspace (Strptime.digit_char x) = false.
Proof.
  unfold Text.isspace. rewrite code_digit_char.
  pose proof (N.mod_lt x 10 ltac:(lia)).
  set (k := (x mod 10)%N) in *.
  apply orb_false_iff. split; apply andb_false_iff.
  - right. apply Nat.leb_gt. lia.
  - right. apply Nat.leb_gt. lia.
Qed.

Lemma hits_nil s found : View.hits [] s found found s.
Proof. by exists []. Qed.

Lemma hits_lit c items s found g r :
  View.hits items s found g r →
  View.hits (Strptime.Lit c :: items) (String c s) found g r.
Proof.
  intros [l Hl]. exists l. simpl. by rewrite Ascii.eqb_refl.
Qed.

Lemma hits_space items x s found g r :
  View.hits items (String (Strptime.digit_char x) s) found g r →
  View.hits (Strptime.Space :: items)
    (String " " (String (Strptime.digit_char x) s)) found g r.
Proof.
  intros [l Hl]. exists l.
  cbn [Strptime.match_items Strptime.space_runs].
  change (Text.isspace " ") with true. cbn iota.
  rewrite isspace_digit_char. simpl. rewrite Hl. by rewrite app_nil_r.
Qed.

Ltac lia_div := zify; Z.to_euclidean_division_equations; lia.

Ltac split_digits :=
  repeat match goal with
  | |- context [Strptime.digit_in ?lo ?hi (Strptime.digit_char ?x)] =>
      let E := fresh "E" in
      destruct (Strptime.digit_in lo hi (Strptime.digit_char x)) eqn:E;
      [apply digit_in_true in E | apply digit_in_false in E];
      cbn iota beta; try (exfalso; lia_div)
  end.

Ltac finish_hit items Hk Hl :=
  rewrite ?Hl;
  repeat match goal with
  | |- context [Strptime.match_items items ?s ?f] =>
      let l := fresh "l" in
      destruct (match_items_total items s f Hk) as [l ->]
  end;
  cbn [app]; eexists; reflexivity.

Lemma hits_M n items s found g r :
  (n ≤ 59)%N → View.known items →
  View.hits items s (("M"%char, Strptime.pad2 n) :: found) g r →
  View.hits (Strptime.Dir "M" :: items) (Strptime.pad2 n +:+ s) found g r.
Proof.
  intros Hn Hk [l Hl]. unfold View.hits, Strptime.pad2 in *.
  rewrite !string_app_cons, string_app_nil.
  cbn [Strptime.match_items].
  change (Strptime.alternatives "M")
    with (Some [[Strptime.digit_in 0 5; Strptime.digit_in 0 9];
                [Strptime.digit_in 0 9]]).
  cbn [foldr Strptime.match_classes].
  split_digits; finish_hit items Hk Hl.
Qed.

Lemma hits_S n items s found g r :
  (n ≤ 59)%N → View.known items →
  View.hits items s (("S"%char, Strptime.pad2 n) :: found) g r →
  View.hits (Strptime.Dir "S" :: items) (Strptime.pad2 n +:+ s) found g r.
Proof.
  intros Hn Hk [l Hl]. unfold View.hits, Strptime.pad2 in *.
  rewrite !string_app_cons, string_app_nil.
  cbn [Strptime.match_items].
  change (Strptime.alternatives "S")
    with (Some [[Strptime.digit_in 6 6; Strptime.digit_in 0 1];
                [Strptime.digit_in 0 5; Strptime.digit_in 0 9];
                [Strptime.digit_in 0 9]]).
  cbn [foldr Strptime.match_classes].
  split_digits; finish_hit items Hk Hl.
Qed.

Lemma hits_H n items s found g r :
  (n ≤ 23)%N → View.known items →
  View.hits items s (("H"%char, Strptime.pad2 n) :: found) g r →
  View.hits (Strptime.Dir "H" :: items) (Strptime.pad2 n +:+ s) found g r.
Proof.
  intros Hn Hk [l Hl]. unfold View.hits, Strptime.pad2 in *.
  rewrite !string_app_cons, string_app_nil.
  cbn [Strptime.match_items].
  change (Strptime.alternatives "H")
    with (Some [[Strptime.digit_in 2 2; Strptime.digit_in 0 3];
                [Strptime.digit_in 0 1; Strptime.digit_in 0 9];
                [Strptime.digit_in 0 9]]).
  cbn [foldr Strptime.match_classes].
  split_digits; finish_hit items Hk Hl.
Qed.

Lemma hits_m n items s found g r :
  (1 ≤ n)%N → (n ≤ 12)%N → View.known items →
  View.hits items s (("m"%char, Strptime.pad2 n) :: found) g r →
  View.hits (Strptime.Dir "m" :: items) (Strptime.pad2 n +:+ s) found g r.
Proof.
  intros Hn1 Hn Hk [l Hl]. unfold View.hits, Strptime.pad2 in *.
  rewrite !string_app_cons, string_app_nil.
  cbn [Strptime.match_items].
  change (Strptime.alternatives "m")
    with (Some [[Strptime.digit_in 1 1; Strptime.digit_in 0 2];
                [Strptime.digit_in 0 0; Strptime.digit_in 1 9];
                [Strptime.digit_in 1 9]]).
  cbn [foldr Strptime.match_classes].
  split_digits; finish_hit items Hk Hl.
Qed.

Lemma hits_d n items s found g r :
  (1 ≤ n)%N → (n ≤ 31)%N → View.known items →
  View.hits items s (("d"%char, Strptime.pad2 n) :: found) g r →
  View.hits (Strptime.Dir "d" :: items) (Strptime.pad2 n +:+ s) found g r.
Proof.
  intros Hn1 Hn Hk [l Hl]. unfold View.hits, Strptime.pad2 in *.
  rewrite !string_app_cons, string_app_nil.
  cbn [Strptime.match_items].
  change (Strptime.alternatives "d")
    with (Some [[Strptime.digit_in 3 3; Strptime.digit_in 0 1];
                [Strptime.digit_in 1 2; Strptime.digit_in 0 9];
                [Strptime.digit_in 0 0; Strptime.digit_in 1 9];
                [Strptime.digit_in 1 9];
                [Strptime.blank; Strptime.digit_in 1 9]]).
  cbn [foldr Strptime.match_classes].
  assert (Hb : ∀ x, Strptime.blank (Strptime.digit_char x) = false).
  { intros x. unfold Strptime.blank. rewrite code_digit_char. done. }
  rewrite !Hb.
  split_digits; finish_hit items Hk Hl.
Qed.

Lemma hits_Y n items s found g r :
  View.hits items s (("Y"%char, Strptime.pad4 n) :: found) g r →
  View.hits (Strptime.Dir "Y" :: items) (Strptime.pad4 n +:+ s) found g r.
Proof.
  intros [l Hl]. unfold View.hits, Strptime.pad4, Strptime.pad2 in *.
  rewrite !string_app_cons, string_app_nil.
  cbn [Strptime.match_items].
  change (Strptime.alternatives "Y")
    with (Some [[Strptime.digit_in 0 9; Strptime.digit_in 0 9;
                 Strptime.digit_in 0 9; Strptime.digit_in 0 9]]).
  cbn [foldr Strptime.match_classes].
  split_digits. rewrite Hl. cbn [app]. rewrite app_nil_r. by eexists.
Qed.

Lemma int_of_pad2 n : (n < 100)%N → Strptime.int_of (Strptime.pad2 n) = n.
Proof.
  intros Hn. unfold Strptime.int_of, Strptime.pad2.
  rewrite !digit_char_isdigit, !code_digit_char. lia_div.
Qed.

Lemma int_of_pad4 n : (n < 10000)%N → Strptime.int_of (Strptime.pad4 n) = n.
Proof.
  intros Hn. unfold Strptime.int_of, Strptime.pad4, Strptime.pad2.
  rewrite !digit_char_isdigit, !code_digit_char. lia_div.
Qed.

Lemma hits_sep c items s found g r :
  View.hits items s found g r →
  View.hits (Strptime.Lit c :: items) (String c "" +:+ s) found g r.
Proof.
  intros H. rewrite string_app_cons, string_app_nil. by apply hits_lit.
Qed.

Lemma hits_blank items n s found g r :
  View.hits items (Strptime.pad2 n +:+ s) found g r →
  View.hits (Strptime.Space :: items) (" " +:+ Strptime.pad2 n +:+ s) found g r.
Proof.
  unfold Strptime.pad2. rewrite !string_app_cons, !string_app_nil.
  apply hits_space.
Qed.

Ltac solve_known :=
  let d := fresh "d" in
  let Hd := fresh "Hd" in
  intros d Hd;
  repeat (apply elem_of_cons in Hd as [Hd|Hd];
          [try discriminate Hd; injection Hd as ->; by eexists|]);
  by apply elem_of_nil in Hd.

(** The groups the first format captures from the written text. *)
Lemma written_hits sep dt :
  View.valid dt = true →
  View.hits
    [Strptime.Dir "Y"; Strptime.Lit sep; Strptime.Dir "m"; Strptime.Lit sep;
     Strptime.Dir "d"; Strptime.Space; Strptime.Dir "H"; Strptime.Lit ":";
     Strptime.Dir "M"; Strptime.Lit ":"; Strptime.Dir "S"]
    (View.written sep dt) []
    [("S"%char, Strptime.pad2 (Strptime.second dt));
     ("M"%char, Strptime.pad2 (Strptime.minute dt));
     ("H"%char, Strptime.pad2 (Strptime.hour dt));
     ("d"%char, Strptime.pad2 (Strptime.day dt));
     ("m"%char, Strptime.pad2 (Strptime.month dt));
     ("Y"%char, Strptime.pad4 (Strptime.year dt))] "".
Proof.
  unfold View.valid. rewrite !andb_true_iff, !N.leb_le.
  intros [[[[[[[[Hy1 Hy2] Hm1] Hm2] Hd1] Hd2] HH] HM] HS].
  assert (Hd3 : (Strptime.day dt ≤ 31)%N).
  { etrans; [exact Hd2|]. unfold Strptime.days_in_month.
    repeat case_match; lia. }
  unfold View.written.
  apply hits_Y, hits_sep, hits_m; [done|done|solve_known|].
  apply hits_sep, hits_d; [done|done|solve_known|].
  apply hits_blank, hits_H; [done|solve_known|].
  apply hits_sep, hits_M; [done|solve_known|].
  apply hits_sep.
  replace (Strptime.pad2 (Strptime.second dt))
    with (Strptime.pad2 (Strptime.second dt) +:+ "") at 2 by reflexivity.
  apply hits_S; [done|solve_known|]. apply hits_nil.
Qed.

Lemma strptime_hit fmt items s g :
  Strptime.pattern fmt = Some items → View.hits items s [] g "" →
  Strptime.strptime s fmt = Strptime.build g.
Proof. intros Hp [l Hl]. unfold Strptime.strptime. by rewrite Hp, Hl. Qed.

Lemma strptime_miss fmt items s :
  Strptime.pattern fmt = Some items →
  Strptime.match_items items s [] = Some [] →
  Strptime.strptime s fmt = None.
Proof. intros Hp Hm. unfold Strptime.strptime. by rewrite Hp, Hm. Qed.

(** A date written with another separator than the format's is refused
    after the year. *)
Lemma other_separator c sep items y s :
  Ascii.eqb (Text.lower_char c) (Text.lower_char sep) = false →
  Strptime.match_items (Strptime.Dir "Y" :: Strptime.Lit c :: items)
    (Strptime.pad4 y +:+ String sep "" +:+ s) [] = Some [].
Proof.
  intros Hc. unfold Strptime.pad4, Strptime.pad2.
  rewrite !string_app_cons, !string_app_nil.
  cbn [Strptime.match_items].
  change (Strptime.alternatives "Y")
    with (Some [[Strptime.digit_in 0 9; Strptime.digit_in 0 9;
                 Strptime.digit_in 0 9; Strptime.digit_in 0 9]]).
  cbn [foldr Strptime.match_classes].
  split_digits. by rewrite Hc.
Qed.

Lemma build_written dt :
  View.valid dt = true →
  Strptime.build
    [("S"%char, Strptime.pad2 (Strptime.second dt));
     ("M"%char, Strptime.pad2 (Strptime.minute dt));
     ("H"%char, Strptime.pad2 (Strptime.hour dt));
     ("d"%char, Strptime.pad2 (Strptime.day dt));
     ("m"%char, Strptime.pad2 (Strptime.month dt));
     ("Y"%char, Strptime.pad4 (Strptime.year dt))]
  = Some {| Strptime.year := Strptime.year dt;
            Strptime.month := Strptime.month dt;
            Strptime.day := Strptime.day dt;
            Strptime.hour := Strptime.hour dt;
            Strptime.minute := Strptime.minute dt;
            Strptime.second := Strptime.second dt;
            Strptime.microsecond := 0 |}.
Proof.
  intros Hv. pose proof Hv as Hv'. unfold View.valid in Hv'.
  rewrite !andb_true_iff, !N.leb_le in Hv'.
  destruct Hv' as [[[[[[[[Hy1 Hy2] Hm1] Hm2] Hd1] Hd2] HH] HM] HS].
  assert (Hd3 : (Strptime.day dt ≤ 31)%N).
  { etrans; [exact Hd2|]. unfold Strptime.days_in_month.
    repeat case_match; lia. }
  unfold Strptime.build.
  change (Strptime.group "Y" _) with (Some (Strptime.pad4 (Strptime.year dt))).
  change (Strptime.group "m" _) with (Some (Strptime.pad2 (Strptime.month dt))).
  change (Strptime.group "d" _) with (Some (Strptime.pad2 (Strptime.day dt))).
  change (Strptime.group "H" _) with (Some (Strptime.pad2 (Strptime.hour dt))).
  change (Strptime.group "M" _) with (Some (Strptime.pad2 (Strptime.minute dt))).
  change (Strptime.group "S" _) with (Some (Strptime.pad2 (Strptime.second dt))).
  change (Strptime.group "f" _) with (@None string).
  cbn [from_option].
  rewrite int_of_pad4 by lia. rewrite !int_of_pad2 by lia.
  apply N.leb_le in Hy1, Hy2, Hm1, Hm2, Hd1, Hd2, HS.
  by rewrite Hy1, Hy2, Hm1, Hm2, Hd1, Hd2, HS.
Qed.

Lemma truthy_written sep dt : Text.truthy (View.written sep dt) = true.
Proof.
  unfold View.written, Strptime.pad4. by rewrite string_app_cons.
Qed.

Lemma wide_space_digit x :
  (∀ b, Text.wide_space2 (Strptime.digit_char x) b = false)
  ∧ (∀ a, Text.wide_space2 a (Strptime.digit_char x) = false)
  ∧ (∀ b c, Text.wide_space3 (Strptime.digit_char x) b c = false)
  ∧ (∀ a b, Text.wide_space3 a b (Strptime.digit_char x) = false).
Proof.
  pose proof (N.mod_lt x 10 ltac:(lia)) as Hlt.
  pose proof (code_digit_char x) as Hc.
  assert (Hne : ∀ k, 128 ≤ k →
    Nat.eqb (Text.code (Strptime.digit_char x)) k = false).
  { intros k Hk. apply Nat.eqb_neq. lia. }
  assert (Hle : (128 <=? Text.code (Strptime.digit_char x)) = false).
  { apply Nat.leb_gt. lia. }
  unfold Text.wide_space2, Text.wide_space3.
  repeat split; intros; rewrite ?Hle, !Hne by lia;
    rewrite ?andb_false_r, ?orb_false_r; reflexivity.
Qed.

(** A text with a digit at its head loses nothing there. *)
Lemma lstrip_digit backwards x s :
  Text.lstrip_spaces backwards (String (Strptime.digit_char x) s)
  = String (Strptime.digit_char x) s.
Proof.
  destruct (wide_space_digit x) as (H2 & H2' & H3 & H3').
  cbn [Text.lstrip_spaces]. rewrite isspace_digit_char.
  destruct s as [|b [|c s]]; [done|..]; destruct backwards;
    by rewrite ?H2, ?H2', ?H3, ?H3'.
Qed.

Lemma strip_written sep dt :
  Text.strip (View.written sep dt) = View.written sep dt.
Proof.
  unfold View.written, Strptime.pad4, Strptime.pad2.
  rewrite !string_app_cons, !string_app_nil.
  unfold Text.strip.
  rewrite lstrip_digit.
  lazy beta iota delta [String.rev String.rev_app].
  by rewrite lstrip_digit.
Qed.

Lemma strftime_fields dt dt' :
  Strptime.year dt' = Strptime.year dt →
  Strptime.month dt' = Strptime.month dt →
  Strptime.day dt' = Strptime.day dt →
  Strptime.hour dt' = Strptime.hour dt →
  Strptime.minute dt' = Strptime.minute dt →
  Strptime.second dt' = Strptime.second dt →
  Strptime.strftime dt' = Strptime.strftime dt.
Proof. unfold Strptime.strftime. by intros -> -> -> -> -> ->. Qed.

(** X15. A date-time of the calendar with a year of four digits, written as
    YYYY:MM:DD HH:MM:SS, or with dashes or slashes between the fields of the
    date, is normalized to the same date-time in the form YYYYMMDD_HHMMSS:
    the parse and the print lose no field and change none.  The years below
    1000, which C libraries print with or without leading zeros, are left
    out. *)
Theorem X15_written_time_is_normalized sep dt :
  sep ∈ [":"%char; "-"%char; "/"%char] →
  View.valid dt = true →
  (1000 ≤ Strptime.year dt)%N →
  Normalizer.format_datetime_string (View.written sep dt)
  = Strptime.strftime dt.
Proof.
  intros Hsep Hv _. unfold Normalizer.format_datetime_string.
  rewrite truthy_written. cbn [negb].
  unfold Normalizer.formats. cbn [Normalizer.try_formats].
  rewrite strip_written.
  pose proof (written_hits sep dt Hv) as Hh.
  pose proof (build_written dt Hv) as Hb.
  assert (Hy : ∀ c items,
    Ascii.eqb (Text.lower_char c) (Text.lower_char sep) = false →
    Strptime.match_items (Strptime.Dir "Y" :: Strptime.Lit c :: items)
      (View.written sep dt) [] = Some []).
  { intros c items Hc. by apply other_separator. }
  apply elem_of_cons in Hsep as [->|Hsep];
    [|apply elem_of_cons in Hsep as [->|Hsep];
      [|apply elem_of_cons in Hsep as [->|Hsep];
        [|by apply elem_of_nil in Hsep]]].
  - rewrite (strptime_hit "%Y:%m:%d %H:%M:%S" _ _ _ eq_refl Hh), Hb.
    by apply strftime_fields.
  - rewrite (strptime_miss "%Y:%m:%d %H:%M:%S" _ _ eq_refl (Hy ":"%char _ eq_refl)).
    rewrite (strptime_hit "%Y-%m-%d %H:%M:%S" _ _ _ eq_refl Hh), Hb.
    by apply strftime_fields.
  - rewrite (strptime_miss "%Y:%m:%d %H:%M:%S" _ _ eq_refl (Hy ":"%char _ eq_refl)).
    rewrite (strptime_miss "%Y-%m-%d %H:%M:%S" _ _ eq_refl (Hy "-"%char _ eq_refl)).
    rewrite (strptime_hit "%Y/%m/%d %H:%M:%S" _ _ _ eq_refl Hh), Hb.
    by apply strftime_fields.
Qed.

(** ** The camera model of an IFD *)

Section Camera.
Variables (tiff_data : list byte) (entry_start : N) (e : Bytes.endian).

(** The three tests on the count and the place of a value, as one. *)
Lemma value_fits {T} (A B : T) (count value_offset : N) :
  (if (count <=? 4)%N then A
   else if (value_offset <? Bytes.len tiff_data)%N then
     if (count <=? Bytes.len
                     (Bytes.slice tiff_data value_offset (value_offset + count)))%N
     then B else A
   else A)
  = if (4 <? count)%N && (value_offset + count <=? Bytes.len tiff_data)%N
    then B else A.
Proof.
  rewrite slice_len.
  destruct (count <=? 4)%N eqn:H4.
  { apply N.leb_le in H4.
    by assert ((4 <? count)%N = false) as -> by (apply N.ltb_ge; lia). }
  apply N.leb_gt in H4.
  assert ((4 <? count)%N = true) as -> by (apply N.ltb_lt; lia).
  cbn [andb].
  destruct (value_offset <? Bytes.len tiff_data)%N eqn:Hvo.
  - apply N.ltb_lt in Hvo.
    destruct (value_offset + count <=? Bytes.len tiff_data)%N eqn:Hfit.
    + apply N.leb_le in Hfit.
      by assert ((count <=? N.min (value_offset + count) (Bytes.len tiff_data)
                            - N.min value_offset (Bytes.len tiff_data))%N = true)
        as -> by (apply N.leb_le; lia).
    + apply N.leb_gt in Hfit.
      by assert ((count <=? N.min (value_offset + count) (Bytes.len tiff_data)
                            - N.min value_offset (Bytes.len tiff_data))%N = false)
        as -> by (apply N.leb_gt; lia).
  - apply N.ltb_ge in Hvo.
    by assert ((value_offset + count <=? Bytes.len tiff_data)%N = false) as ->
      by (apply N.leb_gt; lia).
Qed.

(** The camera model after an entry: a Model text replaces it, a Make text
    replaces only the unknown marker, every other entry keeps it. *)
Lemma ifd_entry_camera date_time camera_model i :
  ∃ date_time',
    Tiff.ifd_entry tiff_data entry_start e (date_time, camera_model) i
    = Some (date_time',
            match Tiff.entry_text 272 tiff_data entry_start e i,
                  Tiff.entry_text 271 tiff_data entry_start e i with
            | Some m, _ => m
            | None, Some k =>
                if String.eqb camera_model Text.UNKNOWN_MODEL then k
                else camera_model
            | None, None => camera_model
            end).
Proof.
  unfold Tiff.ifd_entry, Tiff.entry_text.
  set (entry_offset := (entry_start + N.of_nat i * 12)%N).
  destruct (Bytes.len tiff_data <? entry_offset + 12)%N eqn:Hin; [by eexists|].
  apply N.ltb_ge in Hin.
  set (entry_data := Bytes.slice tiff_data entry_offset (entry_offset + 12)).
  assert (Hlen : length entry_data = 12).
  { unfold entry_data. rewrite slice_length. lia. }
  assert (Hl : Bytes.len entry_data = 12%N) by (unfold Bytes.len; lia).
  rewrite Hlen. simpl (12 <? 12).
  rewrite !unpack_H_two by (rewrite slice_length, Hl; lia).
  rewrite !unpack_L_four by (rewrite slice_length, Hl; lia).
  cbn [mbind option_bind]. cbv zeta.
  set (tag_id := Bytes.number e (Bytes.slice entry_data 0 2)).
  set (count := Bytes.number e (Bytes.slice entry_data 4 8)).
  set (value_offset := Bytes.number e (Bytes.slice entry_data 8 12)).
  rewrite !value_fits.
  destruct (N.eqb tag_id 306 || N.eqb tag_id 36867 || N.eqb tag_id 36868)
    eqn:Htag.
  - assert (N.eqb tag_id 272 = false ∧ N.eqb tag_id 271 = false) as [-> ->].
    { rewrite !orb_true_iff, !N.eqb_eq in Htag. rewrite !N.eqb_neq. lia. }
    cbn [andb].
    repeat (match goal with |- context [if ?b then _ else _] => destruct b end);
      by eexists.
  - destruct (N.eqb tag_id 272) eqn:H272.
    + assert (N.eqb tag_id 271 = false) as ->.
      { apply N.eqb_eq in H272. apply N.eqb_neq. lia. }
      cbn [andb].
      destruct (_ && _); [|by eexists].
      destruct (Text.truthy _); by eexists.
    + destruct (N.eqb tag_id 271); [|by eexists].
      cbn [andb].
      destruct (_ && _); [|by eexists].
      destruct (Text.truthy _); [|by eexists].
      cbn [andb]. destruct (String.eqb camera_model _); by eexists.
Qed.

(** Entries without a Model text keep a camera model that is known. *)
Lemma ifd_entries_keep_model st indices :
  omap (Tiff.entry_text 272 tiff_data entry_start e) indices = [] →
  st.2 ≠ Text.UNKNOWN_MODEL →
  ∃ date_time',
    Tiff.ifd_entries tiff_data entry_start e st indices
    = Some (date_time', st.2).
Proof.
  revert st. induction indices as [|i rest IH];
    intros [date_time camera_model] Hno Hcm; [by eexists|].
  cbn [Tiff.ifd_entries snd] in *.
  destruct (ifd_entry_camera date_time camera_model i) as [dt' ->].
  cbn [omap list_omap] in Hno.
  destruct (Tiff.entry_text 272 tiff_data entry_start e i); [done|].
  assert (String.eqb camera_model Text.UNKNOWN_MODEL = false) as ->
    by by apply String.eqb_neq.
  destruct (Tiff.entry_text 271 tiff_data entry_start e i);
    by apply (IH (dt', camera_model)).
Qed.

(** The last Model text, when it is not the unknown marker, is the camera
    model after the entries. *)
Lemma ifd_entries_last_model st indices m :
  last (omap (Tiff.entry_text 272 tiff_data entry_start e) indices) = Some m →
  m ≠ Text.UNKNOWN_MODEL →
  ∃ date_time',
    Tiff.ifd_entries tiff_data entry_start e st indices = Some (date_time', m).
Proof.
  revert st. induction indices as [|i rest IH];
    intros [date_time camera_model] Hlast Hm; [done|].
  cbn [Tiff.ifd_entries].
  destruct (ifd_entry_camera date_time camera_model i) as [dt' ->].
  cbn [omap list_omap] in Hlast.
  destruct (omap (Tiff.entry_text 272 tiff_data entry_start e) rest)
    as [|m' ms] eqn:Hrest.
  - destruct (Tiff.entry_text 272 tiff_data entry_start e i) as [m0|];
      [|done].
    injection Hlast as ->.
    by apply (ifd_entries_keep_model (dt', m)).
  - apply IH; [|done].
    destruct (Tiff.entry_text 272 tiff_data entry_start e i); [|done].
    by rewrite last_cons_cons in Hlast.
Qed.

(** Without a Model text the camera model, while unknown, is taken from the
    first Make text that is not the unknown marker. *)
Lemma ifd_entries_first_make st indices :
  omap (Tiff.entry_text 272 tiff_data entry_start e) indices = [] →
  ∃ date_time',
    Tiff.ifd_entries tiff_data entry_start e st indices
    = Some (date_time',
            if String.eqb st.2 Text.UNKNOWN_MODEL then
              from_option id Text.UNKNOWN_MODEL
                (head (filter (λ k, k ≠ Text.UNKNOWN_MODEL)
                         (omap (Tiff.entry_text 271 tiff_data entry_start e)
                            indices)))
            else st.2).
Proof.
  revert st. induction indices as [|i rest IH];
    intros [date_time camera_model] Hno.
  - exists date_time. cbn [Tiff.ifd_entries snd omap list_omap].
    destruct (String.eqb camera_model _) eqn:Hc; [|done].
    apply String.eqb_eq in Hc. by subst.
  - cbn [Tiff.ifd_entries snd].
    destruct (ifd_entry_camera date_time camera_model i) as [dt' ->].
    cbn [omap list_omap] in Hno |- *.
    destruct (Tiff.entry_text 272 tiff_data entry_start e i); [done|].
    destruct (Tiff.entry_text 271 tiff_data entry_start e i) as [k|].
    + destruct (String.eqb camera_model _) eqn:Hc.
      * destruct (IH (dt', k) Hno) as [dt'' ->]. exists dt''.
        cbn [snd]. rewrite filter_cons.
        destruct (decide (k ≠ Text.UNKNOWN_MODEL)) as [Hk|Hk].
        -- by apply String.eqb_neq in Hk as ->.
        -- apply dec_stable in Hk. subst k. by rewrite String.eqb_refl.
      * destruct (IH (dt', camera_model) Hno) as [dt'' ->]. exists dt''.
        cbn [snd]. by rewrite Hc.
    + destruct (IH (dt', camera_model) Hno) as [dt'' ->]. by exists dt''.
Qed.

End Camera.

(** X16. The camera model of the IFD parse is the text of the last usable
    Model entry (tag id 272), wherever the Make entries (271) are stored:
    a Make text never replaces it.  The text is the value without NUL
    characters, white space at the ends and spaces; the one exception the
    code makes is a Model whose text is the unknown marker itself. *)
Theorem X16_model_outranks_make
    (tiff_data : list byte) (offset : N) (e : Bytes.endian) (m : string) :
  last (Tiff.ifd_texts 272 tiff_data offset e) = Some m →
  m ≠ Text.UNKNOWN_MODEL →
  (Tiff.parse_ifd tiff_data offset e).2 = m.
Proof.
  unfold Tiff.parse_ifd, Tiff.ifd_texts.
  destruct (Bytes.len tiff_data <? offset + 2)%N eqn:Hin; [done|].
  apply N.ltb_ge in Hin. intros Hlast Hm.
  rewrite unpack_H_two by (rewrite slice_length; lia).
  cbn [mbind option_bind].
  by destruct (ifd_entries_last_model tiff_data (offset + 2) e
                 Tiff.UNKNOWN_PAIR _ m Hlast Hm) as [dt' ->].
Qed.

(** X17. Without a usable Model entry the camera model of the IFD parse is
    the text of the first usable Make entry (tag id 271) that is not the
    unknown marker, and the unknown marker when there is none: later Make
    entries do not replace it. *)
Theorem X17_first_make_names_the_camera
    (tiff_data : list byte) (offset : N) (e : Bytes.endian) :
  Tiff.ifd_texts 272 tiff_data offset e = [] →
  (Tiff.parse_ifd tiff_data offset e).2
  = from_option id Text.UNKNOWN_MODEL
      (head (filter (λ k, k ≠ Text.UNKNOWN_MODEL)
               (Tiff.ifd_texts 271 tiff_data offset e))).
Proof.
  unfold Tiff.parse_ifd, Tiff.ifd_texts.
  destruct (Bytes.len tiff_data <? offset + 2)%N eqn:Hin; [done|].
  apply N.ltb_ge in Hin. intros Hno.
  rewrite unpack_H_two by (rewrite slice_length; lia).
  cbn [mbind option_bind].
  by destruct (ifd_entries_first_make tiff_data (offset + 2) e
                 Tiff.UNKNOWN_PAIR _ Hno) as [dt' ->].
Qed.

End Properties.

(** * The theorems at work

    The hypotheses of the theorems above are met, and the claims that fail
    are refuted, on sample inputs, on a machine with glibc whose standard
    output takes every text. *)

#[local] Existing Instance Sample.linux.



(** C3, the claim as it stands fails: the first stage finds the camera model
    CanonEOS next to a time that does not normalize; the outcome names the
    camera Unknown, both when no later stage finds a time and when the second
    stage finds one. *)
Lemma C3_camera_model_is_not_carried :
  ExifWorker.parse_exif_with_pil Sample.TAGS
    [ (272%Z, Exif.VStr "Canon EOS"); (306%Z, Exif.VStr "yesterday") ]
  = (Text.UNKNOWN_TIME, "CanonEOS")
  ∧ ExifWorker.get_advanced_exif_data Sample.TAGS Sample.bad_time_with_model
    = (Text.UNKNOWN_TIME, "Unknown", Some ExifWorker.NO_EXIF)
  ∧ ExifWorker.get_advanced_exif_data Sample.TAGS Sample.bad_time_then_good
    = ("20210501_100000", "Unknown", None).
Proof. by vm_compute. Qed.

(** The theorem at the sample file whose first stage finds a camera model and
    a time that does not normalize. *)
Lemma C3_failed_stage_is_skipped_witness :
  ExifWorker.get_advanced_exif_data Sample.TAGS Sample.bad_time_with_model
  = ExifWorker.get_advanced_exif_data Sample.TAGS
      {| Exif.via_getexif := Exif.Missing;
         Exif.via_getexif_legacy := Exif.Missing;
         Exif.via_exif_attribute := Exif.Missing;
         Exif.content := Some [] |}.
Proof.
  apply (proj1 (C3_failed_stage_is_skipped Sample.TAGS
                  (Exif.via_getexif Sample.bad_time_with_model)
                  Exif.Missing Exif.Missing (Some []))).
  reflexivity.
Defined.


(** The theorem at the sample window after its rename, for a request, a
    preview and a cancelled folder dialog. *)
Lemma C9_rename_at_most_once_witness :
  App.rename_completed Sample.renamed = true
  ∧ ∃ s', App.run Sample.runtime Sample.renamed
            [ App.RenameFiles true; App.PreviewNames; App.SelectFolder "" [] ]
          = Some s'
          ∧ App.rename_completed s' = true
          ∧ App.disk s' = App.disk Sample.renamed.
Proof.
  split; [reflexivity|].
  apply (C9_rename_at_most_once Sample.runtime Sample.renamed
           [ App.RenameFiles true; App.PreviewNames; App.SelectFolder "" [] ]);
    reflexivity.
Defined.

(** The theorem at the sample disk with one dated photograph. *)
Lemma X2_named_result_fields_witness :
  "/p/a.jpg" ∈ [ "/p/a.jpg" ] ∧ "a.jpg" = Path.basename "/p/a.jpg"
  ∧ ".jpg" = Path.splitext_ext "a.jpg"
  ∧ (∃ dt, "20210430_090000" = Strptime.strftime dt
           ∧ (1 ≤ Strptime.year dt)%N ∧ (Strptime.year dt ≤ 9999)%N
           ∧ View.is_stamp "20210430_090000" = true
           ∧ ((1000 ≤ Strptime.year dt)%N ∨ pads_year = true →
              View.is_canonical "20210430_090000" = true
              ∧ String.length "20210430_090000" = 15))
  ∧ "20210430_090000_Unknown" = "20210430_090000" +:+ "_" +:+ "Unknown".
Proof.
  apply (X2_named_result_fields false Sample.TAGS (FS.files Sample.one_photo)
           [ "/p/a.jpg" ]
           [ ExifWorker.Named "/p/a.jpg" "a.jpg" "20210430_090000" "Unknown"
               "20210430_090000_Unknown" ".jpg" ]
           [ (1, 1) ]).
  - vm_compute. reflexivity.
  - apply list_elem_of_singleton. reflexivity.
Defined.

(** The theorem for two photographs of the same second on an empty disk. *)
Lemma X4_rename_plans_the_preview_names_witness :
  map RenameWorker.new_path
    <$> App.plan_tasks 3
          [ ExifWorker.Named "/p/a.jpg" "a.jpg" "20210430_090000" "X"
              "20210430_090000_X" ".jpg";
            ExifWorker.Named "/p/b.jpg" "b.jpg" "20210430_090000" "X"
              "20210430_090000_X" ".jpg" ]
          ∅ {| FS.files := ∅; FS.locked := ∅ |}
  = Some [ "/p/20210430_090000_X.jpg"; "/p/20210430_090000_X_1.jpg" ].
Proof.
  rewrite (X4_rename_plans_the_preview_names 3 _ ∅
             {| FS.files := ∅; FS.locked := ∅ |}).
  - vm_compute. reflexivity.
  - intros fp old d m b e _. split; [reflexivity|]. intros n. reflexivity.
Defined.

(** The theorem after the selection of the sample folder and a preview. *)
Lemma X7_button_enabled_only_with_work_witness :
  App.rename_completed Sample.previewed = false
  ∧ 0 < App.count_named (App.preview_results Sample.previewed).
Proof.
  apply (X7_button_enabled_only_with_work Sample.runtime Sample.one_photo
           [ App.SelectFolder "/p" [ "a.jpg"; "notes.txt" ]; App.PreviewNames ]).
  - vm_compute. reflexivity.
  - vm_compute. reflexivity.
Defined.

(** The theorem for a camera model listed after the original time: the
    model is not seen. *)
Lemma X9_tags_after_the_original_time_are_not_read_witness :
  ExifWorker.parse_exif_with_pil Sample.TAGS
    ([] ++ (36867%Z, Exif.VStr "2021:04:30 09:00:00")
        :: [ (272%Z, Exif.VStr "Canon EOS") ])
  = ("20210430_090000", "Unknown").
Proof.
  rewrite (X9_tags_after_the_original_time_are_not_read Sample.TAGS []
             [ (272%Z, Exif.VStr "Canon EOS") ] 36867%Z
             (Exif.VStr "2021:04:30 09:00:00")).
  - vm_compute. reflexivity.
  - vm_compute. reflexivity.
  - vm_compute. reflexivity.
Defined.

(** The theorem for the sample block with two times. *)
Lemma X10_exif_segment_is_handed_to_the_tiff_parser_witness :
  Tiff.parse_raw_exif
    (Some ([xff; xd8]%byte
           ++ Sample.segment xe1 (Tiff.EXIF_SIGNATURE ++ Sample.two_times) ++ []))
  = Tiff.parse_tiff_data Sample.two_times.
Proof.
  apply (X10_exif_segment_is_handed_to_the_tiff_parser Sample.two_times []).
  vm_compute. reflexivity.
Defined.

(** The theorem for a JFIF segment before the EXIF segment. *)
Lemma X11_other_segments_are_skipped_witness :
  Tiff.parse_raw_exif
    (Some ([xff; xd8]%byte
           ++ Sample.segment xe0 (Sample.ascii_bytes "JFIF")
           ++ Sample.segment xe1 (Tiff.EXIF_SIGNATURE ++ Sample.two_times)))
  = Tiff.parse_raw_exif
      (Some ([xff; xd8]%byte
             ++ Sample.segment xe1 (Tiff.EXIF_SIGNATURE ++ Sample.two_times))).
Proof.
  apply (X11_other_segments_are_skipped xe0 (Sample.ascii_bytes "JFIF")).
  - vm_compute. reflexivity.
  - vm_compute. discriminate.
  - vm_compute. discriminate.
  - vm_compute. reflexivity.
Defined.

(** The theorem at the sample block with a standard DateTime. *)
Lemma X14_time_of_twenty_bytes_is_passed_over_witness :
  Tiff.ifd_entry Sample.standard_time 10 Bytes.Little Tiff.UNKNOWN_PAIR 0
  = Some Tiff.UNKNOWN_PAIR.
Proof.
  apply (X14_time_of_twenty_bytes_is_passed_over Sample.standard_time 10
           Bytes.Little Tiff.UNKNOWN_PAIR 0).
  - vm_compute. discriminate.
  - vm_compute. apply list_elem_of_here.
  - vm_compute. discriminate.
Defined.

Lemma X15_written_time_is_normalized_witness :
  Normalizer.format_datetime_string "2021/04/30 09:05:00" = "20210430_090500".
Proof.
  apply (X15_written_time_is_normalized "/"
           {| Strptime.year := 2021; Strptime.month := 4; Strptime.day := 30;
              Strptime.hour := 9; Strptime.minute := 5; Strptime.second := 0;
              Strptime.microsecond := 0 |}).
  - apply list_elem_of_In. simpl. tauto.
  - vm_compute. reflexivity.
  - simpl. lia.
Defined.

Lemma X16_model_outranks_make_witness :
  Tiff.ifd_texts 271 Sample.model_then_make 8 Bytes.Little = ["Canon"]
  ∧ (Tiff.parse_ifd Sample.model_then_make 8 Bytes.Little).2 = "EOSR5".
Proof.
  split; [vm_compute; reflexivity|].
  apply (X16_model_outranks_make Sample.model_then_make 8 Bytes.Little "EOSR5").
  - vm_compute. reflexivity.
  - discriminate.
Defined.

Lemma X17_first_make_names_the_camera_witness :
  Tiff.ifd_texts 271 Sample.two_makes 8 Bytes.Little = ["Canon"; "Nikon"]
  ∧ (Tiff.parse_ifd Sample.two_makes 8 Bytes.Little).2 = "Canon".
Proof.
  split; [vm_compute; reflexivity|].
  apply (X17_first_make_names_the_camera Sample.two_makes 8 Bytes.Little).
  vm_compute. reflexivity.
Defined.
